(** * SignalWatch: the date-fact extractor and the scan orchestrator

    A shallow embedding of [src/date_parser.py] (class [DateParser]), of
    the [scan_companies] handler of [src/app.py] with its filtered search,
    and of [cleanup_exports] of [src/cleanup.py], with the properties the
    design document states about them and further properties of the code.

    Modelling conventions.
    - Text is a [string] of 8-bit characters read as ASCII; the Unicode
      classes of Python's [re] ([\d], [\s], [\w]) are taken on that range.
    - Python integers are [Z].
    - A Python exception is an explicit [Raised] result.
    - [dateparser.parse] is a third-party library; it is a parameter of the
      development ([Section]s below), ranging over every function from
      strings to "raised / no date / a datetime".
    - Python's [datetime] carries an optional [tzinfo] object and a [fold];
      ordering and subtraction of a naive and an aware value raise
      [TypeError], and two values of one [tzinfo] object are compared and
      subtracted by their wall clocks. *)

From Stdlib Require Import ZArith List Bool Ascii String Lia Permutation.
Import ListNotations.
Local Open Scope string_scope.
Local Open Scope Z_scope.

Set Implicit Arguments.

(* ================================================================== *)
(** * Python results                                                     *)
(* ================================================================== *)

Inductive pyexn : Type :=
| TypeError
| UnboundLocalError
| OtherError (tag : string).

Inductive result (A : Type) : Type :=
| Ok (a : A)
| Raised (e : pyexn).

Arguments Ok {A} a.
Arguments Raised {A} e.

Definition bind {A B : Type} (m : result A) (f : A -> result B) : result B :=
  match m with
  | Ok a => f a
  | Raised e => Raised e
  end.

Declare Scope py_scope.
Delimit Scope py_scope with py.
Notation "x <- m ;; k" := (bind m (fun x => k))
  (at level 61, m at next level, right associativity) : py_scope.
Local Open Scope py_scope.

(* ================================================================== *)
(** * Characters and strings                                             *)
(* ================================================================== *)

Module Text.

Definition code (c : ascii) : nat := nat_of_ascii c.

Definition is_digit (c : ascii) : bool :=
  ((48 <=? code c) && (code c <=? 57))%nat.

Definition is_upper (c : ascii) : bool :=
  ((65 <=? code c) && (code c <=? 90))%nat.

Definition is_lower (c : ascii) : bool :=
  ((97 <=? code c) && (code c <=? 122))%nat.

(** [\w] on ASCII: letters, digits and the underscore. *)
Definition is_word (c : ascii) : bool :=
  is_digit c || is_upper c || is_lower c || (code c =? 95)%nat.

(** [str.isspace] and [\s] on ASCII: TAB..CR, FS..US and the space. *)
Definition is_space (c : ascii) : bool :=
  ((9 <=? code c) && (code c <=? 13)
   || (28 <=? code c) && (code c <=? 32))%nat.

(** Case folding used by [re.IGNORECASE] on ASCII. *)
Definition lower (c : ascii) : ascii :=
  if is_upper c then ascii_of_nat (code c + 32) else c.

Definition eq_nocase (a b : ascii) : bool :=
  (code (lower a) =? code (lower b))%nat.

Fixpoint lstrip (s : string) : string :=
  match s with
  | String c s' => if is_space c then lstrip s' else s
  | EmptyString => EmptyString
  end.

(** [rstrip] drops the trailing run of whitespace. *)
Fixpoint rstrip (s : string) : string :=
  match s with
  | EmptyString => EmptyString
  | String c s' =>
      match rstrip s' with
      | EmptyString => if is_space c then EmptyString else String c EmptyString
      | t => String c t
      end
  end.

(** [str.strip()] *)
Definition strip (s : string) : string := rstrip (lstrip s).

Fixpoint zeros (n : nat) : string :=
  match n with
  | O => EmptyString
  | S n' => String "0" (zeros n')
  end.

(** [str.zfill(width)]: left-pad with ["0"] up to [width], after a leading
    sign if there is one; a string already that long is returned as is. *)
Definition zfill (width : nat) (s : string) : string :=
  if (width <=? String.length s)%nat then s
  else
    let fill := zeros (width - String.length s) in
    match s with
    | String c s' =>
        if (Ascii.eqb c "+" || Ascii.eqb c "-")%bool
        then String c (fill ++ s')
        else fill ++ s
    | EmptyString => fill
    end.

End Text.

(* ================================================================== *)
(** * Regular expressions (the fragment of [re] the patterns use)        *)
(* ================================================================== *)

Module Re.

Inductive cclass : Type :=
| Digit                      (* \d *)
| Space                      (* \s *)
| Word                       (* \w *)
| Chars (cs : string)        (* the listed characters *)
| Union (a b : cclass)       (* [ab] *)
| Neg (a : cclass).          (* [^a] *)

Inductive regex : Type :=
| Eps
| Chr (c : ascii)
| Cls (p : cclass)
| Cat (r1 r2 : regex)
| Alt (r1 r2 : regex)
| Many (p : cclass) (lo : nat) (hi : option nat)  (* greedy p{lo,hi}; p+ *)
| Opt (r : regex)                                 (* greedy r? *)
| Grp (n : nat) (r : regex)                       (* capturing group n *)
| WordB.                                          (* \b *)

Fixpoint mem_nocase (c : ascii) (cs : string) : bool :=
  match cs with
  | EmptyString => false
  | String x cs' => Text.eq_nocase x c || mem_nocase c cs'
  end.

(** Class membership under [re.IGNORECASE]. *)
Fixpoint in_class (p : cclass) (c : ascii) : bool :=
  match p with
  | Digit => Text.is_digit c
  | Space => Text.is_space c
  | Word => Text.is_word c
  | Chars cs => mem_nocase c cs
  | Union a b => in_class a c || in_class b c
  | Neg a => negb (in_class a c)
  end.

(** The state of one match attempt: the character before the cursor, the
    text after it, the cursor's index and the groups closed so far. *)
Record mstate : Type := MState {
  ms_prev : option ascii;
  ms_rest : string;
  ms_pos : nat;
  ms_caps : list (nat * (nat * nat))
}.

Definition advance (c : ascii) (rest : string) (st : mstate) : mstate :=
  MState (Some c) rest (S (ms_pos st)) (ms_caps st).

Definition wordish (o : option ascii) : bool :=
  match o with
  | Some c => Text.is_word c
  | None => false
  end.

Definition next_char (s : string) : option ascii :=
  match s with
  | String c _ => Some c
  | EmptyString => None
  end.

Definition at_boundary (st : mstate) : bool :=
  xorb (wordish (ms_prev st)) (wordish (next_char (ms_rest st))).

Section Matcher.
Variable A : Type.

(** Greedy bounded repetition of a class: take one more character first,
    fall back to the continuation when that fails. *)
Fixpoint many (p : cclass) (lo : nat) (hi : option nat)
              (prev : option ascii) (rest : string) (pos : nat)
              (caps : list (nat * (nat * nat)))
              (k : mstate -> option A) {struct rest} : option A :=
  let stop := match lo with
              | O => k (MState prev rest pos caps)
              | S _ => None
              end in
  match hi with
  | Some O => stop
  | _ =>
      match rest with
      | String c rest' =>
          if in_class p c then
            match many p (pred lo) (option_map pred hi)
                       (Some c) rest' (S pos) caps k with
            | Some x => Some x
            | None => stop
            end
          else stop
      | EmptyString => stop
      end
  end.

(** Backtracking matcher in continuation-passing style: alternatives are
    tried left to right, quantifiers are greedy. *)
Fixpoint rmatch (r : regex) (st : mstate) (k : mstate -> option A)
  : option A :=
  match r with
  | Eps => k st
  | Chr c =>
      match ms_rest st with
      | String c' rest' =>
          if Text.eq_nocase c c' then k (advance c' rest' st) else None
      | EmptyString => None
      end
  | Cls p =>
      match ms_rest st with
      | String c' rest' =>
          if in_class p c' then k (advance c' rest' st) else None
      | EmptyString => None
      end
  | Cat r1 r2 => rmatch r1 st (fun st' => rmatch r2 st' k)
  | Alt r1 r2 =>
      match rmatch r1 st k with
      | Some x => Some x
      | None => rmatch r2 st k
      end
  | Many p lo hi =>
      many p lo hi (ms_prev st) (ms_rest st) (ms_pos st) (ms_caps st) k
  | Opt r' =>
      match rmatch r' st k with
      | Some x => Some x
      | None => k st
      end
  | Grp n r' =>
      rmatch r' st
        (fun st' =>
           k (MState (ms_prev st') (ms_rest st') (ms_pos st')
                     ((n, (ms_pos st, ms_pos st')) :: ms_caps st')))
  | WordB => if at_boundary st then k st else None
  end.
End Matcher.

(** A match object: the span of the whole match and of its groups,
    together with the searched text. *)
Record rematch : Type := ReMatch {
  m_text : string;
  m_start : nat;
  m_end : nat;
  m_caps : list (nat * (nat * nat))
}.

Definition match_at (r : regex) (prev : option ascii) (rest : string)
                    (pos : nat) : option (nat * list (nat * (nat * nat))) :=
  rmatch r (MState prev rest pos [])
         (fun st => Some (ms_pos st, ms_caps st)).

(** [re.finditer]: leftmost matches, scanned left to right without
    overlap.  [skip] counts the characters of the last match still to be
    stepped over. *)
Fixpoint scan (r : regex) (text : string) (prev : option ascii)
              (rest : string) (pos skip : nat) {struct rest}
  : list rematch :=
  match skip with
  | S skip' =>
      match rest with
      | EmptyString => []
      | String c rest' => scan r text (Some c) rest' (S pos) skip'
      end
  | O =>
      match match_at r prev rest pos with
      | Some (e, caps) =>
          ReMatch text pos e caps ::
          match rest with
          | EmptyString => []
          | String c rest' =>
              scan r text (Some c) rest' (S pos) (e - pos - 1)
          end
      | None =>
          match rest with
          | EmptyString => []
          | String c rest' => scan r text (Some c) rest' (S pos) 0
          end
      end
  end.

Definition finditer (r : regex) (text : string) : list rematch :=
  scan r text None text 0 0.

Fixpoint assoc_nat {B : Type} (n : nat) (l : list (nat * B)) : option B :=
  match l with
  | [] => None
  | (m, b) :: l' => if (n =? m)%nat then Some b else assoc_nat n l'
  end.

(** [match.group(n)]; a group that did not take part reads as the empty
    string here (no pattern of this module is read at such a group). *)
Definition group (m : rematch) (n : nat) : string :=
  match n with
  | O => substring (m_start m) (m_end m - m_start m) (m_text m)
  | _ =>
      match assoc_nat n (m_caps m) with
      | Some (s, e) => substring s (e - s) (m_text m)
      | None => EmptyString
      end
  end.

(** Pattern-building helpers. *)
Fixpoint lit (s : string) : regex :=
  match s with
  | EmptyString => Eps
  | String c s' => Cat (Chr c) (lit s')
  end.

Fixpoint cat_all (rs : list regex) : regex :=
  match rs with
  | [] => Eps
  | r :: rs' => Cat r (cat_all rs')
  end.

Fixpoint alt_all (r : regex) (rs : list regex) : regex :=
  match rs with
  | [] => r
  | r' :: rs' => Alt r (alt_all r' rs')
  end.

(** The least number of characters a match of [r] spans. *)
Fixpoint min_len (r : regex) : nat :=
  match r with
  | Eps | WordB | Opt _ => 0
  | Chr _ | Cls _ => 1
  | Cat r1 r2 => min_len r1 + min_len r2
  | Alt r1 r2 => Nat.min (min_len r1) (min_len r2)
  | Many _ lo _ => lo
  | Grp _ r' => min_len r'
  end.

Definition plus (p : cclass) : regex := Many p 1 None.
Definition between (p : cclass) (lo hi : nat) : regex := Many p lo (Some hi).
Definition exactly (p : cclass) (n : nat) : regex := Many p n (Some n).

End Re.

(* ================================================================== *)
(** * [datetime] and [timedelta]                                         *)
(* ================================================================== *)

Module Py.

Definition US_PER_SECOND : Z := 1000000.
Definition US_PER_DAY : Z := 86400 * US_PER_SECOND.

(** A [tzinfo] object.  [tz_object] stands for the object itself: two
    values are the same object ([is]) when they carry the same number.
    [tz_utcoffset fields fold] is what the object's [utcoffset(dt)] answers
    for a datetime [dt] with these seven fields (year to microsecond) and
    this [fold]: [None], or the offset in microseconds. *)
Record tzinfo_object : Type := TzInfo {
  tz_object : Z;
  tz_utcoffset : list Z -> bool -> option Z
}.

(** A [datetime.datetime]: [tzinfo] is [None] or a [tzinfo] object, and
    [fold] tells the two readings of a wall-clock time that occurs twice. *)
Record datetime : Type := DateTime {
  year : Z;
  month : Z;
  day : Z;
  hour : Z;
  minute : Z;
  second : Z;
  microsecond : Z;
  tzinfo : option tzinfo_object;
  fold : bool
}.

(** A [datetime.timedelta], always normalised:
    [0 <= seconds < 86400] and [0 <= microseconds < 1000000]. *)
Record timedelta : Type := TimeDelta {
  days : Z;
  seconds : Z;
  microseconds : Z
}.

(** [timedelta(days=d, seconds=s, microseconds=us)] with the constructor's
    normalisation. *)
Definition timedelta_of_us (total : Z) : timedelta :=
  TimeDelta (total / US_PER_DAY)
            ((total mod US_PER_DAY) / US_PER_SECOND)
            (total mod US_PER_SECOND).

Definition timedelta_new (d s us : Z) : timedelta :=
  timedelta_of_us ((d * 86400 + s) * US_PER_SECOND + us).

Definition total_us (t : timedelta) : Z :=
  (days t * 86400 + seconds t) * US_PER_SECOND + microseconds t.

(** [_is_leap], [_days_before_year], [_days_before_month], [_ymd2ord]. *)
Definition is_leap (y : Z) : bool :=
  (y mod 4 =? 0) && (negb (y mod 100 =? 0) || (y mod 400 =? 0)).

Definition days_before_year (y : Z) : Z :=
  let y' := y - 1 in y' * 365 + y' / 4 - y' / 100 + y' / 400.

Definition DAYS_IN_MONTH : list Z :=
  [31; 28; 31; 30; 31; 30; 31; 31; 30; 31; 30; 31].

Definition days_in_month (y m : Z) : Z :=
  if (m =? 2) && is_leap y then 29
  else nth (Z.to_nat (m - 1)) DAYS_IN_MONTH 0.

Definition DAYS_BEFORE_MONTH : list Z :=
  [0; 31; 59; 90; 120; 151; 181; 212; 243; 273; 304; 334].

Definition days_before_month (y m : Z) : Z :=
  nth (Z.to_nat (m - 1)) DAYS_BEFORE_MONTH 0
  + (if (2 <? m) && is_leap y then 1 else 0).

Definition ymd2ord (y m d : Z) : Z :=
  days_before_year y + days_before_month y m + d.

Definition toordinal (a : datetime) : Z :=
  ymd2ord (year a) (month a) (day a).

Definition fields (a : datetime) : list Z :=
  [year a; month a; day a; hour a; minute a; second a; microsecond a].

(** [a.utcoffset()], and [a.replace(fold=not a.fold).utcoffset()]. *)
Definition utcoffset (a : datetime) : option Z :=
  match tzinfo a with
  | Some tz => tz_utcoffset tz (fields a) (fold a)
  | None => None
  end.

Definition utcoffset_flipped (a : datetime) : option Z :=
  match tzinfo a with
  | Some tz => tz_utcoffset tz (fields a) (negb (fold a))
  | None => None
  end.

(** [utcoffset()] raises [ValueError] unless the [tzinfo] object answers
    [None] or an offset strictly between -24 and 24 hours. *)
Definition offset_in_range (o : option Z) : bool :=
  match o with
  | Some off => (- US_PER_DAY <? off) && (off <? US_PER_DAY)
  | None => true
  end.

(** The values the [datetime] constructor accepts, with a [tzinfo] whose
    [utcoffset] does not raise on them. *)
Definition valid_datetime (a : datetime) : bool :=
  (1 <=? year a) && (year a <=? 9999)
  && (1 <=? month a) && (month a <=? 12)
  && (1 <=? day a) && (day a <=? days_in_month (year a) (month a))
  && (0 <=? hour a) && (hour a <? 24)
  && (0 <=? minute a) && (minute a <? 60)
  && (0 <=? second a) && (second a <? 60)
  && (0 <=? microsecond a) && (microsecond a <? 1000000)
  && offset_in_range (utcoffset a) && offset_in_range (utcoffset_flipped a).

(** Tuple comparison, as [_cmp] on the seven fields. *)
Fixpoint cmp_lex (xs ys : list Z) : comparison :=
  match xs, ys with
  | [], [] => Eq
  | [], _ :: _ => Lt
  | _ :: _, [] => Gt
  | x :: xs', y :: ys' =>
      match x ?= y with
      | Eq => cmp_lex xs' ys'
      | c => c
      end
  end.

(** [a.tzinfo is b.tzinfo] *)
Definition same_tzinfo (a b : datetime) : bool :=
  match tzinfo a, tzinfo b with
  | None, None => true
  | Some x, Some y => tz_object x =? tz_object y
  | _, _ => false
  end.

(** [myoff == otoff] on two answers of [utcoffset()]. *)
Definition offsets_equal (myoff otoff : option Z) : bool :=
  match myoff, otoff with
  | None, None => true
  | Some x, Some y => x =? y
  | _, _ => false
  end.

(** Aware: [utcoffset()] is not [None]. *)
Definition is_aware (a : datetime) : bool :=
  match utcoffset a with
  | Some _ => true
  | None => false
  end.

(** Wall-clock microseconds since the start of ordinal day 0. *)
Definition local_us (a : datetime) : Z :=
  (toordinal a * 86400 + hour a * 3600 + minute a * 60 + second a)
  * US_PER_SECOND + microsecond a.

(** [datetime.__sub__] on two datetimes: the difference of the wall
    clocks when both carry the same [tzinfo] object or the same offset,
    [TypeError] on a naive/aware pair, the difference of the instants
    otherwise. *)
Definition sub (a b : datetime) : result timedelta :=
  let base :=
    timedelta_new (toordinal a - toordinal b)
                  ((second a + minute a * 60 + hour a * 3600)
                   - (second b + minute b * 60 + hour b * 3600))
                  (microsecond a - microsecond b) in
  if same_tzinfo a b then Ok base
  else if offsets_equal (utcoffset a) (utcoffset b) then Ok base
  else
    match utcoffset a, utcoffset b with
    | Some myoff, Some otoff =>
        Ok (timedelta_of_us (total_us base + otoff - myoff))
    | _, _ => Raised TypeError
    end.

(** [datetime._cmp(other)], as the ordering operators call it: tuple
    comparison when both carry the same [tzinfo] object or the same
    offset, [TypeError] on a naive/aware pair, the sign of the difference
    otherwise. *)
Definition cmp (a b : datetime) : result comparison :=
  if same_tzinfo a b || offsets_equal (utcoffset a) (utcoffset b)
  then Ok (cmp_lex (fields a) (fields b))
  else
    match utcoffset a, utcoffset b with
    | Some _, Some _ =>
        diff <- sub a b ;;
        Ok (if days diff <? 0 then Lt
            else if total_us diff =? 0 then Eq else Gt)
    | _, _ => Raised TypeError
    end.

(** [a < b] *)
Definition lt (a b : datetime) : result bool :=
  c <- cmp a b ;;
  Ok (match c with Lt => true | _ => false end).

(** [a == b], which is [_cmp(other, allow_mixed=True) == 0]: values of
    one [tzinfo] object are equal when their fields are; otherwise a
    value whose offset depends on [fold] equals nothing, a naive/aware
    pair is unequal (never an error), and the rest compare as in [cmp]. *)
Definition eqb (a b : datetime) : bool :=
  if same_tzinfo a b then
    match cmp_lex (fields a) (fields b) with
    | Eq => true
    | _ => false
    end
  else if negb (offsets_equal (utcoffset a) (utcoffset_flipped a))
          || negb (offsets_equal (utcoffset b) (utcoffset_flipped b))
  then false
  else
    match cmp a b with
    | Ok Eq => true
    | _ => false
    end.

(** [a.date() == b.date()] *)
Definition same_date (a b : datetime) : bool :=
  (year a =? year b) && (month a =? month b) && (day a =? day b).

(** [lst1 == lst2] on lists of datetimes. *)
Fixpoint list_eqb (xs ys : list datetime) : bool :=
  match xs, ys with
  | [], [] => true
  | x :: xs', y :: ys' => eqb x y && list_eqb xs' ys'
  | _, _ => false
  end.

(** [set(lst)] keeps, of several equal elements, the one added first
    (equal datetimes have equal hashes: the hash is taken from the
    instant, or from the fields of a naive value, at [fold=0]);
    [list(set(lst))] is written here in order of first occurrence (the
    order a set is iterated in is unspecified: see
    [extract_dates_set_order]). *)
Definition set_add (seen : list datetime) (x : datetime) : list datetime :=
  if existsb (fun y => eqb y x) seen then seen else seen ++ [x].

Definition list_set (l : list datetime) : list datetime :=
  fold_left set_add l [].

(** [sorted(lst)] / [lst.sort()] ([list_sort_impl] of CPython): it asks
    [<] only and fails with the first comparison that raises.  A list of
    fewer than two elements is returned as it is.  Otherwise [count_run]
    finds the run the list starts with, either ascending ([x1 < x0] false,
    and so on) or strictly descending, in which case it is reversed, and
    [binarysort] inserts every further element into the sorted part at
    the place a binary search gives, after the elements it is not less
    than.  Lists of 64 elements and more are cut into such runs which are
    then merged; the merge is not written out: wherever [<] is a
    consistent order of the elements the outcome is the same (a stable
    sort has one outcome). *)
Fixpoint run_up (prev : datetime) (l : list datetime) : result nat :=
  match l with
  | [] => Ok O
  | x :: l' =>
      b <- lt x prev ;;
      if b then Ok O else n <- run_up x l' ;; Ok (S n)
  end.

Fixpoint run_down (prev : datetime) (l : list datetime) : result nat :=
  match l with
  | [] => Ok O
  | x :: l' =>
      b <- lt x prev ;;
      if b then n <- run_down x l' ;; Ok (S n) else Ok O
  end.

(** [count_run]: the length of the first run, and whether it descends. *)
Definition count_run (l : list datetime) : result (nat * bool) :=
  match l with
  | [] => Ok (O, false)
  | x0 :: l0 =>
      match l0 with
      | [] => Ok (1%nat, false)
      | x1 :: l' =>
          b <- lt x1 x0 ;;
          if b then n <- run_down x1 l' ;; Ok (S (S n), true)
          else n <- run_up x1 l' ;; Ok (S (S n), false)
      end
  end.

(** The binary search of [binarysort] on the slice [seg] of the sorted
    part: the probe is the element at half its length; the answer is the
    number of elements of [seg] that stay before [pivot].  [fuel] bounds
    the number of probes; the length of [seg] is enough. *)
Fixpoint bisect (fuel : nat) (pivot : datetime) (seg : list datetime)
  : result nat :=
  match fuel with
  | O => Ok O
  | S fuel' =>
      let h := Nat.div2 (List.length seg) in
      match skipn h seg with
      | [] => Ok O
      | p :: upper =>
          b <- lt pivot p ;;
          if b then bisect fuel' pivot (firstn h seg)
          else n <- bisect fuel' pivot upper ;; Ok (h + 1 + n)%nat
      end
  end.

Definition binary_insert (a : list datetime) (pivot : datetime)
  : result (list datetime) :=
  l <- bisect (List.length a) pivot a ;;
  Ok (firstn l a ++ pivot :: skipn l a)%list.

Fixpoint binarysort (a rest : list datetime) : result (list datetime) :=
  match rest with
  | [] => Ok a
  | pivot :: rest' => a' <- binary_insert a pivot ;; binarysort a' rest'
  end.

Definition sorted (l : list datetime) : result (list datetime) :=
  if (List.length l <? 2)%nat then Ok l
  else
    run <- count_run l ;;
    let (n, descending) := run in
    binarysort (if descending then rev (firstn n l) else firstn n l)
               (skipn n l).

(** [strftime] for the three numeric layouts of [format_date]. *)
Definition digit (n : Z) : ascii := ascii_of_nat (48 + Z.to_nat (n mod 10)).

Definition dec2 (n : Z) : string :=
  String (digit (n / 10)) (String (digit n) EmptyString).

Definition dec4 (n : Z) : string :=
  String (digit (n / 1000)) (String (digit (n / 100)) (dec2 n)).

End Py.

(* ================================================================== *)
(** * [class DateParser] ([src/date_parser.py])                          *)
(* ================================================================== *)

Module DateParser.
Import Re.

Definition MONTHS : regex :=
  alt_all (lit "January")
    (map lit ["February"; "March"; "April"; "May"; "June"; "July";
              "August"; "September"; "October"; "November"; "December"]).

Definition SEP : regex := Cls (Chars "/-").

(** [DATE_PATTERNS] *)
Definition DATE_PATTERNS : list regex :=
  [ (* \b(\d{1,2})[/-](\d{1,2})[/-](\d{4})\b *)
    cat_all [WordB; Grp 1 (between Digit 1 2); SEP;
             Grp 2 (between Digit 1 2); SEP; Grp 3 (exactly Digit 4); WordB];
    (* \b(\d{1,2})\s+(January|...|December)\s+(\d{4})\b *)
    cat_all [WordB; Grp 1 (between Digit 1 2); plus Space;
             Grp 2 MONTHS; plus Space; Grp 3 (exactly Digit 4); WordB];
    (* \b(January|...|December)\s+(\d{1,2}),?\s+(\d{4})\b *)
    cat_all [WordB; Grp 1 MONTHS; plus Space; Grp 2 (between Digit 1 2);
             Opt (Chr ","); plus Space; Grp 3 (exactly Digit 4); WordB];
    (* \b(\d{1,2})[/-](\d{1,2})[/-](\d{2})\b *)
    cat_all [WordB; Grp 1 (between Digit 1 2); SEP;
             Grp 2 (between Digit 1 2); SEP; Grp 3 (exactly Digit 2); WordB] ].

Definition NL : string := String "010"%char EmptyString.

(** The common tail [[:\s]+([^\n]{5,30})] of the context patterns. *)
Definition TAIL : regex :=
  Cat (plus (Union (Chars ":") Space))
      (Grp 1 (between (Neg (Chars NL)) 5 30)).

(** [CONTEXT_PATTERNS] *)
Definition CONTEXT_PATTERNS : list (string * list regex) :=
  [ ("incorporation",
      [ Cat (lit "date of incorporation") TAIL;
        Cat (lit "incorporated on") TAIL;
        Cat (lit "incorporation date") TAIL ]);
    ("name_change",
      [ Cat (lit "date of change") TAIL;
        cat_all [lit "changed "; Opt (lit "its name "); lit "on"; TAIL];
        cat_all [lit "effective "; Alt (lit "date") (lit "from"); TAIL] ]);
    ("registration",
      [ Cat (lit "date of registration") TAIL;
        Cat (lit "registered on") TAIL ]);
    ("filing",
      [ Cat (lit "filed on") TAIL;
        Cat (lit "filing date") TAIL ]) ].

(** [CONTEXT_PATTERNS.get(context)] *)
Fixpoint lookup (key : string) (d : list (string * list regex))
  : option (list regex) :=
  match d with
  | [] => None
  | (k, v) :: d' => if String.eqb key k then Some v else lookup key d'
  end.

(** from\s+([^\s]+(?:\s+\w+\s+\d{4})?)\s+to\s+([^\s]+(?:\s+\w+\s+\d{4})?) *)
Definition RANGE_END : regex :=
  Cat (plus (Neg Space))
      (Opt (cat_all [plus Space; plus Word; plus Space; exactly Digit 4])).

Definition RANGE_PATTERN : regex :=
  cat_all [lit "from"; plus Space; Grp 1 RANGE_END; plus Space;
           lit "to"; plus Space; Grp 2 RANGE_END].

(** What one call of [dateparser.parse] can do. *)
Inductive parsed : Type :=
| ParserRaised
| NoDate
| Parsed (d : Py.datetime).

Record date_range : Type := DateRange {
  start_date : Py.datetime;
  end_date : Py.datetime;
  range_text : string
}.

Record mismatch : Type := Mismatch {
  expected : Py.datetime;
  found : Py.datetime;
  difference_days : Z;
  expected_str : string;
  found_str : string
}.

(** [compare_dates] *)
Definition compare_dates (date1 date2 : Py.datetime) (tolerance_days : Z)
  : result bool :=
  if tolerance_days =? 0 then Ok (Py.same_date date1 date2)
  else
    d <- Py.sub date1 date2 ;;
    Ok (Z.abs (Py.days d) <=? tolerance_days).

(** [format_date(date)] with its default ['uk'] layout, [%d/%m/%Y], the
    only one [find_date_mismatches] asks for (years of four digits). *)
Definition format_date (date : Py.datetime) : string :=
  Py.dec2 (Py.day date) ++ "/" ++ Py.dec2 (Py.month date) ++ "/"
  ++ Py.dec4 (Py.year date).

(** [validate_date_sequence] *)
Definition validate_date_sequence (dates : list Py.datetime) : result bool :=
  if (List.length dates <=? 1)%nat then Ok true
  else
    sorted_dates <- Py.sorted dates ;;
    Ok (Py.list_eqb dates sorted_dates).

(** [find_date_mismatches]: the loop body, then the loop. *)
Definition mismatch_step (expected_date : Py.datetime) (tolerance_days : Z)
    (mismatches : list mismatch) (found_date : Py.datetime)
  : result (list mismatch) :=
  ok <- compare_dates expected_date found_date tolerance_days ;;
  if negb ok then
    d <- Py.sub found_date expected_date ;;
    Ok (mismatches ++
        [Mismatch expected_date found_date (Py.days d)
                  (format_date expected_date) (format_date found_date)])%list
  else Ok mismatches.

Fixpoint for_each {A B : Type} (body : B -> A -> result B)
                  (acc : B) (l : list A) : result B :=
  match l with
  | [] => Ok acc
  | x :: l' => acc' <- body acc x ;; for_each body acc' l'
  end.

Definition find_date_mismatches (expected_date : Py.datetime)
    (found_dates : list Py.datetime) (tolerance_days : Z)
  : result (list mismatch) :=
  for_each (mismatch_step expected_date tolerance_days) [] found_dates.

Section WithParser.

(** [dateparser.parse(s, settings={STRICT_PARSING: False,
    PREFER_DAY_OF_MONTH: 'first', DATE_ORDER: 'DMY'})] *)
Variable dateparser_parse : string -> parsed.

(** [parse_date] *)
Definition parse_date (date_string : string) : option Py.datetime :=
  match dateparser_parse date_string with
  | Parsed d =>
      if (1800 <=? Py.year d) && (Py.year d <=? 2100) then Some d else None
  | NoDate => None
  | ParserRaised => None
  end.

(** The inner loops: parse every candidate, keep the successes. *)
Fixpoint keep_parsed (candidates : list string) : list Py.datetime :=
  match candidates with
  | [] => []
  | s :: rest =>
      match parse_date s with
      | Some d => d :: keep_parsed rest
      | None => keep_parsed rest
      end
  end.

(** The strings handed to [parse_date] by [_extract_with_context]. *)
Definition context_candidates (text : string) (patterns : list regex)
  : list string :=
  flat_map (fun pattern =>
              map (fun m => Text.strip (group m 1)) (finditer pattern text))
           patterns.

(** The strings handed to [parse_date] by [_extract_all_dates]. *)
Definition generic_candidates (text : string) : list string :=
  flat_map (fun pattern => map (fun m => group m 0) (finditer pattern text))
           DATE_PATTERNS.

(** [_extract_with_context] *)
Definition _extract_with_context (text context : string)
  : list Py.datetime :=
  let patterns := match lookup context CONTEXT_PATTERNS with
                  | Some ps => ps
                  | None => []
                  end in
  keep_parsed (context_candidates text patterns).

(** [_extract_all_dates] *)
Definition _extract_all_dates (text : string) : list Py.datetime :=
  keep_parsed (generic_candidates text).

(** [if context and context in self.CONTEXT_PATTERNS] *)
Definition known_context (context : option string) : option string :=
  match context with
  | Some c =>
      if negb (String.eqb c "") then
        match lookup c CONTEXT_PATTERNS with
        | Some _ => Some c
        | None => None
        end
      else None
  | None => None
  end.

(** The list [dates] of [extract_dates] before [set] and [sort]. *)
Definition gathered (text : string) (context : option string)
  : list Py.datetime :=
  (match known_context context with
   | Some c => _extract_with_context text c
   | None => []
   end ++ _extract_all_dates text)%list.

(** [extract_dates] *)
Definition extract_dates (text : string) (context : option string)
  : result (list Py.datetime) :=
  Py.sorted (Py.list_set (gathered text context)).

(** [extract_date_ranges] *)
Fixpoint keep_ranges (ms : list rematch) : list date_range :=
  match ms with
  | [] => []
  | m :: rest =>
      match parse_date (Text.strip (group m 1)),
            parse_date (Text.strip (group m 2)) with
      | Some s, Some e => DateRange s e (group m 0) :: keep_ranges rest
      | _, _ => keep_ranges rest
      end
  end.

Definition extract_date_ranges (text : string) : list date_range :=
  keep_ranges (finditer RANGE_PATTERN text).

(** [extract_incorporation_date] *)
Definition extract_incorporation_date (text : string)
  : option Py.datetime :=
  hd_error (_extract_with_context text "incorporation").

(** [extract_name_change_date] *)
Definition extract_name_change_date (text : string)
  : option Py.datetime :=
  hd_error (_extract_with_context text "name_change").

End WithParser.

End DateParser.

(* ================================================================== *)
(** * [scan_companies] ([src/app.py])                                    *)
(* ================================================================== *)

Module App.

(** The JSON body of [POST /api/scan], with the defaults of [data.get]
    already applied.  A key that is absent or empty is [None]. *)
Record scan_request : Type := ScanRequest {
  scan_mode : string;
  company_numbers : list string;
  scan_network : bool;
  network_depth : Z;
  active_directors_only : bool;
  use_ai : bool;
  use_github_cache : bool;
  ch_api_key : option string;
  xai_api_key : option string
}.

(** Calls that leave the handler, in the order they are made. *)
Inductive event : Type :=
| CheckCompanyExists (company_number folder : string)
| GetCompanyData (company_number folder : string)
| ProcessCompanies (numbers : list string)
| ExportMismatches (company_number : string)
| PushCompanyData (company_number folder : string)
| Cleanup.

(** [not value] for an optional string. *)
Definition missing (v : option string) : bool :=
  match v with
  | Some s => String.eqb s ""
  | None => true
  end.

(** [num.zfill(8)], the normal form of a company number (line 172). *)
Definition normalize (num : string) : string := Text.zfill 8 num.

(** ["Only Active Directors" if active_directors_only else "Directors"] *)
Definition folder_of (req : scan_request) : string :=
  if active_directors_only req then "Only Active Directors" else "Directors".

Definition is_cache_event (e : event) : bool :=
  match e with
  | CheckCompanyExists _ _ | GetCompanyData _ _ => true
  | _ => false
  end.

(** The company numbers an event carries. *)
Definition numbers_of (e : event) : list string :=
  match e with
  | CheckCompanyExists n _ | GetCompanyData n _ => [n]
  | ProcessCompanies ns => ns
  | ExportMismatches n | PushCompanyData n _ => [n]
  | Cleanup => []
  end.

(** The request passes the two credential checks of lines 55-59. *)
Definition keys_present (req : scan_request) : Prop :=
  missing (ch_api_key req) = false
  /\ (use_ai req = true -> missing (xai_api_key req) = false).

Section Handler.

(** The result dictionaries are opaque here; [has_results] is the test
    [results.get('results')] together with its first entry being there. *)
Variable scan_data : Type.
Variable summary : Type.
Variable has_results : scan_data -> bool.

(** Collaborators whose code is outside this development.  Each call may
    raise; [get_company_data] answers [None] for a falsy value. *)
Variable filtered_search : scan_request -> result (list string).
Variable check_company_exists : string -> string -> result bool.
Variable get_company_data : string -> string -> result (option scan_data).
Variable process_companies :
  list string -> bool -> Z -> bool -> bool -> result scan_data.
Variable get_processing_summary : scan_data -> result summary.

Inductive response : Type :=
| BadRequest (message : string)                       (* status 400 *)
| ServerError (e : pyexn)                             (* status 500 *)
| FromCache (company_number folder : string) (data : scan_data)
| Scanned (s : summary) (single : option (string * string)).

(** Lines 64-172: the list of company numbers the scan works on. *)
Definition resolve_numbers (req : scan_request) : result (list string) :=
  if String.eqb (scan_mode req) "filtered" then filtered_search req
  else Ok (map normalize (company_numbers req)).

(** Lines 177-215.  Answers the events made, and either an exception, a
    cached answer, or the value [folder_suffix] is left with. *)
Definition cache_lookup (req : scan_request) (numbers : list string)
  : list event * result (option scan_data * option string) :=
  match numbers with
  | [company_number] =>
      if use_github_cache req then
        let folder_suffix := folder_of req in
        match check_company_exists company_number folder_suffix with
        | Raised e =>
            ([CheckCompanyExists company_number folder_suffix], Raised e)
        | Ok false =>
            ([CheckCompanyExists company_number folder_suffix],
             Ok (None, Some folder_suffix))
        | Ok true =>
            let tr := [CheckCompanyExists company_number folder_suffix;
                       GetCompanyData company_number folder_suffix] in
            match get_company_data company_number folder_suffix with
            | Raised e => (tr, Raised e)
            | Ok cached => (tr, Ok (cached, Some folder_suffix))
            end
        end
      else ([], Ok (None, None))
  | _ => ([], Ok (None, None))
  end.

(** Lines 240-353: the steps after processing, each inside a [try] of its
    own, so that only the attempt is recorded.  The CSV export and the
    push are for a single company; the push first reads [folder_suffix]
    and is given up (the [UnboundLocalError] is caught) when the cache
    branch did not bind it. *)
Definition single_of (numbers : list string) : option string :=
  match numbers with
  | [n] => Some n
  | _ => None
  end.

Definition post_events (numbers : list string)
    (folder_suffix : option string) (results : scan_data) : list event :=
  (match single_of numbers with
   | Some n => [ExportMismatches n]
   | None => []
   end
   ++ match single_of numbers, folder_suffix with
      | Some n, Some f =>
          if has_results results then [PushCompanyData n f] else []
      | _, _ => []
      end
   ++ [Cleanup])%list.

(** Lines 217-370.  [folder_suffix] is a local of the cache branch:
    reading it at line 368 when that branch did not run raises
    [UnboundLocalError], which the outer [except] answers. *)
Definition fresh_scan (req : scan_request) (numbers : list string)
    (folder_suffix : option string) : list event * response :=
  match process_companies numbers (scan_network req) (network_depth req)
                          (active_directors_only req) (use_ai req) with
  | Raised e => ([ProcessCompanies numbers], ServerError e)
  | Ok results =>
      (ProcessCompanies numbers :: post_events numbers folder_suffix results,
       match get_processing_summary results with
       | Raised e => ServerError e
       | Ok s =>
           match single_of numbers, folder_suffix with
           | Some n, Some f => Scanned s (Some (n, f))
           | Some _, None => ServerError UnboundLocalError
           | None, _ => Scanned s None
           end
       end)
  end.

(** [scan_companies]: the events made and the response returned.  The
    body runs inside [try ... except Exception: return 500]. *)
Definition scan_companies (req : scan_request) : list event * response :=
  if missing (ch_api_key req) then
    ([], BadRequest "Companies House API key is required. Please provide your own API key.")
  else if use_ai req && missing (xai_api_key req) then
    ([], BadRequest "XAI API key is required when AI extraction is enabled. Please provide your own API key.")
  else
    match resolve_numbers req with
    | Raised e => ([], ServerError e)
    | Ok [] => ([], BadRequest "No company numbers provided")
    | Ok numbers =>
        match cache_lookup req numbers with
        | (tr, Raised e) => (tr, ServerError e)
        | (tr, Ok (Some cached, folder_suffix)) =>
            (tr, FromCache (hd "" numbers) (folder_of req) cached)
        | (tr, Ok (None, folder_suffix)) =>
            let '(tr', resp) := fresh_scan req numbers folder_suffix in
            ((tr ++ tr')%list, resp)
        end
    end.

(** The calls a scan makes. *)
Definition trace_of (req : scan_request) : list event :=
  fst (scan_companies req).

End Handler.

Arguments BadRequest {scan_data summary} message.
Arguments ServerError {scan_data summary} e.
Arguments FromCache {scan_data summary} company_number folder data.
Arguments Scanned {scan_data summary} s single.

(** Modelled from the spec: the cache store behind [GitHubStorage]
    ([core/github_storage.py] is not part of the sources).  Section 4.2:
    [exists(company_number, fingerprint) -> bool],
    [get(company_number, fingerprint) -> ScanResult | absent]; "a failed
    read (store unreachable) must degrade to a cache miss, never to an
    error that aborts the scan".  Both reads are therefore total: a read
    that fails answers [false], respectively nothing. *)
Record cache_store (scan_data : Type) : Type := CacheStore {
  cs_exists : string -> string -> bool;
  cs_get : string -> string -> option scan_data
}.

Definition store_exists {scan_data : Type} (st : cache_store scan_data)
    (company_number folder : string) : result bool :=
  Ok (cs_exists st company_number folder).

Definition store_get {scan_data : Type} (st : cache_store scan_data)
    (company_number folder : string) : result (option scan_data) :=
  Ok (cs_get st company_number folder).

(** Modelled from the spec: the batch processor ([core/batch_processor.py]
    is not part of the sources).  Section 4.6: "a single company's
    processing failure is captured as a per-company error result and does
    not abort the batch; the orchestrator always returns partial
    results".  [run] and [summarise] are therefore total. *)
Record batch_processor (scan_data summary : Type) : Type := BatchProcessor {
  run : list string -> bool -> Z -> bool -> bool -> scan_data;
  summarise : scan_data -> summary
}.

Definition processor_run {scan_data summary : Type}
    (p : batch_processor scan_data summary)
    (numbers : list string) (net : bool) (depth : Z) (active ai : bool)
  : result scan_data :=
  Ok (run p numbers net depth active ai).

Definition processor_summary {scan_data summary : Type}
    (p : batch_processor scan_data summary) (r : scan_data)
  : result summary :=
  Ok (summarise p r).

End App.

(* ================================================================== *)
(** * The filtered search of [scan_companies] ([src/app.py], 64-169)     *)
(* ================================================================== *)

Module Filtered.

(** A JSON string or whole number, as the request body carries them. *)
Inductive scalar : Type :=
| SStr (s : string)
| SInt (n : Z).

(** Truth value of [filters.get(key)]. *)
Definition truthy (v : option scalar) : bool :=
  match v with
  | Some (SStr s) => negb (String.eqb s "")
  | Some (SInt n) => negb (n =? 0)
  | None => false
  end.

Definition nonempty (s : string) : bool := negb (String.eqb s "").

(** The [filters] object; a key that is absent holds its [get] default. *)
Record filters : Type := Filters {
  alpha_start : string;
  alpha_end : string;
  status : string;
  limit : option scalar;
  year_from : option scalar;
  year_to : option scalar;
  location : string;
  sic_code : string;
  company_types : list string;
  dissolved_from : string;
  dissolved_to : string
}.

Record address : Type := Address {
  locality : string;
  region : string;
  postal_code : string;
  address_line_1 : string;
  country : string
}.

(** One entry of a search answer, read through [company.get]. *)
Record company : Type := Company {
  company_number : option string;
  date_of_creation : string;
  company_address : address;
  sic_codes : list string;
  company_type : string;
  date_of_cessation : string
}.

(** A call of [api_client.search_companies]. *)
Record query : Type := Query {
  q_letter : option string;
  q_status : option string
}.

(** [str.upper] on ASCII. *)
Definition upper_char (c : ascii) : ascii :=
  if Text.is_lower c then ascii_of_nat (Text.code c - 32) else c.

Fixpoint upper (s : string) : string :=
  match s with
  | EmptyString => EmptyString
  | String c s' => String (upper_char c) (upper s')
  end.

(** [needle in haystack] on strings. *)
Fixpoint contains (needle haystack : string) : bool :=
  String.prefix needle haystack
  || match haystack with
     | EmptyString => false
     | String _ rest => contains needle rest
     end.

(** [s.split(sep)] for a one-character separator. *)
Fixpoint split (sep : ascii) (s : string) : list string :=
  match s with
  | EmptyString => [EmptyString]
  | String c s' =>
      if Ascii.eqb c sep then EmptyString :: split sep s'
      else match split sep s' with
           | piece :: pieces => String c piece :: pieces
           | [] => [String c EmptyString]
           end
  end.

(** [ord(s)]: the code of a one-character string, [TypeError] otherwise. *)
Definition ord (s : string) : result nat :=
  match s with
  | String c EmptyString => Ok (Text.code c)
  | _ => Raised TypeError
  end.

(** [lst[:n]] *)
Definition take (n : Z) (l : list company) : list company :=
  if 0 <=? n then firstn (Z.to_nat n) l
  else firstn (List.length l - Z.to_nat (- n)) l.

(** [a <= b <= c] on [datetime.date] values. *)
Definition date_le (a b : Z * Z * Z) : bool :=
  let '(y1, m1, d1) := a in
  let '(y2, m2, d2) := b in
  match Py.cmp_lex [y1; m1; d1] [y2; m2; d2] with
  | Gt => false
  | _ => true
  end.

(** [string in list_of_strings] *)
Definition mem (s : string) (l : list string) : bool :=
  existsb (String.eqb s) l.

(** [' '.join([...])] of the five address fields. *)
Definition address_line (a : address) : string :=
  locality a ++ " " ++ region a ++ " " ++ postal_code a ++ " "
  ++ address_line_1 a ++ " " ++ country a.

Section Search.

(** [int(s)] on a string and [datetime.strptime(s, '%Y-%m-%d').date()]
    belong to Python's library; [search_companies] to the registry
    client.  Any of them may raise. *)
Variable int_of_string : string -> result Z.
Variable strptime_date : string -> result (Z * Z * Z).
Variable search_companies :
  option string -> option string -> result (list company).

(** [int(v)] *)
Definition py_int (v : scalar) : result Z :=
  match v with
  | SInt n => Ok n
  | SStr s => int_of_string s
  end.

(** [status or None] *)
Definition status_of (f : filters) : option string :=
  if nonempty (status f) then Some (status f) else None.

(** Lines 81-86: one query per letter, until the letters run out or the
    limit is reached. *)
Fixpoint alpha_loop (letters : nat) (letter_ord : nat)
    (company_status : option string) (lim : Z)
    (queries : list query) (search_results : list company)
  : list query * result (list company) :=
  match letters with
  | O => (queries, Ok search_results)
  | S letters' =>
      let letter := String (ascii_of_nat letter_ord) EmptyString in
      let asked := (queries ++ [Query (Some letter) company_status])%list in
      match search_companies (Some letter) company_status with
      | Raised e => (asked, Raised e)
      | Ok results =>
          let search_results' := (search_results ++ results)%list in
          if lim <=? Z.of_nat (List.length search_results')
          then (asked, Ok search_results')
          else alpha_loop letters' (S letter_ord) company_status lim
                          asked search_results'
      end
  end.

(** Lines 70-89: the search itself. *)
Definition search (f : filters) (lim : Z)
  : list query * result (list company) :=
  if nonempty (alpha_start f) && nonempty (alpha_end f) then
    match ord (upper (alpha_start f)), ord (upper (alpha_end f)) with
    | Ok start_ord, Ok end_ord =>
        alpha_loop (Nat.min (end_ord + 1) (start_ord + 5) - start_ord)
                   start_ord (status_of f) lim [] []
    | Raised e, _ => ([], Raised e)
    | _, Raised e => ([], Raised e)
    end
  else
    ([Query None (status_of f)],
     search_companies None (status_of f)).

(** Lines 99-108: the test of the year filter; whatever is raised inside
    the [try] drops the company. *)
Definition year_ok (f : filters) (c : company) : bool :=
  nonempty (date_of_creation c)
  && match
       (year <- int_of_string (hd EmptyString
                                  (split "-" (date_of_creation c))) ;;
        year_from_int <- (if truthy (year_from f)
                          then match year_from f with
                               | Some v => py_int v
                               | None => Ok 0
                               end
                          else Ok 0) ;;
        year_to_int <- (if truthy (year_to f)
                        then match year_to f with
                             | Some v => py_int v
                             | None => Ok 9999
                             end
                        else Ok 9999) ;;
        Ok ((year_from_int <=? year) && (year <=? year_to_int)))
     with
     | Ok b => b
     | Raised _ => false
     end.

(** Lines 112-126. *)
Definition location_of (f : filters) : string :=
  upper (Text.strip (location f)).

Definition location_ok (f : filters) (c : company) : bool :=
  contains (location_of f) (upper (address_line (company_address c))).

(** Lines 129-137. *)
Definition sic_list (f : filters) : list string :=
  map Text.strip (split "," (Text.strip (sic_code f))).

Definition sic_ok (f : filters) (c : company) : bool :=
  existsb (fun sic => mem sic (sic_codes c)) (sic_list f).

(** Lines 140-147. *)
Definition type_ok (f : filters) (c : company) : bool :=
  mem (company_type c) (company_types f).

(** Lines 155-165. *)
Definition dissolved_ok (f : filters) (c : company) : bool :=
  nonempty (date_of_cessation c)
  && match
       (dissolved_date <- strptime_date (date_of_cessation c) ;;
        from_date <- (if nonempty (dissolved_from f)
                      then strptime_date (dissolved_from f)
                      else Ok (1850, 1, 1)) ;;
        to_date <- (if nonempty (dissolved_to f)
                    then strptime_date (dissolved_to f)
                    else Ok (2999, 12, 31)) ;;
        Ok (date_le from_date dissolved_date
            && date_le dissolved_date to_date))
     with
     | Ok b => b
     | Raised _ => false
     end.

Definition when (active : bool) (test : company -> bool)
    (l : list company) : list company :=
  if active then filter test l else l.

(** Lines 93-166: the client-side filters, in order. *)
Definition apply_filters (f : filters) (l : list company) : list company :=
  when (nonempty (dissolved_from f) || nonempty (dissolved_to f))
       (dissolved_ok f)
    (when (match company_types f with [] => false | _ => true end) (type_ok f)
       (when (nonempty (Text.strip (sic_code f))) (sic_ok f)
          (when (nonempty (location_of f)) (location_ok f)
             (when (truthy (year_from f) || truthy (year_to f)) (year_ok f)
                l)))).

(** Line 169. *)
Fixpoint numbers_in (l : list company) : list string :=
  match l with
  | [] => []
  | c :: l' =>
      match company_number c with
      | Some n => if nonempty n then n :: numbers_in l' else numbers_in l'
      | None => numbers_in l'
      end
  end.

(** [int(filters.get('limit', 100))] *)
Definition limit_of (f : filters) : result Z :=
  match limit f with
  | Some v => py_int v
  | None => Ok 100
  end.

(** Lines 64-169: the queries made and the company numbers found. *)
Definition filtered_numbers (f : filters)
  : list query * result (list string) :=
  match limit_of f with
  | Raised e => ([], Raised e)
  | Ok lim =>
      match search f lim with
      | (asked, Raised e) => (asked, Raised e)
      | (asked, Ok search_results) =>
          (asked, Ok (numbers_in (take lim (apply_filters f search_results))))
      end
  end.

(** The query asked for the [i]-th letter from [start_ord]. *)
Definition letter_query (company_status : option string) (start_ord i : nat)
  : query :=
  Query (Some (String (ascii_of_nat (start_ord + i)) EmptyString))
        company_status.

(** The company was in the answer to one of the queries [asked]. *)
Definition answered (asked : list query) (c : company) : Prop :=
  exists q results,
    In q asked
    /\ search_companies (q_letter q) (q_status q) = Ok results
    /\ In c results.

(** The same, as the [filtered_search] of the handler. *)
Definition filtered_search (f : filters) (_ : App.scan_request)
  : result (list string) :=
  snd (filtered_numbers f).

End Search.

(** A small registry, an [int] that reads two years, and a filter set,
    for running the search on an example. *)
Definition sample_company (number date : string) : company :=
  Company (Some number) date (Address "" "" "" "" "") [] "ltd" "".

Definition sample_registry (letter company_status : option string)
  : result (list company) :=
  match letter with
  | Some "A" => Ok [sample_company "1234" "1999-05-10";
                    sample_company "" "2001-01-01"]
  | Some "B" => Ok [sample_company "5678" "2005-03-01"]
  | _ => Ok []
  end.

Definition sample_int (s : string) : result Z :=
  if String.eqb s "1999" then Ok 1999
  else if String.eqb s "2005" then Ok 2005
  else Raised (OtherError "ValueError").

Definition sample_strptime (s : string) : result (Z * Z * Z) :=
  Raised (OtherError "ValueError").

Definition sample_filters : filters :=
  Filters "a" "b" "" None (Some (SInt 2000)) None "" "" [] "" "".

End Filtered.

(* ================================================================== *)
(** * Cleanup of old exports ([src/cleanup.py])                          *)
(* ================================================================== *)

Module Cleanup.

(** What [exports_dir.glob('**/*')] lists.  [is_file] is the answer of
    [file_path.is_file()]; [mtime] is
    [datetime.fromtimestamp(file_path.stat().st_mtime)] and, below, [now]
    is [datetime.now()], both naive local times written in microseconds;
    [locked] marks an entry whose [unlink()] raises. *)
Record entry : Type := Entry {
  path : string;
  is_file : bool;
  mtime : Z;
  locked : bool
}.

(** A directory that does not exist is [None]. *)
Definition directory : Type := option (list entry).

Definition US_PER_HOUR : Z := 3600 * Py.US_PER_SECOND.

(** The loop of [cleanup_exports]: what is left, and [removed_count]. *)
Fixpoint sweep_exports (cutoff_time : Z) (listing : list entry)
  : list entry * Z :=
  match listing with
  | [] => ([], 0)
  | e :: rest =>
      let '(kept, removed_count) := sweep_exports cutoff_time rest in
      if is_file e && (mtime e <? cutoff_time) then
        if negb (locked e) then (kept, removed_count + 1)
        else (e :: kept, removed_count)
      else (e :: kept, removed_count)
  end.

(** [cleanup_exports(max_age_hours)]: the directory afterwards and the
    value returned ([None] when the directory is missing). *)
Definition cleanup_exports (exports_dir : directory) (now max_age_hours : Z)
  : directory * option Z :=
  match exports_dir with
  | None => (None, None)
  | Some listing =>
      let cutoff_time := now - max_age_hours * US_PER_HOUR in
      let '(kept, removed_count) := sweep_exports cutoff_time listing in
      (Some kept, Some removed_count)
  end.

(** The entry is a file, older than [cutoff_time], that [unlink] removes. *)
Definition swept (cutoff_time : Z) (e : entry) : bool :=
  is_file e && (mtime e <? cutoff_time) && negb (locked e).

(** A directory for examples: a fresh report, an old one, an old one in
    use, and a folder. *)
Definition SAMPLE_DIR : list entry :=
  [ Entry "exports/new.csv" true 9000000000 false;
    Entry "exports/old.csv" true 1000000000 false;
    Entry "exports/busy.pdf" true 1000000000 true;
    Entry "exports/2020" false 1000000000 false ].

End Cleanup.

(* ================================================================== *)
(** * Vocabulary of the statements                                       *)
(* ================================================================== *)

Module Spec.
Import Py.

Definition offset_us (a : datetime) : Z :=
  match utcoffset a with
  | Some off => off
  | None => 0
  end.

(** The point in time a datetime denotes, in microseconds: its wall clock
    less its UTC offset (a naive value is read at offset 0). *)
Definition instant (a : datetime) : Z := local_us a - offset_us a.

(** Every element is a value the [datetime] constructor can build. *)
Definition all_valid (l : list datetime) : Prop :=
  Forall (fun a => valid_datetime a = true) l.

(** All naive, or all aware. *)
Definition uniform (l : list datetime) : Prop :=
  forall a b, In a l -> In b l -> is_aware a = is_aware b.

(** Two values that carry the same [tzinfo] object also carry the same
    UTC offset: always so for naive values and for a zone of fixed offset,
    not so for two values of one zone on either side of a clock change. *)
Definition aligned (a b : datetime) : Prop :=
  same_tzinfo a b = true -> utcoffset a = utcoffset b.

Definition settled (l : list datetime) : Prop :=
  forall a b, In a l -> In b l -> aligned a b.

(** The UTC offset of the value does not depend on its [fold]. *)
Definition unambiguous (a : datetime) : Prop :=
  utcoffset_flipped a = utcoffset a.

(** [R] holds between each element and the next. *)
Fixpoint chain (R : datetime -> datetime -> Prop) (l : list datetime)
  : Prop :=
  match l with
  | [] => True
  | a :: l' =>
      match l' with
      | [] => True
      | b :: _ => R a b /\ chain R l'
      end
  end.

(** Order in time, between two naive or two aware values. *)
Definition inst_le (a b : datetime) : Prop := instant a <= instant b.
Definition inst_lt (a b : datetime) : Prop := instant a < instant b.

Definition not_after (a b : datetime) : Prop :=
  is_aware a = is_aware b /\ instant a <= instant b.

Definition before (a b : datetime) : Prop :=
  is_aware a = is_aware b /\ instant a < instant b.

(** Sorted by instant. *)
Definition ordered (l : list datetime) : Prop := chain inst_le l.

(** [<] between any two elements is the order of their instants. *)
Definition tame (l : list datetime) : Prop :=
  forall a b, In a l -> In b l -> lt a b = Ok (instant a <? instant b).

(** Every element is of the kind (naive or aware) of [x]. *)
Definition kind_of (x : datetime) (l : list datetime) : Prop :=
  forall y, In y l -> is_aware y = is_aware x.

(** Each element is at or before the next in time. *)
Definition non_decreasing (l : list datetime) : Prop := chain not_after l.

(** Each element is before the next: sorted ascending, no two equal. *)
Definition ascending (l : list datetime) : Prop := chain before l.

(** No element is [==] to a later one. *)
Fixpoint distinct (l : list datetime) : Prop :=
  match l with
  | [] => True
  | a :: l' => Forall (fun b => eqb a b = false) l' /\ distinct l'
  end.

(** The year test of [parse_date]. *)
Definition plausible (d : datetime) : Prop := 1800 <= year d <= 2100.

(** A naive datetime ([tzinfo] is [None]), at a time of day and at
    midnight. *)
Definition naive (y m d hh mm ss : Z) : datetime :=
  DateTime y m d hh mm ss 0 None false.

Definition midnight (y m d : Z) : datetime := naive y m d 0 0 0.

(** A zone of fixed offset, [datetime.timezone(timedelta(seconds=off))];
    one object per offset. *)
Definition fixed_zone (off : Z) : tzinfo_object :=
  TzInfo off (fun _ _ => Some (off * US_PER_SECOND)).

Definition aware (y m d hh mm ss off : Z) : datetime :=
  DateTime y m d hh mm ss 0 (Some (fixed_zone off)) false.

(** A zone that leaves summer time on 25 October 2020, as
    [ZoneInfo("Europe/London")] does: UTC+1 until the wall clock first
    shows 02:00 that day, when it is put back to 01:00, and UTC after.
    The hour from 01:00 to 02:00 occurs twice; [fold] tells which. *)
Definition LONDON : tzinfo_object :=
  TzInfo 1000000
    (fun fields fold =>
       match cmp_lex fields [2020; 10; 25; 1; 0; 0; 0],
             cmp_lex fields [2020; 10; 25; 2; 0; 0; 0] with
       | Lt, _ => Some (3600 * US_PER_SECOND)
       | _, Lt => if fold then Some 0 else Some (3600 * US_PER_SECOND)
       | _, _ => Some 0
       end).

Definition london (y m d hh mm ss : Z) (fold : bool) : datetime :=
  DateTime y m d hh mm ss 0 (Some LONDON) fold.

(** The number of calendar days from [a] to [b], signed, and between the
    two, absolute. *)
Definition day_difference (b a : datetime) : Z := toordinal b - toordinal a.

Definition days_apart (a b : datetime) : Z := Z.abs (day_difference a b).

(** "Does not match within the tolerance": the two dates are more than
    [tolerance_days] days apart (with tolerance 0: they are not the same
    day). *)
Definition outside_tolerance (expected_date : datetime) (tolerance_days : Z)
    (found_date : datetime) : bool :=
  tolerance_days <? days_apart expected_date found_date.

(** What [find_date_mismatches] asks of a found date: [compare_dates]
    answers [False]. *)
Definition rejected (expected_date : datetime) (tolerance_days : Z)
    (found_date : datetime) : bool :=
  match DateParser.compare_dates expected_date found_date tolerance_days with
  | Ok false => true
  | _ => false
  end.

(** The two values show the same time of day and are of one time zone:
    they carry the same [tzinfo] object or the same UTC offset (none, for
    two naive values). *)
Definition same_clock (a b : datetime) : Prop :=
  hour a = hour b /\ minute a = minute b /\ second a = second b
  /\ microsecond a = microsecond b
  /\ (same_tzinfo a b = true \/ utcoffset a = utcoffset b).

(** The discrepancy to report for a found date. *)
Definition discrepancy (expected_date found_date : datetime)
  : DateParser.mismatch :=
  DateParser.Mismatch expected_date found_date
    (day_difference found_date expected_date)
    (DateParser.format_date expected_date)
    (DateParser.format_date found_date).

(** The patterns of the context ["incorporation"]. *)
Definition INCORPORATION : list Re.regex :=
  match DateParser.lookup "incorporation" DateParser.CONTEXT_PATTERNS with
  | Some ps => ps
  | None => []
  end.

(** The context patterns all end in [TAIL], possibly followed by the
    empty pattern that closes a [cat_all]. *)
Inductive tailed : Re.regex -> Prop :=
| tailed_here : tailed DateParser.TAIL
| tailed_after (a r : Re.regex) : tailed r -> tailed (Re.Cat a r)
| tailed_closed (r : Re.regex) : tailed r -> tailed (Re.Cat r Re.Eps).

(** The newest capture is group 1, ends at the cursor and spans 5 to 30
    characters. *)
Definition captured (st : Re.mstate) : Prop :=
  exists s others,
    Re.ms_caps st = (1%nat, (s, Re.ms_pos st)) :: others
    /\ (s + 5 <= Re.ms_pos st <= s + 30)%nat.

(** A parser given by a finite table of answers, [NoDate] elsewhere.  It
    stands in for the library wherever a statement is run on an example. *)
Fixpoint table_parser (answers : list (string * datetime)) (s : string)
  : DateParser.parsed :=
  match answers with
  | [] => DateParser.NoDate
  | (k, d) :: rest =>
      if String.eqb s k then DateParser.Parsed d else table_parser rest s
  end.

(** Answers of [dateparser] under day-first settings; the last is the
    example of its documentation, [EST] being UTC-5. *)
Definition SAMPLE_ANSWERS : list (string * datetime) :=
  [ ("04/03/1998", midnight 1998 3 4);
    ("31/12/9999", midnight 9999 12 31);
    ("01/02/2003", midnight 2003 2 1);
    ("January 12, 2012", midnight 2012 1 12);
    ("January 12, 2012 10:00 PM EST", aware 2012 1 12 22 0 0 (-18000)) ].

(** Collaborators for running the handler on an example: results are
    the list of numbers processed, a summary is their count, the store is
    empty and the filtered search finds nothing. *)
Definition SAMPLE_STORE : App.cache_store (list string) :=
  App.CacheStore (fun _ _ => false) (fun _ _ => None).

Definition SAMPLE_PROCESSOR : App.batch_processor (list string) nat :=
  App.BatchProcessor (fun numbers _ _ _ _ => numbers) (@List.length string).

Definition sample_has_results (r : list string) : bool :=
  match r with
  | [] => false
  | _ :: _ => true
  end.

Definition sample_search (_ : App.scan_request) : result (list string) :=
  Ok [].

Definition sample_scan (req : App.scan_request) :=
  App.scan_companies sample_has_results sample_search
    (App.store_exists SAMPLE_STORE) (App.store_get SAMPLE_STORE)
    (App.processor_run SAMPLE_PROCESSOR)
    (App.processor_summary SAMPLE_PROCESSOR) req.

Definition sample_request (numbers : list string) : App.scan_request :=
  App.ScanRequest "specific" numbers false 1 true false true (Some "key") None.

End Spec.

(* ================================================================== *)
(** * Properties                                                         *)
(* ================================================================== *)

Unset Implicit Arguments.
Local Close Scope string_scope.

(** ** Matches are never empty *)

Module ReFacts.
Import Re DateParser.

Lemma many_progress (A : Type) (p : cclass) (k : mstate -> option A) (x : A)
    (rest : string) :
  forall lo hi prev pos caps,
    many p lo hi prev rest pos caps k = Some x ->
    exists st, k st = Some x /\ (pos + lo <= ms_pos st)%nat.
Proof.
  assert (Stop : forall lo prev rest pos caps,
             match lo with
             | O => k (MState prev rest pos caps)
             | S _ => None
             end = Some x ->
             exists st, k st = Some x /\ (pos + lo <= ms_pos st)%nat).
  { intros [|lo] prev rest0 pos caps H; [|discriminate].
    eexists. split; [exact H|simpl; lia]. }
  induction rest as [|c rest IH]; intros lo hi prev pos caps H; simpl in H.
  - destruct hi as [[|h]|]; eapply Stop; exact H.
  - assert (Step : forall hi',
               (if in_class p c
                then match many p (pred lo) hi' (Some c) rest (S pos) caps k
                     with
                     | Some y => Some y
                     | None =>
                         match lo with
                         | O => k (MState prev (String c rest) pos caps)
                         | S _ => None
                         end
                     end
                else match lo with
                     | O => k (MState prev (String c rest) pos caps)
                     | S _ => None
                     end) = Some x ->
               exists st, k st = Some x /\ (pos + lo <= ms_pos st)%nat).
    { intros hi' E. destruct (in_class p c); [|eapply Stop; exact E].
      destruct (many p (pred lo) hi' (Some c) rest (S pos) caps k)
        as [y|] eqn:M; [|eapply Stop; exact E].
      assert (y = x) by congruence. subst y.
      destruct (IH _ _ _ _ _ M) as [st [Hk Hp]].
      exists st. split; auto. lia. }
    destruct hi as [[|h]|].
    + eapply Stop; exact H.
    + apply (Step (Some h)). exact H.
    + apply (Step None). exact H.
Qed.

(** A successful match moves the cursor by at least [min_len r]. *)
Lemma rmatch_progress (A : Type) (r : regex) :
  forall (st : mstate) (k : mstate -> option A) (x : A),
    rmatch r st k = Some x ->
    exists st', k st' = Some x /\ (ms_pos st + min_len r <= ms_pos st')%nat.
Proof.
  induction r as [|c|p|r1 IH1 r2 IH2|r1 IH1 r2 IH2|p lo hi|r IH|n r IH|];
    intros st k x H; simpl in H |- *.
  - exists st. split; auto. lia.
  - destruct (ms_rest st) as [|c' rest]; [discriminate|].
    destruct (Text.eq_nocase c c'); [|discriminate].
    eexists. split; [exact H|]. simpl. lia.
  - destruct (ms_rest st) as [|c' rest]; [discriminate|].
    destruct (in_class p c'); [|discriminate].
    eexists. split; [exact H|]. simpl. lia.
  - destruct (IH1 _ _ _ H) as [st1 [H1 P1]].
    destruct (IH2 _ _ _ H1) as [st2 [H2 P2]].
    exists st2. split; auto. lia.
  - destruct (rmatch r1 st k) as [y|] eqn:E.
    + assert (y = x) by congruence. subst y.
      destruct (IH1 _ _ _ E) as [st1 [H1 P1]]. exists st1. split; auto. lia.
    + destruct (IH2 _ _ _ H) as [st2 [H2 P2]]. exists st2. split; auto. lia.
  - destruct (many_progress _ _ _ _ _ _ _ _ _ _ H) as [st' [Hk Hp]].
    exists st'. split; auto.
  - destruct (rmatch r st k) as [y|] eqn:E.
    + assert (y = x) by congruence. subst y.
      destruct (IH _ _ _ E) as [st1 [H1 P1]]. exists st1. split; auto. lia.
    + exists st. split; auto. lia.
  - destruct (IH _ _ _ H) as [st1 [H1 P1]].
    eexists. split; [exact H1|]. simpl. exact P1.
  - destruct (at_boundary st); [|discriminate].
    exists st. split; auto. lia.
Qed.

Lemma match_at_progress (r : regex) prev rest pos e caps :
  match_at r prev rest pos = Some (e, caps) -> (pos + min_len r <= e)%nat.
Proof.
  unfold match_at. intros H.
  destruct (rmatch_progress _ _ _ _ _ H) as [st [E P]].
  inversion E; subst. exact P.
Qed.

Lemma scan_spans (r : regex) (text : string) (m : rematch) (rest : string) :
  forall prev pos skip,
    In m (scan r text prev rest pos skip) ->
    (m_start m + min_len r <= m_end m)%nat.
Proof.
  induction rest as [|c rest IH]; intros prev pos skip H; simpl in H.
  - destruct skip; [|contradiction].
    destruct (match_at r prev EmptyString pos) as [[e caps]|] eqn:E;
      [|contradiction].
    destruct H as [<-|[]]. simpl. eapply match_at_progress; eauto.
  - destruct skip; [|eapply IH; eauto].
    destruct (match_at r prev (String c rest) pos) as [[e caps]|] eqn:E.
    + destruct H as [<-|H]; [|eapply IH; eauto].
      simpl. eapply match_at_progress; eauto.
    + eapply IH; eauto.
Qed.

(** Every match [finditer] yields spans at least [min_len] characters. *)
Lemma finditer_spans (r : regex) (text : string) (m : rematch) :
  In m (finditer r text) -> (m_start m + min_len r <= m_end m)%nat.
Proof. apply scan_spans. Qed.

(** Every pattern of the module needs at least five characters, so no
    match is empty and [scan] always steps over a whole match. *)
Lemma patterns_need_text :
  Forall (fun r => (5 <= min_len r)%nat)
         (RANGE_PATTERN :: DATE_PATTERNS
          ++ flat_map snd CONTEXT_PATTERNS)%list.
Proof. repeat constructor. Qed.

End ReFacts.

(** ** The proleptic Gregorian calendar of [datetime] *)

Module PyFacts.
Import Py.

Ltac zdiv := Z.to_euclidean_division_equations; lia.

Lemma total_us_of_us (t : Z) : total_us (timedelta_of_us t) = t.
Proof.
  unfold total_us, timedelta_of_us; simpl.
  change US_PER_DAY with 86400000000. change US_PER_SECOND with 1000000.
  zdiv.
Qed.

Lemma days_of_us_neg (t : Z) : (days (timedelta_of_us t) <? 0) = (t <? 0).
Proof.
  unfold timedelta_of_us; simpl.
  change US_PER_DAY with 86400000000.
  destruct (Z.ltb_spec (t / 86400000000) 0), (Z.ltb_spec t 0);
    try reflexivity; exfalso; zdiv.
Qed.

Lemma leap_cases (y : Z) :
  days_before_year (y + 1)
  = days_before_year y + 365 + (if is_leap y then 1 else 0).
Proof.
  unfold days_before_year, is_leap.
  replace (y + 1 - 1) with y by lia.
  destruct (Z.eqb_spec (y mod 4) 0), (Z.eqb_spec (y mod 100) 0),
    (Z.eqb_spec (y mod 400) 0); simpl; zdiv.
Qed.

Lemma days_before_year_mono (y y' : Z) :
  y <= y' -> days_before_year y <= days_before_year y'.
Proof. unfold days_before_year. intros. zdiv. Qed.

Lemma month_cases (m : Z) :
  1 <= m <= 12 ->
  m = 1 \/ m = 2 \/ m = 3 \/ m = 4 \/ m = 5 \/ m = 6 \/
  m = 7 \/ m = 8 \/ m = 9 \/ m = 10 \/ m = 11 \/ m = 12.
Proof. lia. Qed.

Ltac months m H :=
  destruct (month_cases m H) as
    [?|[?|[?|[?|[?|[?|[?|[?|[?|[?|[?|?]]]]]]]]]]]; subst m.

Lemma days_before_month_next (y m : Z) :
  1 <= m <= 11 ->
  days_before_month y (m + 1) = days_before_month y m + days_in_month y m.
Proof.
  intros H. assert (H' : 1 <= m <= 12) by lia.
  unfold days_before_month, days_in_month.
  months m H'; try lia; destruct (is_leap y); reflexivity.
Qed.

Lemma days_before_month_last (y : Z) :
  days_before_month y 12 + days_in_month y 12
  = 365 + (if is_leap y then 1 else 0).
Proof.
  unfold days_before_month, days_in_month.
  destruct (is_leap y); reflexivity.
Qed.

Lemma days_before_month_mono (y m m' : Z) :
  1 <= m -> m <= m' -> m' <= 12 ->
  days_before_month y m <= days_before_month y m'.
Proof.
  intros H1 H2 H3.
  assert (Hm : 1 <= m <= 12) by lia.
  assert (Hm' : 1 <= m' <= 12) by lia.
  unfold days_before_month.
  months m Hm; months m' Hm'; try lia; destruct (is_leap y); simpl; lia.
Qed.

Lemma days_before_month_nonneg (y m : Z) :
  1 <= m <= 12 -> 0 <= days_before_month y m.
Proof.
  intros H. unfold days_before_month.
  months m H; destruct (is_leap y); simpl; lia.
Qed.

Lemma days_in_month_pos (y m : Z) : 1 <= m <= 12 -> 28 <= days_in_month y m.
Proof.
  intros H. unfold days_in_month.
  months m H; destruct (is_leap y); simpl; lia.
Qed.

(** The ordinal of a date is strictly monotone in (year, month, day). *)
Lemma ymd2ord_year_lt (y m d y' m' d' : Z) :
  1 <= m <= 12 -> 1 <= d <= days_in_month y m ->
  1 <= m' <= 12 -> 1 <= d' ->
  y < y' -> ymd2ord y m d < ymd2ord y' m' d'.
Proof.
  intros Hm Hd Hm' Hd' Hy. unfold ymd2ord.
  assert (A : days_before_month y m + days_in_month y m
              <= 365 + (if is_leap y then 1 else 0)).
  { rewrite <- days_before_month_last.
    destruct (Z.eq_dec m 12) as [->|Hne]; [lia|].
    rewrite <- days_before_month_next by lia.
    etransitivity; [apply (days_before_month_mono y (m + 1) 12); lia|].
    pose proof (days_in_month_pos y 12 ltac:(lia)). lia. }
  pose proof (leap_cases y) as B.
  pose proof (days_before_year_mono (y + 1) y' ltac:(lia)) as C.
  pose proof (days_before_month_nonneg y' m' Hm'). lia.
Qed.

Lemma ymd2ord_month_lt (y m d m' d' : Z) :
  1 <= m -> 1 <= d <= days_in_month y m ->
  m' <= 12 -> 1 <= d' ->
  m < m' -> ymd2ord y m d < ymd2ord y m' d'.
Proof.
  intros Hm Hd Hm' Hd' Hlt. unfold ymd2ord.
  pose proof (days_before_month_next y m ltac:(lia)) as A.
  pose proof (days_before_month_mono y (m + 1) m' ltac:(lia) ltac:(lia) Hm').
  lia.
Qed.

End PyFacts.

(** ** Comparison and subtraction of datetimes *)

Module OrderFacts.
Import Py Spec PyFacts.

Lemma valid_spec (a : datetime) :
  valid_datetime a = true ->
  1 <= year a <= 9999 /\ 1 <= month a <= 12
  /\ 1 <= day a <= days_in_month (year a) (month a)
  /\ 0 <= hour a < 24 /\ 0 <= minute a < 60 /\ 0 <= second a < 60
  /\ 0 <= microsecond a < 1000000.
Proof.
  unfold valid_datetime. intros H.
  repeat (apply andb_prop in H; destruct H as [H ?]).
  repeat match goal with
         | h : (_ <=? _) = true |- _ => apply Z.leb_le in h
         | h : (_ <? _) = true |- _ => apply Z.ltb_lt in h
         end.
  lia.
Qed.

Lemma local_us_eq (a : datetime) :
  local_us a
  = toordinal a * 86400000000 + hour a * 3600000000 + minute a * 60000000
    + second a * 1000000 + microsecond a.
Proof. unfold local_us. change US_PER_SECOND with 1000000. lia. Qed.

(** On constructible values the tuple order is the order of wall-clock
    time. *)
Lemma cmp_lex_local_us (a b : datetime) :
  valid_datetime a = true -> valid_datetime b = true ->
  cmp_lex (fields a) (fields b) = (local_us a ?= local_us b).
Proof.
  intros Ha Hb.
  apply valid_spec in Ha. apply valid_spec in Hb.
  rewrite !local_us_eq. unfold toordinal, fields. simpl.
  symmetry.
  destruct (Z.compare_spec (year a) (year b)) as [Ey|Ly|Gy].
  - destruct (Z.compare_spec (month a) (month b)) as [Em|Lm|Gm].
    + rewrite Ey, Em in *.
      unfold ymd2ord.
      destruct (Z.compare_spec (day a) (day b));
        [ destruct (Z.compare_spec (hour a) (hour b));
          [ destruct (Z.compare_spec (minute a) (minute b));
            [ destruct (Z.compare_spec (second a) (second b));
              [ destruct (Z.compare_spec (microsecond a) (microsecond b)) |
                | ] | | ] | | ] | | ];
        first [ apply Z.compare_eq_iff | apply Z.compare_lt_iff
              | apply Z.compare_gt_iff ]; lia.
    + rewrite Ey in *.
      pose proof (ymd2ord_month_lt (year b) (month a) (day a) (month b) (day b)
                    ltac:(lia) ltac:(lia) ltac:(lia) ltac:(lia) Lm).
      apply Z.compare_lt_iff; lia.
    + rewrite Ey in *.
      pose proof (ymd2ord_month_lt (year b) (month b) (day b) (month a) (day a)
                    ltac:(lia) ltac:(lia) ltac:(lia) ltac:(lia) Gm).
      apply Z.compare_gt_iff; lia.
  - pose proof (ymd2ord_year_lt (year a) (month a) (day a)
                  (year b) (month b) (day b)
                  ltac:(lia) ltac:(lia) ltac:(lia) ltac:(lia) Ly).
    apply Z.compare_lt_iff; lia.
  - pose proof (ymd2ord_year_lt (year b) (month b) (day b)
                  (year a) (month a) (day a)
                  ltac:(lia) ltac:(lia) ltac:(lia) ltac:(lia) Gy).
    apply Z.compare_gt_iff; lia.
Qed.

Lemma base_total_us (a b : datetime) :
  total_us
    (timedelta_new (toordinal a - toordinal b)
       ((second a + minute a * 60 + hour a * 3600)
        - (second b + minute b * 60 + hour b * 3600))
       (microsecond a - microsecond b))
  = local_us a - local_us b.
Proof.
  unfold timedelta_new. rewrite total_us_of_us, !local_us_eq.
  change US_PER_SECOND with 1000000. lia.
Qed.

Lemma base_of_us (a b : datetime) :
  timedelta_new (toordinal a - toordinal b)
    ((second a + minute a * 60 + hour a * 3600)
     - (second b + minute b * 60 + hour b * 3600))
    (microsecond a - microsecond b)
  = timedelta_of_us (local_us a - local_us b).
Proof.
  unfold timedelta_new. f_equal. rewrite !local_us_eq.
  change US_PER_SECOND with 1000000. lia.
Qed.

Lemma offsets_equal_spec (x y : option Z) :
  offsets_equal x y = true <-> x = y.
Proof.
  destruct x as [x|], y as [y|]; simpl; split; intros H;
    try discriminate; auto.
  - apply Z.eqb_eq in H. congruence.
  - inversion H. apply Z.eqb_refl.
Qed.

Lemma offsets_equal_refl (x : option Z) : offsets_equal x x = true.
Proof. apply offsets_equal_spec. reflexivity. Qed.

Lemma same_tzinfo_sym (a b : datetime) : same_tzinfo a b = same_tzinfo b a.
Proof.
  unfold same_tzinfo. destruct (tzinfo a), (tzinfo b); auto.
  apply Z.eqb_sym.
Qed.

Lemma same_tzinfo_refl (a : datetime) : same_tzinfo a a = true.
Proof. unfold same_tzinfo. destruct (tzinfo a); auto. apply Z.eqb_refl. Qed.

Lemma aligned_sym (a b : datetime) : aligned a b -> aligned b a.
Proof.
  unfold aligned. rewrite (same_tzinfo_sym b a). intros H E.
  symmetry. auto.
Qed.

Lemma aligned_refl (a : datetime) : aligned a a.
Proof. intros _. reflexivity. Qed.

Lemma offset_us_eq (a b : datetime) :
  utcoffset a = utcoffset b -> offset_us a = offset_us b.
Proof. unfold offset_us. intros ->. reflexivity. Qed.

Lemma is_aware_eq (a b : datetime) :
  utcoffset a = utcoffset b -> is_aware a = is_aware b.
Proof. unfold is_aware. intros ->. reflexivity. Qed.

(** Where the wall clocks are what is subtracted or compared. *)
Lemma wall_clock_cases (a b : datetime) :
  aligned a b ->
  same_tzinfo a b || offsets_equal (utcoffset a) (utcoffset b) = true ->
  utcoffset a = utcoffset b.
Proof.
  intros Al H. apply orb_prop in H. destruct H as [H|H]; auto.
  apply offsets_equal_spec. exact H.
Qed.

(** Between values of one kind whose zones are settled, subtraction is
    the difference of the instants. *)
Lemma sub_spec (a b : datetime) :
  aligned a b -> is_aware a = is_aware b ->
  sub a b = Ok (timedelta_of_us (instant a - instant b)).
Proof.
  intros Al Hc. unfold sub. rewrite base_of_us.
  destruct (same_tzinfo a b) eqn:Hs.
  - f_equal. f_equal. unfold instant.
    rewrite (offset_us_eq a b (Al Hs)). lia.
  - destruct (offsets_equal (utcoffset a) (utcoffset b)) eqn:Ho.
    + apply offsets_equal_spec in Ho.
      f_equal. f_equal. unfold instant. rewrite (offset_us_eq a b Ho). lia.
    + unfold is_aware in Hc. unfold instant, offset_us.
      destruct (utcoffset a) as [oa|], (utcoffset b) as [ob|];
        try discriminate.
      rewrite total_us_of_us. f_equal. f_equal. lia.
Qed.

(** Between a naive and an aware value that do not share a [tzinfo]
    object, subtraction and ordering raise. *)
Lemma sub_mixed (a b : datetime) :
  same_tzinfo a b = false -> is_aware a <> is_aware b ->
  sub a b = Raised TypeError.
Proof.
  unfold sub, is_aware. intros -> H.
  destruct (utcoffset a), (utcoffset b); simpl; try reflexivity;
    exfalso; apply H; reflexivity.
Qed.

Lemma cmp_mixed (a b : datetime) :
  same_tzinfo a b = false -> is_aware a <> is_aware b ->
  cmp a b = Raised TypeError.
Proof.
  unfold cmp, is_aware. intros -> H.
  destruct (utcoffset a), (utcoffset b); simpl; try reflexivity;
    exfalso; apply H; reflexivity.
Qed.

Lemma mixed_not_shared (a b : datetime) :
  aligned a b -> is_aware a <> is_aware b -> same_tzinfo a b = false.
Proof.
  intros Al N. destruct (same_tzinfo a b) eqn:E; auto.
  exfalso. apply N. apply is_aware_eq. auto.
Qed.

Lemma cmp_ok_class (a b : datetime) (c : comparison) :
  aligned a b -> cmp a b = Ok c -> is_aware a = is_aware b.
Proof.
  intros Al H. destruct (bool_dec (is_aware a) (is_aware b)) as [E|N]; auto.
  rewrite (cmp_mixed _ _ (mixed_not_shared _ _ Al N) N) in H. discriminate.
Qed.

(** On constructible values of one kind whose zones are settled,
    comparison is comparison of instants. *)
Lemma cmp_instant (a b : datetime) :
  valid_datetime a = true -> valid_datetime b = true ->
  aligned a b -> is_aware a = is_aware b ->
  cmp a b = Ok (instant a ?= instant b).
Proof.
  intros Ha Hb Al Hc. unfold cmp.
  destruct (same_tzinfo a b || offsets_equal (utcoffset a) (utcoffset b))
    eqn:Hs.
  - rewrite (cmp_lex_local_us _ _ Ha Hb).
    pose proof (offset_us_eq a b (wall_clock_cases a b Al Hs)) as Ho.
    unfold instant. rewrite Ho. f_equal.
    destruct (Z.compare_spec (local_us a) (local_us b)); symmetry;
      first [ apply Z.compare_eq_iff | apply Z.compare_lt_iff
            | apply Z.compare_gt_iff ]; lia.
  - rewrite (sub_spec _ _ Al Hc).
    unfold is_aware in Hc.
    destruct (utcoffset a), (utcoffset b); try discriminate.
    + unfold bind. rewrite days_of_us_neg, total_us_of_us. f_equal.
      destruct (Z.ltb_spec (instant a - instant b) 0).
      * symmetry. apply Z.compare_lt_iff. lia.
      * destruct (Z.eqb_spec (instant a - instant b) 0); symmetry.
        -- apply Z.compare_eq_iff. lia.
        -- apply Z.compare_gt_iff. lia.
    + rewrite orb_true_r in Hs. discriminate.
Qed.

Lemma lt_instant (a b : datetime) :
  valid_datetime a = true -> valid_datetime b = true ->
  aligned a b -> is_aware a = is_aware b ->
  lt a b = Ok (instant a <? instant b).
Proof.
  intros Ha Hb Al Hc. unfold lt. rewrite (cmp_instant _ _ Ha Hb Al Hc). simpl.
  unfold Z.ltb. destruct (instant a ?= instant b); reflexivity.
Qed.

Lemma lt_ok_class (a b : datetime) (r : bool) :
  aligned a b -> lt a b = Ok r -> is_aware a = is_aware b.
Proof.
  unfold lt. intros Al. destruct (cmp a b) as [c|] eqn:E; simpl;
    try discriminate.
  intros _. eapply cmp_ok_class; eauto.
Qed.

(** Equal values are of one kind and denote one instant. *)
Lemma eqb_true_instant (a b : datetime) :
  valid_datetime a = true -> valid_datetime b = true ->
  aligned a b -> eqb a b = true ->
  is_aware a = is_aware b /\ instant a = instant b.
Proof.
  intros Ha Hb Al. unfold eqb.
  destruct (same_tzinfo a b) eqn:Hs.
  - rewrite (cmp_lex_local_us _ _ Ha Hb).
    destruct (Z.compare_spec (local_us a) (local_us b)); try discriminate.
    intros _. split; [apply is_aware_eq; auto|].
    unfold instant. rewrite (offset_us_eq a b (Al Hs)). lia.
  - destruct (_ || _); [discriminate|].
    destruct (cmp a b) as [c|] eqn:E; try discriminate.
    pose proof (cmp_ok_class _ _ _ Al E) as Hc.
    rewrite (cmp_instant _ _ Ha Hb Al Hc) in E. inversion E; subst c.
    destruct (Z.compare_spec (instant a) (instant b)); try discriminate.
    auto.
Qed.

Lemma eqb_true_class (a b : datetime) :
  aligned a b -> eqb a b = true -> is_aware a = is_aware b.
Proof.
  intros Al. unfold eqb. destruct (same_tzinfo a b) eqn:Hs.
  - intros _. apply is_aware_eq. auto.
  - destruct (_ || _); [discriminate|].
    destruct (cmp a b) as [c|] eqn:E; try discriminate.
    intros _. eapply cmp_ok_class; eauto.
Qed.

(** Between values whose offset does not depend on [fold], equality is
    equality of instants. *)
Lemma eqb_instant (a b : datetime) :
  valid_datetime a = true -> valid_datetime b = true ->
  aligned a b -> unambiguous a -> unambiguous b ->
  is_aware a = is_aware b ->
  eqb a b = (instant a =? instant b).
Proof.
  intros Ha Hb Al Ua Ub Hc. unfold eqb.
  destruct (same_tzinfo a b) eqn:Hs.
  - rewrite (cmp_lex_local_us _ _ Ha Hb).
    unfold instant. rewrite (offset_us_eq a b (Al Hs)).
    destruct (Z.compare_spec (local_us a) (local_us b)) as [E|L|G];
      symmetry; [apply Z.eqb_eq|apply Z.eqb_neq|apply Z.eqb_neq]; lia.
  - unfold unambiguous in Ua, Ub. rewrite Ua, Ub, !offsets_equal_refl. simpl.
    rewrite (cmp_instant _ _ Ha Hb Al Hc).
    rewrite Z.eqb_compare. destruct (instant a ?= instant b); reflexivity.
Qed.

Lemma cmp_lex_refl (xs : list Z) : cmp_lex xs xs = Eq.
Proof. induction xs; simpl; auto. rewrite Z.compare_refl. auto. Qed.

Lemma eqb_refl (a : datetime) : eqb a a = true.
Proof. unfold eqb. rewrite same_tzinfo_refl, cmp_lex_refl. auto. Qed.

End OrderFacts.

(** ** Sorting *)

Module SortFacts.
Import Py Spec PyFacts OrderFacts.

Lemma chain_tail (R : datetime -> datetime -> Prop) a l :
  chain R (a :: l) -> chain R l.
Proof. destruct l; simpl; tauto. Qed.

Lemma chain_cons (R : datetime -> datetime -> Prop) a b l :
  R a b -> chain R (b :: l) -> chain R (a :: b :: l).
Proof. simpl; tauto. Qed.

Lemma chain_impl (R S : datetime -> datetime -> Prop) l :
  (forall a b, In a l -> In b l -> R a b -> S a b) ->
  chain R l -> chain S l.
Proof.
  induction l as [|a l IH]; simpl; auto.
  destruct l as [|b l]; auto.
  intros H [Hab Hc]. split.
  - apply H; simpl; auto.
  - apply IH; [intros x y Hx Hy; apply H; simpl in *; tauto | exact Hc].
Qed.

(** ** Lists of one kind, in settled zones *)

Lemma all_valid_perm l l' : Permutation l l' -> all_valid l -> all_valid l'.
Proof. unfold all_valid. intros P H. rewrite <- P. exact H. Qed.

Lemma uniform_perm l l' : Permutation l l' -> uniform l -> uniform l'.
Proof.
  intros P H a b Ha Hb.
  apply Permutation_sym in P.
  apply H; eapply Permutation_in; eassumption.
Qed.

Lemma settled_perm l l' : Permutation l l' -> settled l -> settled l'.
Proof.
  intros P H a b Ha Hb.
  apply Permutation_sym in P.
  apply H; eapply Permutation_in; eassumption.
Qed.

Lemma uniform_tail a l : uniform (a :: l) -> uniform l.
Proof. intros H x y Hx Hy. apply H; simpl; auto. Qed.

Lemma settled_tail a l : settled (a :: l) -> settled l.
Proof. intros H x y Hx Hy. apply H; simpl; auto. Qed.

Lemma all_valid_tail a l : all_valid (a :: l) -> all_valid l.
Proof. intros H. inversion H; auto. Qed.

Lemma all_valid_in l a : all_valid l -> In a l -> valid_datetime a = true.
Proof. unfold all_valid. rewrite Forall_forall. auto. Qed.

Lemma all_valid_incl l l' :
  (forall x, In x l' -> In x l) -> all_valid l -> all_valid l'.
Proof.
  unfold all_valid. rewrite !Forall_forall. auto.
Qed.

Lemma uniform_incl l l' :
  (forall x, In x l' -> In x l) -> uniform l -> uniform l'.
Proof. intros I U a b Ha Hb. apply U; auto. Qed.

Lemma settled_incl l l' :
  (forall x, In x l' -> In x l) -> settled l -> settled l'.
Proof. intros I U a b Ha Hb. apply U; auto. Qed.

Lemma uniform_cons x y l :
  is_aware x = is_aware y -> In y l -> uniform l -> uniform (x :: l).
Proof.
  intros Hxy Hy Hu a b [<-|Ha] [<-|Hb]; auto.
  - rewrite Hxy. apply Hu; auto.
  - rewrite Hxy. symmetry. apply Hu; auto.
Qed.

Lemma tame_intro l : all_valid l -> uniform l -> settled l -> tame l.
Proof.
  intros V U S a b Ha Hb.
  apply lt_instant; eauto using all_valid_in.
Qed.

Lemma tame_incl l l' : (forall x, In x l' -> In x l) -> tame l -> tame l'.
Proof. intros I T a b Ha Hb. apply T; auto. Qed.

Lemma tame_tail a l : tame (a :: l) -> tame l.
Proof. apply tame_incl. simpl; auto. Qed.

Lemma tame_perm l l' : Permutation l l' -> tame l -> tame l'.
Proof.
  intros P. apply tame_incl. intros x Hx.
  eapply Permutation_in; [apply Permutation_sym; exact P|exact Hx].
Qed.

(** ** Sorted by instant *)

Lemma chain_le_head a l :
  chain inst_le (a :: l) -> Forall (fun b => instant a <= instant b) l.
Proof.
  revert a. induction l as [|b l IH]; intros a H; constructor.
  - destruct H; auto.
  - destruct H as [Hab Hc]. specialize (IH b Hc).
    eapply Forall_impl; [|exact IH]. unfold inst_le in Hab.
    simpl; intros; lia.
Qed.

Lemma chain_lt_head a l :
  chain inst_lt (a :: l) -> Forall (fun b => instant a < instant b) l.
Proof.
  revert a. induction l as [|b l IH]; intros a H; constructor.
  - destruct H; auto.
  - destruct H as [Hab Hc]. specialize (IH b Hc).
    eapply Forall_impl; [|exact IH]. unfold inst_lt in Hab.
    simpl; intros; lia.
Qed.

Lemma ordered_cons a l :
  Forall (fun b => instant a <= instant b) l -> ordered l -> ordered (a :: l).
Proof.
  unfold ordered. destruct l as [|b l]; simpl; auto.
  intros F H. split; auto. inversion F; auto.
Qed.

(** A list is ordered when it is cut in two ordered parts, the first
    below the second. *)
Lemma ordered_app l1 l2 :
  ordered l1 -> ordered l2 ->
  (forall a b, In a l1 -> In b l2 -> instant a <= instant b) ->
  ordered (l1 ++ l2).
Proof.
  induction l1 as [|a l1 IH]; simpl; auto.
  intros H1 H2 H. apply ordered_cons.
  - apply Forall_app. split.
    + apply chain_le_head. exact H1.
    + apply Forall_forall. intros b Hb. apply H; auto.
  - apply IH; auto. eapply chain_tail; eauto.
Qed.

Lemma ordered_split l1 l2 :
  ordered (l1 ++ l2) ->
  ordered l1 /\ ordered l2
  /\ forall a b, In a l1 -> In b l2 -> instant a <= instant b.
Proof.
  induction l1 as [|a l1 IH]; simpl.
  - intros H. split; [exact I|]. split; auto. intros a b [].
  - intros H. pose proof (chain_le_head _ _ H) as F.
    rewrite Forall_forall in F.
    destruct (IH (chain_tail _ _ _ H)) as [O1 [O2 B]].
    split; [|split; auto].
    + apply ordered_cons; auto. apply Forall_forall.
      intros b Hb. apply F. apply in_or_app. auto.
    + intros x y [<-|Hx] Hy; auto. apply F. apply in_or_app. auto.
Qed.

Lemma chain_rev_lt l :
  chain (fun a b => instant b < instant a) l -> ordered (rev l).
Proof.
  induction l as [|a l IH]; simpl; [intros; exact I|].
  intros H. apply ordered_app.
  - apply IH. exact (chain_tail _ _ _ H).
  - exact I.
  - intros x y Hx [<-|[]]. apply in_rev in Hx.
    assert (F : Forall (fun b => instant b < instant a) l).
    { clear IH Hx. revert a H.
      induction l as [|b l IH]; intros a H; constructor.
      - destruct H; auto.
      - destruct H as [Hab Hc]. specialize (IH b Hc).
        eapply Forall_impl; [|exact IH]. simpl; intros; lia. }
    rewrite Forall_forall in F. specialize (F _ Hx). lia.
Qed.

Lemma chain_le_nodup l :
  NoDup (map instant l) -> chain inst_le l -> chain inst_lt l.
Proof.
  induction l as [|a l IH]; simpl; auto.
  destruct l as [|b l]; auto.
  intros N [Hab Hc]. split.
  - inversion N as [|? ? Hn _]; subst. simpl in Hn.
    unfold inst_le in Hab. unfold inst_lt.
    assert (instant a <> instant b) by (intros E; apply Hn; left; auto). lia.
  - apply IH; auto. inversion N; auto.
Qed.

Lemma chain_map_instant (l s : list datetime) :
  map instant l = map instant s -> chain inst_le s -> chain inst_le l.
Proof.
  revert s. induction l as [|a l IH]; intros s E H; simpl; auto.
  destruct l as [|b l]; auto.
  destruct s as [|a' [|b' s]]; simpl in E; try discriminate.
  inversion E as [[Ea Eb Et]]. destruct H as [Hab Hc]. split.
  - unfold inst_le in *. lia.
  - apply (IH (b' :: s)); simpl; auto. congruence.
Qed.

(** Two strictly ascending arrangements of the same elements are equal:
    the order in which a set is listed does not show after sorting. *)
Lemma ascending_unique (l s : list datetime) :
  Permutation l s -> chain inst_lt l -> chain inst_lt s -> l = s.
Proof.
  revert s. induction l as [|a l IH]; intros s P Hl Hs.
  - apply Permutation_nil in P. auto.
  - destruct s as [|b s].
    + apply Permutation_sym, Permutation_nil in P. discriminate.
    + assert (a = b).
      { pose proof (chain_lt_head _ _ Hl) as Fa.
        pose proof (chain_lt_head _ _ Hs) as Fb.
        rewrite Forall_forall in Fa, Fb.
        assert (Ia : In a (b :: s)) by (eapply Permutation_in; eauto; simpl; auto).
        assert (Ib : In b (a :: l))
          by (eapply Permutation_in; [apply Permutation_sym; eauto|]; simpl; auto).
        destruct Ia as [->|Ia]; auto. destruct Ib as [->|Ib]; auto.
        specialize (Fa _ Ib). specialize (Fb _ Ia). lia. }
      subst b. f_equal. apply IH.
      * eapply Permutation_cons_inv; eauto.
      * eapply chain_tail; eauto.
      * eapply chain_tail; eauto.
Qed.

(** ** The first run *)

Lemma run_up_tame prev l :
  tame (prev :: l) ->
  exists n, run_up prev l = Ok n /\ ordered (prev :: firstn n l)
            /\ (ordered (prev :: l) -> n = List.length l).
Proof.
  revert prev. induction l as [|x l IH]; intros prev T.
  - exists 0%nat. simpl. repeat split; auto.
  - cbn [run_up]. rewrite (T x prev) by (simpl; auto). unfold bind at 1.
    destruct (Z.ltb_spec (instant x) (instant prev)) as [L|G].
    + exists 0%nat. split; [reflexivity|]. split; [exact I|].
      intros [H _]. unfold inst_le in H. lia.
    + destruct (IH x (tame_tail _ _ T)) as [n [E [O F]]].
      exists (S n). rewrite E. split; [reflexivity|]. split.
      * cbn [firstn]. apply chain_cons; auto.
      * intros H. simpl. f_equal. apply F. eapply chain_tail; eauto.
Qed.

Lemma run_down_tame prev l :
  tame (prev :: l) ->
  exists n, run_down prev l = Ok n
            /\ chain (fun a b => instant b < instant a) (prev :: firstn n l).
Proof.
  revert prev. induction l as [|x l IH]; intros prev T.
  - exists 0%nat. simpl. repeat split; auto.
  - cbn [run_down]. rewrite (T x prev) by (simpl; auto). unfold bind at 1.
    destruct (Z.ltb_spec (instant x) (instant prev)) as [L|G].
    + destruct (IH x (tame_tail _ _ T)) as [n [E O]].
      exists (S n). rewrite E. split; [reflexivity|].
      cbn [firstn]. apply chain_cons; auto.
    + exists 0%nat. split; [reflexivity|]. exact I.
Qed.

(** ** The binary search *)

Lemma div2_lt (n : nat) : (0 < n -> Nat.div2 n < n)%nat.
Proof. intros H. apply Nat.lt_div2. exact H. Qed.

Lemma probe_split (seg : list datetime) :
  seg <> [] ->
  exists p upper,
    skipn (Nat.div2 (List.length seg)) seg = p :: upper
    /\ seg = (firstn (Nat.div2 (List.length seg)) seg ++ p :: upper)%list
    /\ List.length (firstn (Nat.div2 (List.length seg)) seg)
       = Nat.div2 (List.length seg).
Proof.
  intros N.
  assert (L : (Nat.div2 (List.length seg) < List.length seg)%nat).
  { apply div2_lt. destruct seg; [contradiction|simpl; lia]. }
  destruct (skipn (Nat.div2 (List.length seg)) seg) as [|p upper] eqn:E.
  - apply (f_equal (@List.length _)) in E. rewrite length_skipn in E.
    simpl in E. lia.
  - exists p, upper. split; auto. split.
    + rewrite <- E. symmetry. apply firstn_skipn.
    + rewrite length_firstn. lia.
Qed.

Lemma firstn_front (A : Type) (l1 l2 : list A) (n : nat) :
  (n <= List.length l1)%nat -> firstn n (l1 ++ l2) = firstn n l1.
Proof.
  intros H. rewrite firstn_app.
  replace (n - List.length l1)%nat with 0%nat by lia.
  simpl. apply app_nil_r.
Qed.

Lemma skipn_front (A : Type) (l1 l2 : list A) (n : nat) :
  (n <= List.length l1)%nat -> skipn n (l1 ++ l2) = (skipn n l1 ++ l2)%list.
Proof.
  intros H. rewrite skipn_app.
  replace (n - List.length l1)%nat with 0%nat by lia. reflexivity.
Qed.

Lemma firstn_back (A : Type) (l1 l2 : list A) (x : A) (n : nat) :
  firstn (List.length l1 + 1 + n) (l1 ++ x :: l2)
  = (l1 ++ x :: firstn n l2)%list.
Proof.
  rewrite firstn_app.
  rewrite firstn_all2 by lia.
  replace (List.length l1 + 1 + n - List.length l1)%nat with (S n) by lia.
  reflexivity.
Qed.

Lemma skipn_back (A : Type) (l1 l2 : list A) (x : A) (n : nat) :
  skipn (List.length l1 + 1 + n) (l1 ++ x :: l2) = skipn n l2.
Proof.
  rewrite skipn_app.
  rewrite skipn_all2 by lia.
  replace (List.length l1 + 1 + n - List.length l1)%nat with (S n) by lia.
  reflexivity.
Qed.

(** On an ordered slice the search answers the place after the elements
    at or before the pivot in time. *)
Lemma bisect_tame (pivot : datetime) : forall fuel seg,
  (List.length seg <= fuel)%nat -> tame (pivot :: seg) -> ordered seg ->
  exists n,
    bisect fuel pivot seg = Ok n
    /\ (n <= List.length seg)%nat
    /\ (forall a, In a (firstn n seg) -> instant a <= instant pivot)
    /\ (forall b, In b (skipn n seg) -> instant pivot < instant b).
Proof.
  induction fuel as [|fuel IH]; intros seg L T O.
  - destruct seg; [|simpl in L; lia].
    exists 0%nat. simpl. repeat split; auto; intros ? [].
  - destruct seg as [|s0 seg0] eqn:Es.
    + exists 0%nat. simpl. repeat split; auto; intros ? [].
    + rewrite <- Es in *.
      assert (N : seg <> []) by (rewrite Es; discriminate).
      destruct (probe_split seg N) as [p [upper [Ek [Eseg Lf]]]].
      set (h := Nat.div2 (List.length seg)) in *.
      set (front := firstn h seg) in *.
      assert (Lseg : List.length seg = (h + 1 + List.length upper)%nat).
      { rewrite Eseg at 1. rewrite length_app, Lf. simpl. lia. }
      assert (Ip : In p seg).
      { rewrite Eseg. apply in_or_app. right. left. reflexivity. }
      rewrite Eseg in O.
      destruct (ordered_split _ _ O) as [Of [Or B]].
      cbn [bisect]. fold h. rewrite Ek. fold front.
      rewrite (T pivot p) by (simpl; auto). unfold bind at 1.
      destruct (Z.ltb_spec (instant pivot) (instant p)) as [Lt|Ge].
      * destruct (IH front) as [n [E [Ln [Hb Ha]]]].
        -- rewrite Lf. lia.
        -- eapply tame_incl; [|exact T]. intros x [<-|Hx]; simpl; auto.
           right. rewrite Eseg. apply in_or_app. auto.
        -- exact Of.
        -- exists n. split; [exact E|]. rewrite Lf in Ln.
           split; [lia|]. rewrite Eseg. split.
           ++ rewrite firstn_front by lia. exact Hb.
           ++ rewrite skipn_front by lia. intros b Hb'.
              apply in_app_or in Hb'. destruct Hb' as [Hb'|Hb']; auto.
              pose proof (chain_le_head _ _ Or) as F.
              rewrite Forall_forall in F.
              destruct Hb' as [<-|Hb']; auto. specialize (F _ Hb'). lia.
      * destruct (IH upper) as [n [E [Ln [Hb Ha]]]].
        -- lia.
        -- eapply tame_incl; [|exact T]. intros x [<-|Hx]; simpl; auto.
           right. rewrite Eseg. apply in_or_app. simpl. auto.
        -- eapply chain_tail; eauto.
        -- exists (h + 1 + n)%nat. rewrite E. split; [reflexivity|].
           split; [lia|]. rewrite Eseg, <- Lf. split.
           ++ rewrite firstn_back. intros a Ha'.
              apply in_app_or in Ha'. destruct Ha' as [Ha'|[<-|Ha']]; auto.
              specialize (B a p Ha' (or_introl eq_refl)). lia.
           ++ rewrite skipn_back. exact Ha.
Qed.

Lemma binary_insert_perm a pivot r :
  binary_insert a pivot = Ok r -> Permutation (pivot :: a) r.
Proof.
  unfold binary_insert. destruct (bisect _ pivot a) as [n|]; simpl;
    try discriminate.
  intros E. inversion E; subst.
  rewrite <- (firstn_skipn n a) at 1. apply Permutation_middle.
Qed.

Lemma binary_insert_tame a pivot :
  tame (pivot :: a) -> ordered a ->
  exists r, binary_insert a pivot = Ok r /\ ordered r.
Proof.
  intros T O. unfold binary_insert.
  destruct (bisect_tame pivot (List.length a) a (le_n _) T O)
    as [n [E [Ln [Hb Ha]]]].
  rewrite E. unfold bind. eexists. split; [reflexivity|].
  rewrite <- (firstn_skipn n a) in O.
  destruct (ordered_split _ _ O) as [O1 [O2 B]].
  apply ordered_app; auto.
  - apply ordered_cons; auto. apply Forall_forall.
    intros b Hb'. specialize (Ha _ Hb'). lia.
  - intros x y Hx [<-|Hy]; auto.
Qed.

Lemma binarysort_perm rest : forall a s,
  binarysort a rest = Ok s -> Permutation (a ++ rest) s.
Proof.
  induction rest as [|pivot rest IH]; simpl; intros a s E.
  - inversion E; subst. rewrite app_nil_r. auto.
  - destruct (binary_insert a pivot) as [a'|] eqn:B; simpl in E;
      try discriminate.
    rewrite <- (IH _ _ E). rewrite <- (binary_insert_perm _ _ _ B).
    rewrite <- Permutation_middle. auto.
Qed.

Lemma binarysort_tame rest : forall a,
  tame (a ++ rest) -> ordered a ->
  exists s, binarysort a rest = Ok s /\ ordered s.
Proof.
  induction rest as [|pivot rest IH]; simpl; intros a T O.
  - eauto.
  - destruct (binary_insert_tame a pivot) as [a' [E O']]; auto.
    + eapply tame_incl; [|exact T]. intros x [<-|Hx];
        apply in_or_app; simpl; auto.
    + rewrite E. unfold bind. apply IH; auto.
      eapply tame_perm; [|exact T].
      rewrite <- (binary_insert_perm _ _ _ E).
      rewrite <- Permutation_middle. auto.
Qed.

(** ** [Py.sorted] returns a rearrangement of its argument *)

Lemma sorted_ok_perm l s : sorted l = Ok s -> Permutation l s.
Proof.
  unfold sorted. destruct (_ <? _)%nat.
  - intros E. inversion E. auto.
  - destruct (count_run l) as [[n d]|]; simpl; try discriminate.
    intros E. apply binarysort_perm in E. rewrite <- E.
    rewrite <- (firstn_skipn n l) at 1.
    apply Permutation_app_tail.
    destruct d; auto. apply Permutation_rev.
Qed.

(** ** Where [<] is the order of instants, [Py.sorted] sorts *)

Lemma count_run_tame l :
  tame l ->
  exists n d, count_run l = Ok (n, d)
              /\ ordered (if d then rev (firstn n l) else firstn n l)
              /\ (ordered l -> n = List.length l /\ d = false).
Proof.
  intros T. destruct l as [|x0 [|x1 l]].
  - exists 0%nat, false. simpl. repeat split; auto.
  - exists 1%nat, false. simpl. repeat split; auto.
  - cbn [count_run]. rewrite (T x1 x0) by (simpl; auto). unfold bind at 1.
    destruct (Z.ltb_spec (instant x1) (instant x0)) as [L|G].
    + destruct (run_down_tame x1 l (tame_tail _ _ T)) as [n [E O]].
      exists (S (S n)), true. rewrite E. split; [reflexivity|]. split.
      * apply chain_rev_lt. cbn [firstn]. apply chain_cons; auto.
      * intros [H _]. unfold inst_le in H. lia.
    + destruct (run_up_tame x1 l (tame_tail _ _ T)) as [n [E [O F]]].
      exists (S (S n)), false. rewrite E. split; [reflexivity|]. split.
      * cbn [firstn]. apply chain_cons; auto.
      * intros H. split; auto. simpl. f_equal. f_equal.
        apply F. eapply chain_tail; eauto.
Qed.

Lemma sorted_tame l :
  tame l -> exists s, sorted l = Ok s /\ ordered s /\ Permutation l s.
Proof.
  intros T.
  assert (S : exists s, sorted l = Ok s /\ ordered s).
  { unfold sorted. destruct (Nat.ltb_spec (List.length l) 2) as [L|L].
    - exists l. split; auto.
      destruct l as [|a [|b l]]; try exact I. simpl in L. lia.
    - destruct (count_run_tame l T) as [n [d [E [O _]]]].
      rewrite E. unfold bind. apply binarysort_tame; auto.
      eapply tame_perm; [|exact T].
      rewrite <- (firstn_skipn n l) at 1.
      apply Permutation_app_tail.
      destruct d; auto. apply Permutation_rev. }
  destruct S as [s [E O]]. exists s. repeat split; auto.
  apply sorted_ok_perm. exact E.
Qed.

(** A list already in order comes back as it is. *)
Lemma sorted_fixed l : tame l -> ordered l -> sorted l = Ok l.
Proof.
  intros T O. unfold sorted.
  destruct (List.length l <? 2)%nat; auto.
  destruct (count_run_tame l T) as [n [d [E [_ F]]]].
  destruct (F O) as [-> ->]. rewrite E. unfold bind.
  rewrite firstn_all, skipn_all. reflexivity.
Qed.

(** ** [Py.sorted] raises [TypeError] or nothing *)

Lemma sub_total (a b : datetime) :
  (exists d, sub a b = Ok d) \/ sub a b = Raised TypeError.
Proof.
  unfold sub. destruct (same_tzinfo a b); eauto.
  destruct (offsets_equal _ _); eauto.
  destruct (utcoffset a), (utcoffset b); eauto.
Qed.

Lemma cmp_total (a b : datetime) :
  (exists c, cmp a b = Ok c) \/ cmp a b = Raised TypeError.
Proof.
  unfold cmp. destruct (_ || _) eqn:E; eauto.
  apply orb_false_elim in E. destruct E as [Es Eo].
  unfold sub. rewrite Es, Eo.
  destruct (utcoffset a), (utcoffset b); unfold bind; eauto.
Qed.

Lemma lt_total (a b : datetime) :
  (exists r, lt a b = Ok r) \/ lt a b = Raised TypeError.
Proof.
  unfold lt. destruct (cmp_total a b) as [[c ->]| ->]; simpl; eauto.
Qed.

Lemma run_up_total l : forall prev,
  (exists n, run_up prev l = Ok n) \/ run_up prev l = Raised TypeError.
Proof.
  induction l as [|x l IH]; intros prev; simpl; eauto.
  destruct (lt_total x prev) as [[r ->]| ->]; simpl; auto.
  destruct r; eauto.
  destruct (IH x) as [[n ->]| ->]; simpl; eauto.
Qed.

Lemma run_down_total l : forall prev,
  (exists n, run_down prev l = Ok n) \/ run_down prev l = Raised TypeError.
Proof.
  induction l as [|x l IH]; intros prev; simpl; eauto.
  destruct (lt_total x prev) as [[r ->]| ->]; simpl; auto.
  destruct r; eauto.
  destruct (IH x) as [[n ->]| ->]; simpl; eauto.
Qed.

Lemma count_run_total l :
  (exists r, count_run l = Ok r) \/ count_run l = Raised TypeError.
Proof.
  destruct l as [|x0 [|x1 l]]; simpl; eauto.
  destruct (lt_total x1 x0) as [[r ->]| ->]; simpl; auto.
  destruct r.
  - destruct (run_down_total l x1) as [[n ->]| ->]; simpl; eauto.
  - destruct (run_up_total l x1) as [[n ->]| ->]; simpl; eauto.
Qed.

Lemma bisect_total pivot : forall fuel seg,
  (exists n, bisect fuel pivot seg = Ok n)
  \/ bisect fuel pivot seg = Raised TypeError.
Proof.
  induction fuel as [|fuel IH]; intros seg; cbn [bisect]; eauto.
  destruct (skipn _ seg) as [|p upper]; eauto.
  destruct (lt_total pivot p) as [[r ->]| ->]; simpl; auto.
  destruct r; auto.
  destruct (IH upper) as [[n ->]| ->]; simpl; eauto.
Qed.

Lemma binarysort_total rest : forall a,
  (exists s, binarysort a rest = Ok s)
  \/ binarysort a rest = Raised TypeError.
Proof.
  induction rest as [|pivot rest IH]; intros a; simpl; eauto.
  unfold binary_insert.
  destruct (bisect_total pivot (List.length a) a) as [[n ->]| ->];
    simpl; auto.
Qed.

Lemma sorted_total l :
  (exists s, sorted l = Ok s) \/ sorted l = Raised TypeError.
Proof.
  unfold sorted. destruct (_ <? _)%nat; eauto.
  destruct (count_run_total l) as [[[n d] ->]| ->]; simpl; auto.
  apply binarysort_total.
Qed.

(** ** [Py.sorted] returns only on lists of one kind *)

Lemma kind_uniform x l : In x l -> kind_of x l -> uniform l.
Proof. intros _ K a b Ha Hb. rewrite (K a Ha), (K b Hb). reflexivity. Qed.

Lemma run_up_kind l : forall prev n,
  settled (prev :: l) -> run_up prev l = Ok n ->
  kind_of prev (firstn n l).
Proof.
  induction l as [|x l IH]; intros prev n S; simpl.
  - intros E. inversion E. intros y [].
  - destruct (lt x prev) as [b|] eqn:L; simpl; try discriminate.
    pose proof (lt_ok_class x prev b (S _ _ (or_intror (or_introl eq_refl))
                                        (or_introl eq_refl)) L) as C.
    destruct b.
    + intros E. inversion E. intros y [].
    + destruct (run_up x l) as [k|] eqn:R; simpl; try discriminate.
      intros E. inversion E; subst n. intros y [<-|Hy]; auto.
      rewrite <- C. eapply IH; eauto using settled_tail.
Qed.

Lemma run_down_kind l : forall prev n,
  settled (prev :: l) -> run_down prev l = Ok n ->
  kind_of prev (firstn n l).
Proof.
  induction l as [|x l IH]; intros prev n S; simpl.
  - intros E. inversion E. intros y [].
  - destruct (lt x prev) as [b|] eqn:L; simpl; try discriminate.
    pose proof (lt_ok_class x prev b (S _ _ (or_intror (or_introl eq_refl))
                                        (or_introl eq_refl)) L) as C.
    destruct b.
    + destruct (run_down x l) as [k|] eqn:R; simpl; try discriminate.
      intros E. inversion E; subst n. intros y [<-|Hy]; auto.
      rewrite <- C. eapply IH; eauto using settled_tail.
    + intros E. inversion E. intros y [].
Qed.

Lemma count_run_kind l x0 n d :
  settled (x0 :: l) -> count_run (x0 :: l) = Ok (n, d) ->
  kind_of x0 (firstn n (x0 :: l)) /\ (1 <= n)%nat.
Proof.
  intros S. destruct l as [|x1 l]; cbn [count_run].
  - intros E. inversion E; subst. split; auto.
    intros y [<-|[]]. reflexivity.
  - destruct (lt x1 x0) as [b|] eqn:L; simpl; try discriminate.
    pose proof (lt_ok_class x1 x0 b (S _ _ (or_intror (or_introl eq_refl))
                                       (or_introl eq_refl)) L) as C.
    destruct b.
    + destruct (run_down x1 l) as [k|] eqn:R; simpl; try discriminate.
      intros E. inversion E; subst. split; [|lia].
      intros y [<-|[<-|Hy]]; auto.
      rewrite <- C. eapply run_down_kind; eauto using settled_tail.
    + destruct (run_up x1 l) as [k|] eqn:R; simpl; try discriminate.
      intros E. inversion E; subst. split; [|lia].
      intros y [<-|[<-|Hy]]; auto.
      rewrite <- C. eapply run_up_kind; eauto using settled_tail.
Qed.

(** The search on a slice that is not empty compares the pivot with one
    of its elements. *)
Lemma bisect_kind pivot fuel seg n :
  seg <> [] -> (0 < fuel)%nat -> settled (pivot :: seg) ->
  bisect fuel pivot seg = Ok n ->
  exists p, In p seg /\ is_aware pivot = is_aware p.
Proof.
  intros N F S. destruct fuel as [|fuel]; [lia|]. cbn [bisect].
  destruct (probe_split seg N) as [p [upper [Ek [Eseg _]]]].
  rewrite Ek.
  assert (Ip : In p seg).
  { rewrite Eseg. apply in_or_app. right. left. reflexivity. }
  destruct (lt pivot p) as [b|] eqn:L; simpl; try discriminate.
  intros _. exists p. split; auto.
  eapply lt_ok_class; [|exact L]. apply S; simpl; auto.
Qed.

Lemma binarysort_kind x rest : forall a s,
  In x a -> kind_of x a -> settled (a ++ rest) ->
  binarysort a rest = Ok s -> kind_of x (a ++ rest).
Proof.
  induction rest as [|pivot rest IH]; simpl; intros a s Ix K S E.
  - rewrite app_nil_r. exact K.
  - destruct (binary_insert a pivot) as [a'|] eqn:B; simpl in E;
      try discriminate.
    pose proof (binary_insert_perm _ _ _ B) as P.
    assert (Kp : is_aware pivot = is_aware x).
    { unfold binary_insert in B.
      destruct (bisect (List.length a) pivot a) as [n|] eqn:Bi; simpl in B;
        try discriminate.
      destruct (bisect_kind pivot (List.length a) a n) as [p [Ip C]]; auto.
      - intros ->. destruct Ix.
      - destruct a; [destruct Ix|simpl; lia].
      - eapply settled_incl; [|exact S]. intros y [<-|Hy];
          apply in_or_app; simpl; auto.
      - rewrite C. apply K. exact Ip. }
    assert (K' : kind_of x (a' ++ rest)).
    { apply (IH a' s); auto.
      - eapply Permutation_in; [exact P|]. simpl; auto.
      - intros y Hy.
        apply (Permutation_in _ (Permutation_sym P)) in Hy.
        destruct Hy as [<-|Hy]; auto.
      - eapply settled_perm; [|exact S].
        rewrite <- P. rewrite <- Permutation_middle. auto. }
    intros y Hy. apply K'.
    eapply Permutation_in; [|exact Hy].
    rewrite <- P. rewrite <- Permutation_middle. auto.
Qed.

Lemma sorted_ok_uniform l s : settled l -> sorted l = Ok s -> uniform l.
Proof.
  intros S. unfold sorted.
  destruct (Nat.ltb_spec (List.length l) 2) as [L|L].
  - intros _ a b Ha Hb.
    destruct l as [|x [|y l]]; simpl in *; try lia; try tauto.
    destruct Ha as [<-|[]], Hb as [<-|[]]. reflexivity.
  - destruct l as [|x0 l]; [simpl in L; lia|].
    destruct (count_run (x0 :: l)) as [[n d]|] eqn:C; simpl;
      try discriminate.
    destruct (count_run_kind l x0 n d S C) as [K Ln].
    intros E.
    set (run := firstn n (x0 :: l)) in *.
    assert (Ir : In x0 run).
    { unfold run. destruct n; [lia|]. simpl. auto. }
    assert (P : Permutation (x0 :: l)
                  ((if d then rev run else run) ++ skipn n (x0 :: l))).
    { rewrite <- (firstn_skipn n (x0 :: l)) at 1.
      apply Permutation_app_tail. fold run.
      destruct d; auto. apply Permutation_rev. }
    apply (kind_uniform x0); [simpl; auto|].
    intros y Hy. apply (Permutation_in _ P) in Hy. revert y Hy.
    apply (binarysort_kind x0 _ _ s); auto.
    + destruct d; auto. apply in_rev. rewrite rev_involutive. exact Ir.
    + intros y Hy. apply K. destruct d; auto. apply in_rev in Hy. exact Hy.
    + eapply settled_perm; [exact P|exact S].
Qed.

(** A list holding a naive and an aware element cannot be sorted. *)
Lemma sorted_mixed l a b :
  settled l -> In a l -> In b l -> is_aware a <> is_aware b ->
  sorted l = Raised TypeError.
Proof.
  intros Hs Ha Hb N.
  destruct (sorted_total l) as [[s E]|E]; auto.
  exfalso. apply N. eapply sorted_ok_uniform; eauto.
Qed.

(** ** Order in time, on lists of one kind *)

Lemma non_decreasing_uniform l : non_decreasing l -> uniform l.
Proof.
  unfold non_decreasing.
  induction l as [|a l IH]; simpl.
  - intros _ x y [].
  - destruct l as [|b l].
    + intros _ x y [<-|[]] [<-|[]]. reflexivity.
    + intros [[Hab _] Hc]. apply (uniform_cons a b); simpl; auto.
Qed.

Lemma non_decreasing_chain l :
  non_decreasing l <-> uniform l /\ chain inst_le l.
Proof.
  split.
  - intros H. split; [apply non_decreasing_uniform; exact H|].
    revert H. apply chain_impl. intros a b _ _ [_ H]. exact H.
  - intros [U H]. revert H. apply chain_impl.
    intros a b Ha Hb H. split; auto.
Qed.

Lemma ascending_chain l :
  ascending l <-> uniform l /\ chain inst_lt l.
Proof.
  split.
  - intros H. split.
    + apply non_decreasing_uniform. revert H. apply chain_impl.
      intros a b _ _ [E L]. split; auto. unfold inst_le. lia.
    + revert H. apply chain_impl. intros a b _ _ [_ H]. exact H.
  - intros [U H]. revert H. apply chain_impl.
    intros a b Ha Hb H. split; auto.
Qed.

End SortFacts.

(** ** [set] and list equality *)

Module SetFacts.
Import Py Spec PyFacts OrderFacts SortFacts.

Lemma set_add_in seen x y :
  In y (set_add seen x) -> In y seen \/ y = x.
Proof.
  unfold set_add. destruct (existsb _ seen); auto.
  rewrite in_app_iff. simpl. intros [H|[H|[]]]; auto.
Qed.

Lemma set_fold_in l : forall acc y,
  In y (fold_left set_add l acc) -> In y acc \/ In y l.
Proof.
  induction l as [|x l IH]; simpl; auto.
  intros acc y H. apply IH in H. destruct H as [H|H]; auto.
  apply set_add_in in H. destruct H as [H| ->]; auto.
Qed.

Lemma list_set_in l y : In y (list_set l) -> In y l.
Proof. intros H. apply set_fold_in in H. destruct H as [[]|H]; auto. Qed.

Lemma set_add_keeps seen x y : In y seen -> In y (set_add seen x).
Proof.
  unfold set_add. destruct (existsb _ seen); auto.
  rewrite in_app_iff. auto.
Qed.

Lemma set_add_covers seen x : exists y, In y (set_add seen x) /\ eqb y x = true.
Proof.
  unfold set_add. destruct (existsb (fun y => eqb y x) seen) eqn:E.
  - apply existsb_exists in E. exact E.
  - exists x. rewrite in_app_iff. simpl. split; auto. apply eqb_refl.
Qed.

Lemma set_fold_keeps l : forall acc y,
  In y acc -> In y (fold_left set_add l acc).
Proof.
  induction l as [|x l IH]; simpl; auto.
  intros acc y H. apply IH, set_add_keeps, H.
Qed.

Lemma set_fold_covers l : forall acc x,
  In x l -> exists y, In y (fold_left set_add l acc) /\ eqb y x = true.
Proof.
  induction l as [|z l IH]; simpl; intros acc x []; subst.
  - destruct (set_add_covers acc x) as [y [Hy E]].
    exists y. split; auto. apply set_fold_keeps, Hy.
  - apply IH; auto.
Qed.

(** Every gathered element has an equal representative in the set. *)
Lemma list_set_covers l x :
  In x l -> exists y, In y (list_set l) /\ eqb y x = true.
Proof. apply set_fold_covers. Qed.

Lemma distinct_snoc acc x :
  distinct acc -> (forall y, In y acc -> eqb y x = false) ->
  distinct (acc ++ [x]).
Proof.
  induction acc as [|a acc IH]; simpl; intros D H.
  - split; constructor.
  - destruct D as [Fa D]. split.
    + apply Forall_app. split; auto.
    + apply IH; auto.
Qed.

Lemma set_add_distinct seen x : distinct seen -> distinct (set_add seen x).
Proof.
  intros D. unfold set_add.
  destruct (existsb (fun y => eqb y x) seen) eqn:E; auto.
  apply distinct_snoc; auto.
  intros y Hy. destruct (eqb y x) eqn:Ey; auto.
  assert (existsb (fun y => eqb y x) seen = true)
    by (apply existsb_exists; eauto).
  congruence.
Qed.

Lemma set_fold_distinct l : forall acc,
  distinct acc -> distinct (fold_left set_add l acc).
Proof.
  induction l; simpl; auto. intros. apply IHl, set_add_distinct; auto.
Qed.

Lemma list_set_distinct l : distinct (list_set l).
Proof. apply set_fold_distinct. simpl. exact I. Qed.

Lemma unambiguous_in l a : Forall unambiguous l -> In a l -> unambiguous a.
Proof. rewrite Forall_forall. auto. Qed.

Lemma unambiguous_incl l l' :
  (forall x, In x l' -> In x l) ->
  Forall unambiguous l -> Forall unambiguous l'.
Proof. rewrite !Forall_forall. auto. Qed.

(** On constructible values of one kind, in settled zones and with no
    offset that depends on [fold], distinct means distinct instants. *)
Lemma distinct_nodup l :
  all_valid l -> uniform l -> settled l -> Forall unambiguous l ->
  distinct l -> NoDup (map instant l).
Proof.
  induction l as [|a l IH]; simpl; intros V U S F D; constructor.
  - destruct D as [Fa _]. rewrite Forall_forall in Fa.
    rewrite in_map_iff. intros [b [E Hb]].
    specialize (Fa _ Hb).
    rewrite eqb_instant in Fa.
    + apply Z.eqb_neq in Fa. auto.
    + eapply all_valid_in; eauto; simpl; auto.
    + eapply all_valid_in; eauto; simpl; auto.
    + apply S; simpl; auto.
    + eapply unambiguous_in; eauto; simpl; auto.
    + eapply unambiguous_in; eauto; simpl; auto.
    + apply U; simpl; auto.
  - destruct D. inversion F.
    apply IH; eauto using all_valid_tail, uniform_tail, settled_tail.
Qed.

Lemma chain_lt_distinct l :
  all_valid l -> settled l -> chain inst_lt l -> distinct l.
Proof.
  induction l as [|a l IH]; intros V S C; simpl; auto. split.
  - pose proof (chain_lt_head _ _ C) as F.
    rewrite Forall_forall in *. intros b Hb.
    destruct (eqb a b) eqn:E; auto.
    apply eqb_true_instant in E.
    + specialize (F _ Hb). lia.
    + eapply all_valid_in; eauto; simpl; auto.
    + eapply all_valid_in; eauto; simpl; auto.
    + apply S; simpl; auto.
  - apply IH; eauto using all_valid_tail, settled_tail, chain_tail.
Qed.

(** [sorted(set(dates))] on constructible values of one kind, in settled
    zones and with no offset that depends on [fold]. *)
Lemma sorted_set_spec dates :
  all_valid dates -> uniform dates -> settled dates ->
  Forall unambiguous dates ->
  exists r,
    sorted (list_set dates) = Ok r
    /\ ascending r /\ distinct r
    /\ (forall d, In d r -> In d dates)
    /\ (forall d, In d dates -> exists d', In d' r /\ eqb d' d = true).
Proof.
  intros V U S F.
  pose proof (all_valid_incl _ _ (list_set_in dates) V) as Vs.
  pose proof (uniform_incl _ _ (list_set_in dates) U) as Us.
  pose proof (settled_incl _ _ (list_set_in dates) S) as Ss.
  pose proof (unambiguous_incl _ _ (list_set_in dates) F) as Fs.
  destruct (sorted_tame (list_set dates) (tame_intro _ Vs Us Ss))
    as [r [E [Or P]]].
  exists r.
  pose proof (all_valid_perm _ _ P Vs) as Vr.
  pose proof (uniform_perm _ _ P Us) as Ur.
  pose proof (settled_perm _ _ P Ss) as Sr.
  assert (C : chain inst_lt r).
  { apply chain_le_nodup; [|exact Or].
    eapply Permutation_NoDup; [apply Permutation_map, P|].
    apply distinct_nodup; auto. apply list_set_distinct. }
  split; [exact E|].
  split; [|split; [|split]].
  - apply ascending_chain. auto.
  - apply chain_lt_distinct; auto.
  - intros d Hd. apply list_set_in.
    eapply Permutation_in; [apply Permutation_sym, P|exact Hd].
  - intros d Hd. destruct (list_set_covers _ _ Hd) as [y [Hy Ey]].
    exists y. split; auto. eapply Permutation_in; eauto.
Qed.

(** However the elements of the set are listed, sorting gives one
    list. *)
Lemma sorted_set_order dates (listing : list datetime) :
  all_valid dates -> uniform dates -> settled dates ->
  Forall unambiguous dates ->
  Permutation (list_set dates) listing ->
  sorted listing = sorted (list_set dates).
Proof.
  intros V U S F P.
  pose proof (all_valid_incl _ _ (list_set_in dates) V) as Vs.
  pose proof (uniform_incl _ _ (list_set_in dates) U) as Us.
  pose proof (settled_incl _ _ (list_set_in dates) S) as Ss.
  pose proof (unambiguous_incl _ _ (list_set_in dates) F) as Fs.
  pose proof (tame_intro _ Vs Us Ss) as T.
  destruct (sorted_tame _ T) as [r [E [Or Pr]]].
  destruct (sorted_tame _ (tame_perm _ _ P T)) as [r' [E' [Or' Pr']]].
  rewrite E, E'. f_equal.
  assert (N : NoDup (map instant (list_set dates)))
    by (apply distinct_nodup; auto; apply list_set_distinct).
  apply ascending_unique.
  - rewrite <- Pr', <- Pr. apply Permutation_sym. exact P.
  - apply chain_le_nodup; auto.
    eapply Permutation_NoDup; [apply Permutation_map|exact N].
    rewrite <- Pr'. exact P.
  - apply chain_le_nodup; auto.
    eapply Permutation_NoDup; [apply Permutation_map, Pr|exact N].
Qed.

Lemma list_eqb_instants l : forall s,
  all_valid l -> all_valid s ->
  (forall a b, In a l -> In b s -> aligned a b) ->
  list_eqb l s = true ->
  map instant l = map instant s.
Proof.
  induction l as [|a l IH]; intros [|b s] Vl Vs Al H; simpl in *;
    try discriminate; auto.
  apply andb_prop in H. destruct H as [E H].
  inversion Vl; inversion Vs; subst.
  f_equal; auto.
  apply eqb_true_instant in E; auto. tauto.
Qed.

Lemma list_eqb_refl l : list_eqb l l = true.
Proof. induction l; simpl; auto. rewrite eqb_refl. auto. Qed.

End SetFacts.

(** ** Comparing dates, finding mismatches, validating sequences *)

Module DateParserFacts.
Import Py Spec DateParser PyFacts OrderFacts SortFacts SetFacts.

(** ** [compare_dates] *)

Lemma same_date_spec (a b : datetime) :
  same_date a b = true
  <-> year a = year b /\ month a = month b /\ day a = day b.
Proof.
  unfold same_date. rewrite !andb_true_iff, !Z.eqb_eq. tauto.
Qed.

Lemma same_date_sym (a b : datetime) : same_date a b = same_date b a.
Proof.
  unfold same_date.
  rewrite (Z.eqb_sym (year a)), (Z.eqb_sym (month a)), (Z.eqb_sym (day a)).
  reflexivity.
Qed.

(** With tolerance 0 the test never raises. *)
Lemma compare_dates_zero (a b : datetime) :
  compare_dates a b 0 = Ok (same_date a b).
Proof. reflexivity. Qed.

(** The half of the statement about tolerance 0: the test is true exactly
    on two values of one calendar day, it is reflexive and symmetric. *)
Lemma compare_dates_same_day (a b : datetime) :
  (compare_dates a b 0 = Ok true
   <-> year a = year b /\ month a = month b /\ day a = day b)
  /\ compare_dates a a 0 = Ok true
  /\ compare_dates a b 0 = compare_dates b a 0.
Proof.
  rewrite !compare_dates_zero. split; [|split].
  - split; intros H.
    + apply same_date_spec. congruence.
    + f_equal. apply same_date_spec. exact H.
  - f_equal. apply same_date_spec. auto.
  - f_equal. apply same_date_sym.
Qed.

Lemma ymd2ord_injective (a b : datetime) :
  valid_datetime a = true -> valid_datetime b = true ->
  toordinal a = toordinal b ->
  year a = year b /\ month a = month b /\ day a = day b.
Proof.
  intros Va Vb E. apply valid_spec in Va. apply valid_spec in Vb.
  unfold toordinal in E.
  destruct (Z.lt_trichotomy (year a) (year b)) as [L|[Ey|G]].
  - pose proof (ymd2ord_year_lt (year a) (month a) (day a)
                  (year b) (month b) (day b)
                  ltac:(lia) ltac:(lia) ltac:(lia) ltac:(lia) L). lia.
  - rewrite Ey in *.
    destruct (Z.lt_trichotomy (month a) (month b)) as [L|[Em|G]].
    + pose proof (ymd2ord_month_lt (year b) (month a) (day a) (month b) (day b)
                    ltac:(lia) ltac:(lia) ltac:(lia) ltac:(lia) L). lia.
    + rewrite Em in *. unfold ymd2ord in E. lia.
    + pose proof (ymd2ord_month_lt (year b) (month b) (day b) (month a) (day a)
                    ltac:(lia) ltac:(lia) ltac:(lia) ltac:(lia) G). lia.
  - pose proof (ymd2ord_year_lt (year b) (month b) (day b)
                  (year a) (month a) (day a)
                  ltac:(lia) ltac:(lia) ltac:(lia) ltac:(lia) G). lia.
Qed.

(** On constructible values, the same calendar day is zero days apart. *)
Lemma same_date_days_apart (a b : datetime) :
  valid_datetime a = true -> valid_datetime b = true ->
  same_date a b = (days_apart a b =? 0).
Proof.
  intros Va Vb. unfold days_apart, day_difference.
  destruct (same_date a b) eqn:E; symmetry.
  - apply same_date_spec in E. destruct E as [Ey [Em Ed]].
    apply Z.eqb_eq. unfold toordinal. rewrite Ey, Em, Ed. lia.
  - apply Z.eqb_neq. intros H.
    assert (T : toordinal a = toordinal b) by lia.
    apply (ymd2ord_injective a b Va Vb) in T.
    apply same_date_spec in T. congruence.
Qed.

Lemma days_apart_sym (a b : datetime) : days_apart a b = days_apart b a.
Proof. unfold days_apart, day_difference. lia. Qed.

Lemma days_window (x t : Z) :
  (Z.abs (days (timedelta_of_us x)) <=? t)
  = ((- t * US_PER_DAY <=? x) && (x <? (t + 1) * US_PER_DAY)).
Proof.
  unfold timedelta_of_us. simpl. change US_PER_DAY with 86400000000.
  destruct (Z.leb_spec (Z.abs (x / 86400000000)) t),
    (Z.leb_spec (- t * 86400000000) x),
    (Z.ltb_spec x ((t + 1) * 86400000000));
    simpl; try reflexivity; exfalso; zdiv.
Qed.

(** What the test does with a non-zero tolerance [t], on elapsed time:
    it accepts [a] from [t] whole days before [b] up to, but excluding,
    [t + 1] days after it. *)
Lemma compare_dates_window (a b : datetime) (t : Z) :
  aligned a b -> is_aware a = is_aware b -> t <> 0 ->
  compare_dates a b t
  = Ok ((- t * US_PER_DAY <=? instant a - instant b)
        && (instant a - instant b <? (t + 1) * US_PER_DAY)).
Proof.
  intros Al Hc Ht. unfold compare_dates.
  destruct (Z.eqb_spec t 0); [contradiction|].
  rewrite (sub_spec _ _ Al Hc). unfold bind. f_equal. apply days_window.
Qed.

Lemma compare_dates_mixed (a b : datetime) (t : Z) :
  same_tzinfo a b = false -> is_aware a <> is_aware b -> t <> 0 ->
  compare_dates a b t = Raised TypeError.
Proof.
  intros Hs Hc Ht. unfold compare_dates.
  destruct (Z.eqb_spec t 0); [contradiction|].
  rewrite (sub_mixed _ _ Hs Hc). reflexivity.
Qed.

(** Midnight and noon of the next day are one calendar day apart, and a
    day and a half in elapsed time. *)
Lemma noon_after_is_a_day_apart :
  days_apart (midnight 2020 1 1) (naive 2020 1 2 12 0 0) = 1
  /\ instant (naive 2020 1 2 12 0 0) - instant (midnight 2020 1 1)
     = US_PER_DAY + US_PER_DAY / 2.
Proof. split; vm_compute; reflexivity. Qed.

(** C4, at the input where it fails.  [compare_dates] takes [.days] of
    the difference, which rounds towards minus infinity, before [abs]:
    with tolerance 1 it rejects midnight of 1 January against noon of
    2 January and accepts the same two dates in the other order.  So it
    is true "exactly when the absolute day-difference is at most 1" for
    no day-difference [D] that is the same in both orders. *)
Theorem compare_dates_tolerance_not_symmetric
    (D : datetime -> datetime -> Z) :
  (forall a b, D a b = D b a) ->
  compare_dates (midnight 2020 1 1) (naive 2020 1 2 12 0 0) 1 = Ok false
  /\ compare_dates (naive 2020 1 2 12 0 0) (midnight 2020 1 1) 1 = Ok true
  /\ ~ (forall a b,
          valid_datetime a = true -> valid_datetime b = true ->
          (compare_dates a b 1 = Ok true <-> D a b <= 1)).
Proof.
  intros Sym.
  assert (F : compare_dates (midnight 2020 1 1) (naive 2020 1 2 12 0 0) 1
              = Ok false) by (vm_compute; reflexivity).
  assert (T : compare_dates (naive 2020 1 2 12 0 0) (midnight 2020 1 1) 1
              = Ok true) by (vm_compute; reflexivity).
  split; [exact F|]. split; [exact T|].
  intros H.
  assert (Va : valid_datetime (midnight 2020 1 1) = true) by reflexivity.
  assert (Vb : valid_datetime (naive 2020 1 2 12 0 0) = true) by reflexivity.
  pose proof (proj1 (H _ _ Vb Va) T) as L.
  rewrite Sym in L.
  pose proof (proj2 (H _ _ Va Vb) L) as C.
  rewrite F in C. discriminate.
Qed.

Lemma compare_dates_tolerance_not_symmetric_witness :
  compare_dates (midnight 2020 1 1) (naive 2020 1 2 12 0 0) 1 = Ok false
  /\ compare_dates (naive 2020 1 2 12 0 0) (midnight 2020 1 1) 1 = Ok true
  /\ ~ (forall a b,
          valid_datetime a = true -> valid_datetime b = true ->
          (compare_dates a b 1 = Ok true <-> days_apart a b <= 1)).
Proof.
  apply (compare_dates_tolerance_not_symmetric days_apart).
  intros a b. unfold days_apart, day_difference. lia.
Defined.

(** ** [find_date_mismatches] *)

Lemma same_clock_sym (a b : datetime) : same_clock a b -> same_clock b a.
Proof.
  unfold same_clock. rewrite (same_tzinfo_sym b a).
  intros [H [M [S [U [T|T]]]]]; repeat split; auto.
Qed.

Lemma days_of_whole (n : Z) : days (timedelta_of_us (n * US_PER_DAY)) = n.
Proof.
  unfold timedelta_of_us. simpl. change US_PER_DAY with 86400000000.
  apply Z.div_mul. lia.
Qed.

(** Two values of one clock are a whole number of days apart: the number
    of calendar days between them. *)
Lemma sub_same_clock (a b : datetime) :
  same_clock a b ->
  sub a b = Ok (timedelta_of_us (day_difference a b * US_PER_DAY)).
Proof.
  intros [H [M [S [U T]]]]. unfold sub. rewrite base_of_us.
  assert (E : local_us a - local_us b = day_difference a b * US_PER_DAY).
  { rewrite !local_us_eq, H, M, S, U. unfold day_difference.
    change US_PER_DAY with 86400000000. lia. }
  rewrite E.
  destruct (same_tzinfo a b); [reflexivity|].
  destruct T as [T|T]; [discriminate|].
  rewrite T, offsets_equal_refl. reflexivity.
Qed.

Lemma compare_dates_same_clock (e f : datetime) (t : Z) :
  valid_datetime e = true -> valid_datetime f = true -> same_clock e f ->
  compare_dates e f t = Ok (negb (outside_tolerance e t f)).
Proof.
  intros Ve Vf C. unfold compare_dates, outside_tolerance.
  destruct (Z.eqb_spec t 0) as [->|Ht].
  - rewrite (same_date_days_apart e f Ve Vf). f_equal.
    unfold days_apart.
    destruct (Z.eqb_spec (Z.abs (day_difference e f)) 0),
      (Z.ltb_spec 0 (Z.abs (day_difference e f))); simpl; auto; lia.
  - rewrite (sub_same_clock e f C). unfold bind. rewrite days_of_whole.
    f_equal. unfold days_apart.
    destruct (Z.leb_spec (Z.abs (day_difference e f)) t),
      (Z.ltb_spec t (Z.abs (day_difference e f))); simpl; auto; lia.
Qed.

Lemma mismatch_step_spec (e : datetime) (t : Z) acc (f : datetime) :
  valid_datetime e = true -> valid_datetime f = true -> same_clock e f ->
  mismatch_step e t acc f
  = Ok (acc ++ if outside_tolerance e t f then [discrepancy e f] else []).
Proof.
  intros Ve Vf C. unfold mismatch_step.
  rewrite (compare_dates_same_clock e f t Ve Vf C). unfold bind at 1.
  rewrite negb_involutive.
  destruct (outside_tolerance e t f).
  - rewrite (sub_same_clock f e (same_clock_sym _ _ C)). unfold bind.
    rewrite days_of_whole. reflexivity.
  - rewrite app_nil_r. reflexivity.
Qed.

Lemma for_each_mismatches (e : datetime) (t : Z) fs : forall acc,
  valid_datetime e = true ->
  (forall f, In f fs -> valid_datetime f = true /\ same_clock e f) ->
  for_each (mismatch_step e t) acc fs
  = Ok (acc ++ map (discrepancy e) (filter (outside_tolerance e t) fs)).
Proof.
  induction fs as [|f fs IH]; intros acc Ve H; simpl.
  - rewrite app_nil_r. reflexivity.
  - destruct (H f) as [Vf C]; [simpl; auto|].
    rewrite (mismatch_step_spec e t acc f Ve Vf C). unfold bind.
    rewrite IH by (auto; intros; apply H; simpl; auto).
    rewrite <- app_assoc. destruct (outside_tolerance e t f); reflexivity.
Qed.

(** C5, amended.  When every found date shows the same time of day as
    the expected date and is of the same time zone (the same [tzinfo]
    object or UTC offset, or none on either side), as dates without a time
    of day are, [find_date_mismatches] returns, in the order of the found
    dates, one discrepancy for each found date that is more than
    [tolerance_days] calendar days away from the expected date, each with
    [difference_days] the signed number of calendar days from the expected
    date to the found one. *)
Theorem find_date_mismatches_spec
    (expected_date : datetime) (found_dates : list datetime)
    (tolerance_days : Z) :
  valid_datetime expected_date = true ->
  (forall f, In f found_dates ->
             valid_datetime f = true /\ same_clock expected_date f) ->
  exists ms,
    find_date_mismatches expected_date found_dates tolerance_days = Ok ms
    /\ map found ms
       = filter (outside_tolerance expected_date tolerance_days) found_dates
    /\ forall m, In m ms ->
         expected m = expected_date
         /\ difference_days m = day_difference (found m) expected_date.
Proof.
  intros Ve H. unfold find_date_mismatches.
  rewrite for_each_mismatches by auto. simpl.
  eexists. split; [reflexivity|]. split.
  - rewrite map_map. simpl. apply map_id.
  - intros m Hm. apply in_map_iff in Hm. destruct Hm as [f [<- Hf]].
    simpl. auto.
Qed.

(** The example of the design document. *)
Lemma find_date_mismatches_example :
  find_date_mismatches (midnight 2020 1 1) [midnight 2020 1 2] 0
  = Ok [Mismatch (midnight 2020 1 1) (midnight 2020 1 2) 1
                 "01/01/2020" "02/01/2020"].
Proof. vm_compute. reflexivity. Qed.

Lemma find_date_mismatches_spec_witness :
  exists ms,
    find_date_mismatches (midnight 2020 1 1) [midnight 2020 1 2] 0 = Ok ms
    /\ map found ms
       = filter (outside_tolerance (midnight 2020 1 1) 0) [midnight 2020 1 2]
    /\ forall m, In m ms ->
         expected m = midnight 2020 1 1
         /\ difference_days m = day_difference (found m) (midnight 2020 1 1).
Proof.
  apply (find_date_mismatches_spec (midnight 2020 1 1) [midnight 2020 1 2] 0).
  - reflexivity.
  - intros f [<-|[]]. split; [reflexivity|].
    unfold same_clock. simpl. tauto.
Defined.

(** C5 as stated fails on a naive expected date and an aware found date of
    another day: the found date does not match, and no list is returned. *)
Lemma find_date_mismatches_mixed_raises :
  outside_tolerance (midnight 2020 1 1) 0 (aware 2020 1 2 0 0 0 0) = true
  /\ find_date_mismatches (midnight 2020 1 1) [aware 2020 1 2 0 0 0 0] 0
     = Raised TypeError.
Proof. split; vm_compute; reflexivity. Qed.

(** Where the found dates carry a time of day, the rounding of
    [compare_dates] shows: with tolerance 1 and midnight of 1 January
    expected, noon of 2 January (one calendar day later) is reported and
    noon of 30 December (two calendar days earlier) is not; with tolerance
    0, midnight of the next day is reported against noon with a
    [difference_days] of 0. *)
Lemma find_date_mismatches_time_of_day :
  find_date_mismatches (midnight 2020 1 1)
    [naive 2020 1 2 12 0 0; naive 2019 12 30 12 0 0] 1
  = Ok [Mismatch (midnight 2020 1 1) (naive 2020 1 2 12 0 0) 1
                 "01/01/2020" "02/01/2020"]
  /\ filter (outside_tolerance (midnight 2020 1 1) 1)
       [naive 2020 1 2 12 0 0; naive 2019 12 30 12 0 0]
     = [naive 2019 12 30 12 0 0]
  /\ find_date_mismatches (naive 2020 1 1 12 0 0) [midnight 2020 1 2] 0
     = Ok [Mismatch (naive 2020 1 1 12 0 0) (midnight 2020 1 2) 0
                    "01/01/2020" "02/01/2020"].
Proof. repeat split; vm_compute; reflexivity. Qed.

(** ** [validate_date_sequence] *)

(** C6, amended.  On a list of constructible datetimes in which any two
    values that carry the same [tzinfo] object also carry the same UTC
    offset (all naive values, or values of fixed-offset zones, for
    instance), [validate_date_sequence] returns [True] if and only if the
    list is in non-decreasing order of time; the empty list and every
    one-element list are in order. *)
Theorem validate_date_sequence_spec (dates : list datetime) :
  all_valid dates -> settled dates ->
  (validate_date_sequence dates = Ok true <-> non_decreasing dates).
Proof.
  intros V S. unfold validate_date_sequence.
  destruct (Nat.leb_spec (List.length dates) 1) as [L|L].
  - split; auto. intros _.
    destruct dates as [|a [|b l]]; try exact I.
    simpl in L. lia.
  - rewrite non_decreasing_chain. split.
    + destruct (sorted dates) as [s|] eqn:E; simpl; [|discriminate].
      intros H. assert (Hq : list_eqb dates s = true) by congruence.
      pose proof (sorted_ok_uniform _ _ S E) as U.
      split; [exact U|].
      destruct (sorted_tame dates (tame_intro _ V U S)) as [s' [E' [Os P]]].
      assert (s' = s) by congruence. subst s'.
      apply (chain_map_instant dates s); [|exact Os].
      apply list_eqb_instants; auto.
      * eapply all_valid_perm; [exact P|exact V].
      * intros a b Ha Hb. apply S; auto.
        eapply Permutation_in; [apply Permutation_sym; exact P|exact Hb].
    + intros [U N].
      rewrite (sorted_fixed dates (tame_intro _ V U S) N). simpl.
      rewrite list_eqb_refl. reflexivity.
Qed.

Lemma validate_date_sequence_spec_witness :
  validate_date_sequence
    [aware 2020 1 1 0 30 0 3600; aware 2020 1 1 0 0 0 0;
     aware 2020 1 1 0 0 0 0] = Ok true
  <-> non_decreasing
        [aware 2020 1 1 0 30 0 3600; aware 2020 1 1 0 0 0 0;
         aware 2020 1 1 0 0 0 0].
Proof.
  apply (validate_date_sequence_spec
           [aware 2020 1 1 0 30 0 3600; aware 2020 1 1 0 0 0 0;
            aware 2020 1 1 0 0 0 0]).
  - repeat constructor.
  - intros a b Ha Hb. simpl in Ha, Hb.
    destruct Ha as [<-|[<-|[<-|[]]]], Hb as [<-|[<-|[<-|[]]]];
      intros E; try reflexivity; vm_compute in E; discriminate.
Defined.

(** C6 as stated fails on two values of one zone around a clock change.
    At 01:30 before the clocks go back and at 01:15 after, the list is in
    order of time (00:30 and 01:15 UTC), yet the two are compared by
    their wall clocks and the answer is [False]. *)
Lemma validate_date_sequence_clock_change :
  all_valid [london 2020 10 25 1 30 0 false; london 2020 10 25 1 15 0 true]
  /\ non_decreasing
       [london 2020 10 25 1 30 0 false; london 2020 10 25 1 15 0 true]
  /\ validate_date_sequence
       [london 2020 10 25 1 30 0 false; london 2020 10 25 1 15 0 true]
     = Ok false.
Proof.
  split; [repeat constructor|].
  split; [|vm_compute; reflexivity].
  unfold non_decreasing, chain, not_after.
  split; [|exact I]. split; [reflexivity|]. vm_compute. discriminate.
Qed.

Lemma validate_date_sequence_short (a : datetime) :
  validate_date_sequence [] = Ok true /\ validate_date_sequence [a] = Ok true.
Proof. split; reflexivity. Qed.

Lemma validate_date_sequence_examples :
  validate_date_sequence [midnight 2020 1 2; midnight 2020 1 1] = Ok false
  /\ validate_date_sequence [midnight 2020 1 1; aware 2020 1 2 0 0 0 0]
     = Raised TypeError.
Proof. split; vm_compute; reflexivity. Qed.

End DateParserFacts.

(** ** Extraction *)

Local Open Scope string_scope.
Local Open Scope Z_scope.
Local Open Scope py_scope.

Module ExtractFacts.
Import Py Spec DateParser PyFacts OrderFacts SortFacts SetFacts.

Section Extraction.
Variable p : string -> parsed.

(** ** [parse_date p] *)

Lemma parse_date_some (s : string) (d : datetime) :
  parse_date p s = Some d -> p s = Parsed d /\ plausible d.
Proof.
  unfold parse_date, plausible.
  destruct (p s) as [| |d']; try discriminate.
  destruct (Z.leb_spec 1800 (year d')), (Z.leb_spec (year d') 2100);
    simpl; try discriminate.
  intros E. inversion E; subst. auto.
Qed.

Lemma parse_date_none (s : string) :
  parse_date p s = None
  <-> forall d, p s = Parsed d -> ~ plausible d.
Proof.
  unfold parse_date, plausible.
  destruct (p s) as [| |d']; split; intros H;
    try reflexivity; try (intros d E; discriminate).
  - intros d E. inversion E; subst d'.
    destruct (Z.leb_spec 1800 (year d)), (Z.leb_spec (year d) 2100);
      simpl in H; try discriminate; lia.
  - destruct (Z.leb_spec 1800 (year d')), (Z.leb_spec (year d') 2100);
      simpl; auto.
    exfalso. apply (H d'); auto.
Qed.

Lemma keep_parsed_in (cands : list string) (d : datetime) :
  In d (keep_parsed p cands) <-> exists s, In s cands /\ parse_date p s = Some d.
Proof.
  induction cands as [|s cands IH]; simpl.
  - split; [intros []|intros [s [[] _]]].
  - destruct (parse_date p s) as [d'|] eqn:E;
      simpl; rewrite ?IH; split.
    + intros [<-|[s' [Hs Hp]]]; eauto.
    + intros [s' [[<-|Hs] Hp]]; eauto. left. congruence.
    + intros [s' [Hs Hp]]; eauto.
    + intros [s' [[<-|Hs] Hp]]; eauto. congruence.
Qed.

Lemma keep_parsed_plausible (cands : list string) (d : datetime) :
  In d (keep_parsed p cands) -> plausible d.
Proof.
  rewrite keep_parsed_in. intros [s [_ H]]. apply parse_date_some in H. tauto.
Qed.

Lemma gathered_plausible text context (d : datetime) :
  In d (gathered p text context) -> plausible d.
Proof.
  unfold gathered, _extract_with_context, _extract_all_dates.
  rewrite in_app_iff. intros [H|H].
  - destruct (known_context context); [|contradiction].
    eapply keep_parsed_plausible; eauto.
  - eapply keep_parsed_plausible; eauto.
Qed.

Lemma extract_dates_in text context r (d : datetime) :
  extract_dates p text context = Ok r -> In d r -> In d (gathered p text context).
Proof.
  unfold extract_dates. intros E H.
  apply list_set_in. apply sorted_ok_perm in E.
  eapply Permutation_in; [apply Permutation_sym; exact E|exact H].
Qed.

(** ** [extract_dates p]: what the claim says, where the dates compare *)

(** When the gathered dates are constructible and of one kind (all naive,
    or all aware), values of one [tzinfo] object carry one offset and no
    offset depends on [fold], [extract_dates p] returns them in strictly
    ascending order: sorted, with no two equal, nothing added and nothing
    lost. *)
Lemma extract_dates_sorted_distinct text context :
  all_valid (gathered p text context) -> uniform (gathered p text context) ->
  settled (gathered p text context) ->
  Forall unambiguous (gathered p text context) ->
  exists r,
    extract_dates p text context = Ok r
    /\ ascending r /\ distinct r
    /\ (forall d, In d r -> In d (gathered p text context))
    /\ (forall d, In d (gathered p text context) ->
          exists d', In d' r /\ eqb d' d = true).
Proof. apply sorted_set_spec. Qed.

(** The order in which [set] lists its elements does not show in the
    result. *)
Lemma extract_dates_set_order text context (listing : list datetime) :
  all_valid (gathered p text context) -> uniform (gathered p text context) ->
  settled (gathered p text context) ->
  Forall unambiguous (gathered p text context) ->
  Permutation (list_set (gathered p text context)) listing ->
  sorted listing = extract_dates p text context.
Proof. apply sorted_set_order. Qed.

(** A naive and an aware date among the gathered ones make the sort
    raise. *)
Lemma extract_dates_mixed text context (a b : datetime) :
  settled (gathered p text context) ->
  In a (gathered p text context) -> In b (gathered p text context) ->
  is_aware a <> is_aware b ->
  extract_dates p text context = Raised TypeError.
Proof.
  intros S Ha Hb N. unfold extract_dates.
  destruct (list_set_covers _ _ Ha) as [a' [Ha' Ea]].
  destruct (list_set_covers _ _ Hb) as [b' [Hb' Eb]].
  apply (sorted_mixed _ a' b'); auto.
  - eapply settled_incl; [apply list_set_in|exact S].
  - rewrite (eqb_true_class a' a), (eqb_true_class b' b); auto;
      apply S; auto using list_set_in.
Qed.

End Extraction.

(** ** Pattern matches on the example texts *)

Lemma incorporation_example_spans :
  context_candidates "Date of incorporation: 04/03/1998" INCORPORATION
  = ["04/03/1998"]
  /\ generic_candidates "Date of incorporation: 04/03/1998" = ["04/03/1998"].
Proof. split; vm_compute; reflexivity. Qed.

Lemma zoned_example_spans :
  context_candidates "Incorporated on: January 12, 2012 10:00 PM EST"
                     INCORPORATION
  = ["January 12, 2012 10:00 PM EST"]
  /\ generic_candidates "Incorporated on: January 12, 2012 10:00 PM EST"
     = ["January 12, 2012"].
Proof. split; vm_compute; reflexivity. Qed.

Lemma far_future_spans (c : string) :
  generic_candidates "31/12/9999" = ["31/12/9999"]
  /\ context_candidates "31/12/9999"
       match lookup c CONTEXT_PATTERNS with
       | Some ps => ps
       | None => []
       end = [].
Proof.
  split; [vm_compute; reflexivity|].
  unfold CONTEXT_PATTERNS. cbn [lookup].
  repeat match goal with
         | |- context [String.eqb c ?k] => destruct (String.eqb c k)
         end; vm_compute; reflexivity.
Qed.

End ExtractFacts.

(** ** Extraction: the statements of the design document *)

Module ExtractClaims.
Import Py Spec DateParser PyFacts OrderFacts SortFacts SetFacts ExtractFacts.

Lemma known_incorporation :
  known_context (Some "incorporation") = Some "incorporation".
Proof. reflexivity. Qed.

Lemma gathered_incorporation (p : string -> parsed) (text : string) :
  gathered p text (Some "incorporation")
  = (keep_parsed p (context_candidates text INCORPORATION)
     ++ keep_parsed p (generic_candidates text))%list.
Proof. reflexivity. Qed.

(** C1, at the input where it fails.  On the text
    ["Incorporated on: January 12, 2012 10:00 PM EST"] with context
    ["incorporation"], the context pattern hands the parser the span with
    its zone and the generic pattern hands it the bare date.  Whenever the
    parser answers the first with an aware datetime and the second with a
    naive one (which does not carry the [tzinfo] object of the first: as a
    rule it carries none), both of a plausible year, [extract_dates]
    returns no list: sorting the two raises [TypeError]. *)
Theorem extract_dates_zoned_span_raises
    (p : string -> parsed) (zoned bare : datetime) :
  p "January 12, 2012 10:00 PM EST" = Parsed zoned ->
  p "January 12, 2012" = Parsed bare ->
  plausible zoned -> plausible bare ->
  is_aware zoned = true -> is_aware bare = false ->
  same_tzinfo zoned bare = false ->
  extract_dates p "Incorporated on: January 12, 2012 10:00 PM EST"
                (Some "incorporation")
  = Raised TypeError.
Proof.
  intros Hz Hb Pz Pb Az Ab Nt.
  assert (Ez : parse_date p "January 12, 2012 10:00 PM EST" = Some zoned).
  { unfold parse_date, plausible in *. rewrite Hz.
    destruct (Z.leb_spec 1800 (year zoned)), (Z.leb_spec (year zoned) 2100);
      simpl; auto; lia. }
  assert (Eb : parse_date p "January 12, 2012" = Some bare).
  { unfold parse_date, plausible in *. rewrite Hb.
    destruct (Z.leb_spec 1800 (year bare)), (Z.leb_spec (year bare) 2100);
      simpl; auto; lia. }
  assert (G : gathered p "Incorporated on: January 12, 2012 10:00 PM EST"
                       (Some "incorporation") = [zoned; bare]).
  { rewrite gathered_incorporation.
    rewrite (proj1 zoned_example_spans), (proj2 zoned_example_spans).
    cbn [keep_parsed app]. rewrite Ez, Eb. reflexivity. }
  apply (extract_dates_mixed p _ _ zoned bare).
  - rewrite G. intros a b [<-|[<-|[]]] [<-|[<-|[]]] E;
      try reflexivity; try congruence.
    rewrite same_tzinfo_sym in E. congruence.
  - rewrite G. left. reflexivity.
  - rewrite G. right. left. reflexivity.
  - rewrite Az, Ab. discriminate.
Qed.

Lemma extract_dates_zoned_span_raises_witness :
  extract_dates (table_parser SAMPLE_ANSWERS)
                "Incorporated on: January 12, 2012 10:00 PM EST"
                (Some "incorporation")
  = Raised TypeError.
Proof.
  apply (extract_dates_zoned_span_raises (table_parser SAMPLE_ANSWERS)
           (aware 2012 1 12 22 0 0 (-18000)) (midnight 2012 1 12));
    try reflexivity; unfold plausible; simpl; lia.
Defined.

(** C2.  If the parser reads ["04/03/1998"] day-first, as 4 March 1998,
    then [extract_dates] on ["Date of incorporation: 04/03/1998"] with
    context ["incorporation"] returns exactly that one date, although the
    context pattern and the generic numeric pattern both yield the span. *)
Theorem extract_dates_incorporation_example (p : string -> parsed) :
  p "04/03/1998" = Parsed (midnight 1998 3 4) ->
  extract_dates p "Date of incorporation: 04/03/1998" (Some "incorporation")
  = Ok [midnight 1998 3 4]
  /\ context_candidates "Date of incorporation: 04/03/1998" INCORPORATION
     = ["04/03/1998"]
  /\ generic_candidates "Date of incorporation: 04/03/1998" = ["04/03/1998"].
Proof.
  intros H. split; [|exact incorporation_example_spans].
  unfold extract_dates. rewrite gathered_incorporation.
  rewrite (proj1 incorporation_example_spans),
          (proj2 incorporation_example_spans).
  cbn [keep_parsed app]. unfold parse_date. rewrite H.
  vm_compute. reflexivity.
Qed.

Lemma extract_dates_incorporation_example_witness :
  extract_dates (table_parser SAMPLE_ANSWERS)
                "Date of incorporation: 04/03/1998" (Some "incorporation")
  = Ok [midnight 1998 3 4]
  /\ context_candidates "Date of incorporation: 04/03/1998" INCORPORATION
     = ["04/03/1998"]
  /\ generic_candidates "Date of incorporation: 04/03/1998" = ["04/03/1998"].
Proof.
  apply (extract_dates_incorporation_example (table_parser SAMPLE_ANSWERS)).
  reflexivity.
Defined.

(** C3.  [parse_date] answers [None] for every string the parser reads
    as a date of a year outside 1800..2100; no date of the year 9999 is
    ever in a result of [extract_dates]; and when the parser's reading of
    ["31/12/9999"] is outside the range, [extract_dates] on that text
    returns the empty list under every context, the span being matched by
    the generic numeric pattern. *)
Theorem parse_date_drops_implausible (p : string -> parsed) :
  (forall s d, p s = Parsed d -> ~ plausible d -> parse_date p s = None)
  /\ (forall text context r d,
        extract_dates p text context = Ok r -> In d r -> year d <> 9999)
  /\ ((forall d, p "31/12/9999" = Parsed d -> ~ plausible d) ->
      generic_candidates "31/12/9999" = ["31/12/9999"]
      /\ forall context, extract_dates p "31/12/9999" context = Ok []).
Proof.
  split; [|split].
  - intros s d E N. apply parse_date_none. intros d' E'.
    assert (d' = d) by congruence. subst. exact N.
  - intros text context r d E H.
    apply (extract_dates_in p _ _ _ _ E) in H.
    apply gathered_plausible in H. unfold plausible in H. lia.
  - intros H. split; [exact (proj1 (far_future_spans ""))|].
    intros context.
    assert (N : parse_date p "31/12/9999" = None)
      by (apply parse_date_none; exact H).
    unfold extract_dates, gathered, _extract_all_dates.
    rewrite (proj1 (far_future_spans "")).
    cbn [keep_parsed]. rewrite N.
    destruct (known_context context) as [c|]; [|reflexivity].
    unfold _extract_with_context.
    rewrite (proj2 (far_future_spans c)). reflexivity.
Qed.

Lemma parse_date_drops_implausible_witness :
  parse_date (table_parser SAMPLE_ANSWERS) "31/12/9999" = None
  /\ extract_dates (table_parser SAMPLE_ANSWERS) "31/12/9999" (Some "filing")
     = Ok [].
Proof.
  split.
  - apply (proj1 (parse_date_drops_implausible (table_parser SAMPLE_ANSWERS))
             "31/12/9999" (midnight 9999 12 31)).
    + reflexivity.
    + unfold plausible. simpl. lia.
  - apply (proj2 (proj2 (parse_date_drops_implausible
                           (table_parser SAMPLE_ANSWERS)))).
    intros d E. vm_compute in E. inversion E; subst.
    unfold plausible. simpl. lia.
Defined.

(** The out-of-range span next to a good one: only the good one comes
    back. *)
Lemma extract_dates_far_future_among_others (p : string -> parsed) :
  (forall d, p "31/12/9999" = Parsed d -> ~ plausible d) ->
  p "01/02/2003" = Parsed (midnight 2003 2 1) ->
  extract_dates p "Dissolved 31/12/9999, restored 01/02/2003" None
  = Ok [midnight 2003 2 1].
Proof.
  intros H1 H2.
  assert (N : parse_date p "31/12/9999" = None)
    by (apply parse_date_none; exact H1).
  unfold extract_dates, gathered, _extract_all_dates.
  replace (generic_candidates "Dissolved 31/12/9999, restored 01/02/2003")
    with ["31/12/9999"; "01/02/2003"] by (vm_compute; reflexivity).
  cbn [keep_parsed]. rewrite N. unfold parse_date. rewrite H2.
  vm_compute. reflexivity.
Qed.

(** ** Ranges and mismatches stay within the plausible years *)

Lemma keep_ranges_plausible (p : string -> parsed) (ms : list Re.rematch) :
  Forall (fun rg => plausible (start_date rg) /\ plausible (end_date rg))
         (keep_ranges p ms).
Proof.
  induction ms as [|m ms IH]; cbn [keep_ranges]; [constructor|].
  destruct (parse_date p (Text.strip (Re.group m 1))) as [s|] eqn:Es; auto.
  destruct (parse_date p (Text.strip (Re.group m 2))) as [e|] eqn:Ee; auto.
  constructor; auto. cbn [start_date end_date].
  apply parse_date_some in Es. apply parse_date_some in Ee. tauto.
Qed.

Lemma mismatch_step_found (e : datetime) (t : Z) acc f acc' :
  mismatch_step e t acc f = Ok acc' ->
  forall m, In m acc' -> In m acc \/ found m = f.
Proof.
  unfold mismatch_step.
  destruct (compare_dates e f t) as [[|]|]; simpl; try discriminate.
  - intros E. inversion E; subst. auto.
  - destruct (sub f e) as [d|]; simpl; try discriminate.
    intros E. inversion E; subst. intros m Hm.
    apply in_app_or in Hm. destruct Hm as [Hm|[<-|[]]]; auto.
Qed.

Lemma for_each_found (e : datetime) (t : Z) fs : forall acc ms,
  for_each (mismatch_step e t) acc fs = Ok ms ->
  forall m, In m ms -> In m acc \/ In (found m) fs.
Proof.
  induction fs as [|f fs IH]; simpl; intros acc ms E m Hm.
  - inversion E; subst. auto.
  - destruct (mismatch_step e t acc f) as [acc'|] eqn:S; simpl in E;
      try discriminate.
    destruct (IH _ _ E m Hm) as [H|H]; auto.
    destruct (mismatch_step_found _ _ _ _ _ S m H) as [H'|H']; subst; auto.
Qed.

(** C10.  [parse_date] answers [None] or a datetime for every string, the
    parser raising included, and a datetime it answers has its year in
    1800..2100.  Hence every date returned by [extract_dates], both ends
    of every range returned by [extract_date_ranges], and the found date
    of every discrepancy [find_date_mismatches] reports on dates that
    [extract_dates] returned, lie in that range. *)
Theorem parse_date_total_and_plausible (p : string -> parsed) :
  (forall s, parse_date p s = None
             \/ exists d, parse_date p s = Some d /\ plausible d)
  /\ (forall s, p s = ParserRaised -> parse_date p s = None)
  /\ (forall text context r,
        extract_dates p text context = Ok r -> Forall plausible r)
  /\ (forall text,
        Forall (fun rg => plausible (start_date rg) /\ plausible (end_date rg))
               (extract_date_ranges p text))
  /\ (forall text context r expected_date tolerance_days ms,
        extract_dates p text context = Ok r ->
        find_date_mismatches expected_date r tolerance_days = Ok ms ->
        Forall (fun m => plausible (found m)) ms).
Proof.
  split; [|split; [|split; [|split]]].
  - intros s. destruct (parse_date p s) as [d|] eqn:E; auto.
    right. exists d. split; auto. apply parse_date_some in E. tauto.
  - intros s E. unfold parse_date. rewrite E. reflexivity.
  - intros text context r E. apply Forall_forall. intros d H.
    apply (extract_dates_in p _ _ _ _ E) in H.
    eapply gathered_plausible; eauto.
  - intros text. apply keep_ranges_plausible.
  - intros text context r e t ms E F. apply Forall_forall. intros m Hm.
    destruct (for_each_found _ _ _ _ _ F m Hm) as [[]|H].
    apply (extract_dates_in p _ _ _ _ E) in H.
    eapply gathered_plausible; eauto.
Qed.

Lemma parse_date_total_and_plausible_witness :
  parse_date (table_parser [("x", midnight 2020 1 1)]) "y" = None
  /\ Forall (fun m => plausible (found m))
       [discrepancy (midnight 2020 1 1) (midnight 1998 3 4)].
Proof.
  pose proof (parse_date_total_and_plausible (table_parser SAMPLE_ANSWERS))
    as [_ [_ [_ [_ H]]]].
  split; [reflexivity|].
  apply (H "Date of incorporation: 04/03/1998" (Some "incorporation")
           [midnight 1998 3 4] (midnight 2020 1 1) 0);
    vm_compute; reflexivity.
Defined.

End ExtractClaims.

(** ** The scan handler *)

Module AppFacts.
Import Text App Spec.

(** ** [zfill] *)

Lemma length_app (s t : string) :
  String.length (s ++ t) = (String.length s + String.length t)%nat.
Proof. induction s; simpl; auto. Qed.

Lemma length_zeros (n : nat) : String.length (zeros n) = n.
Proof. induction n; simpl; auto. Qed.

Lemma zfill_length (w : nat) (s : string) :
  String.length (zfill w s) = Nat.max w (String.length s).
Proof.
  unfold zfill. destruct (Nat.leb_spec w (String.length s)) as [L|L].
  - lia.
  - destruct s as [|c s]; simpl in *.
    + rewrite length_zeros. lia.
    + destruct (Ascii.eqb c "+" || Ascii.eqb c "-")%bool; simpl;
        rewrite length_app, length_zeros; simpl; lia.
Qed.

Lemma zfill_fixed (w : nat) (s : string) :
  (w <= String.length s)%nat -> zfill w s = s.
Proof.
  intros L. unfold zfill.
  destruct (Nat.leb_spec w (String.length s)); auto. lia.
Qed.

Lemma zfill_idempotent (w : nat) (s : string) :
  zfill w (zfill w s) = zfill w s.
Proof. apply zfill_fixed. rewrite zfill_length. lia. Qed.

Lemma normalize_length (x : string) :
  (8 <= String.length (normalize x))%nat
  /\ ((String.length x <= 8)%nat -> String.length (normalize x) = 8%nat).
Proof. unfold normalize. rewrite zfill_length. lia. Qed.

Section AnyCollaborators.
Variables scan_data summary : Type.
Variable has_results : scan_data -> bool.
Variable filtered_search : scan_request -> result (list string).
Variable check_company_exists : string -> string -> result bool.
Variable get_company_data : string -> string -> result (option scan_data).
Variable process_companies :
  list string -> bool -> Z -> bool -> bool -> result scan_data.
Variable get_processing_summary : scan_data -> result summary.

Local Abbreviation trace_of :=
  (trace_of has_results filtered_search check_company_exists
            get_company_data process_companies get_processing_summary).

Lemma cache_lookup_events req numbers ev :
  In ev (fst (cache_lookup check_company_exists get_company_data req numbers)) ->
  is_cache_event ev = true
  /\ use_github_cache req = true
  /\ exists n, numbers = [n] /\ numbers_of ev = [n].
Proof.
  unfold cache_lookup.
  destruct numbers as [|n [|n' rest]]; simpl; try tauto.
  destruct (use_github_cache req); simpl; try tauto.
  destruct (check_company_exists n (folder_of req)) as [[|]|]; simpl.
  - destruct (get_company_data n (folder_of req)); simpl;
      intros [<-|[<-|[]]]; simpl; eauto.
  - intros [<-|[]]; simpl; eauto.
  - intros [<-|[]]; simpl; eauto.
Qed.

Lemma post_events_spec numbers folder results ev :
  In ev (post_events has_results numbers folder results) ->
  is_cache_event ev = false
  /\ forall n, In n (numbers_of ev) -> In n numbers.
Proof.
  unfold post_events, single_of. intros H.
  apply in_app_or in H. destruct H as [H|H].
  - destruct numbers as [|n [|? ?]]; simpl in H; try tauto.
    destruct H as [<-|[]]. simpl. split; auto.
  - apply in_app_or in H. destruct H as [H|[<-|[]]].
    + destruct numbers as [|n [|? ?]]; simpl in H; try tauto.
      destruct folder; simpl in H; try tauto.
      destruct (has_results results); simpl in H; try tauto.
      destruct H as [<-|[]]. simpl. split; auto.
    + simpl. split; auto. intros n [].
Qed.

Lemma fresh_scan_events req numbers folder ev :
  In ev (fst (fresh_scan has_results process_companies
                         get_processing_summary req numbers folder)) ->
  is_cache_event ev = false
  /\ forall n, In n (numbers_of ev) -> In n numbers.
Proof.
  unfold fresh_scan.
  destruct (process_companies numbers (scan_network req) (network_depth req)
              (active_directors_only req) (use_ai req)) as [results|e]; simpl.
  - intros [<-|H]; [simpl; auto|]. eapply post_events_spec; eauto.
  - intros [<-|[]]. simpl. auto.
Qed.

(** Every event of a scan speaks of the resolved company numbers only,
    and the cache is read only for a list of exactly one number. *)
Lemma handler_events req ev :
  In ev (trace_of req) ->
  exists numbers,
    resolve_numbers filtered_search req = Ok numbers
    /\ (forall n, In n (numbers_of ev) -> In n numbers)
    /\ (is_cache_event ev = true ->
        use_github_cache req = true /\ List.length numbers = 1%nat).
Proof.
  unfold App.trace_of, scan_companies.
  destruct (missing (ch_api_key req)); [intros []|].
  destruct (use_ai req && missing (xai_api_key req))%bool; [intros []|].
  destruct (resolve_numbers filtered_search req) as [numbers|e] eqn:R;
    [|intros []].
  destruct numbers as [|n0 rest]; [intros []|].
  set (numbers := n0 :: rest).
  pose proof (cache_lookup_events req numbers ev) as C.
  destruct (cache_lookup check_company_exists get_company_data req numbers)
    as [tr [[cached folder]|e]] eqn:L; simpl in C |- *.
  - assert (Hcache : In ev tr ->
              (forall n, In n (numbers_of ev) -> In n numbers)
              /\ (is_cache_event ev = true ->
                  use_github_cache req = true
                  /\ List.length numbers = 1%nat)).
    { intros H. destruct (C H) as [_ [U [n [E1 E2]]]].
      rewrite E1, E2. simpl. auto. }
    destruct cached as [data|].
    + simpl. intros H. exists numbers. split; auto.
    + pose proof (fresh_scan_events req numbers folder ev) as F.
      destruct (fresh_scan has_results process_companies
                  get_processing_summary req numbers folder)
        as [tr' resp]; simpl in F |- *.
      intros H. exists numbers. split; auto.
      apply in_app_or in H. destruct H as [H|H]; auto.
      destruct (F H) as [N I]. split; auto. congruence.
  - intros H. exists numbers. split; auto.
    destruct (C H) as [_ [U [n [E1 E2]]]]. rewrite E1, E2. simpl. auto.
Qed.

(** C7, amended.  [normalize] (zero-padding to eight characters) is
    idempotent on every string; it yields exactly eight characters for an
    input of at most eight and returns a longer input as it is; and in a
    scan that is not in filtered mode, every company number that reaches a
    cache lookup, the processing or a later step is [normalize x] for some
    requested [x]. *)
Theorem normalize_idempotent_and_applied (req : scan_request) :
  (forall x, normalize (normalize x) = normalize x)
  /\ (forall x, (String.length x <= 8)%nat ->
                String.length (normalize x) = 8%nat)
  /\ (forall x, (8 <= String.length x)%nat -> normalize x = x)
  /\ (scan_mode req <> "filtered" ->
      forall ev n, In ev (trace_of req) -> In n (numbers_of ev) ->
        exists x, In x (company_numbers req) /\ n = normalize x).
Proof.
  split; [|split; [|split]].
  - intros x. apply zfill_idempotent.
  - intros x. apply normalize_length.
  - intros x. apply zfill_fixed.
  - intros M ev n Hev Hn.
    destruct (handler_events req ev Hev) as [numbers [R [I _]]].
    unfold resolve_numbers in R.
    destruct (String.eqb_spec (scan_mode req) "filtered"); [contradiction|].
    inversion R; subst numbers.
    specialize (I n Hn). apply in_map_iff in I.
    destruct I as [x [E Hx]]. eauto.
Qed.

(** C8.  A scan reads the cache only when the resolved list holds exactly
    one company number (and cache use is on).  When it holds more than one
    and the required keys are present, the first call made is the
    processing of the whole list, and no event of the scan is a cache
    read, whatever [use_github_cache] says. *)
Theorem cache_only_for_single_company
    (req : scan_request) (numbers : list string) :
  resolve_numbers filtered_search req = Ok numbers ->
  (forall ev, In ev (trace_of req) -> is_cache_event ev = true ->
     use_github_cache req = true /\ List.length numbers = 1%nat)
  /\ ((1 < List.length numbers)%nat -> keys_present req ->
      (exists rest, trace_of req = ProcessCompanies numbers :: rest)
      /\ forall ev, In ev (trace_of req) -> is_cache_event ev = false).
Proof.
  intros R. split.
  - intros ev Hev Hc.
    destruct (handler_events req ev Hev) as [numbers' [R' [_ H]]].
    assert (numbers' = numbers) by congruence. subst. auto.
  - intros L [K1 K2]. split.
    + unfold App.trace_of, scan_companies. rewrite K1, R.
      destruct (use_ai req); simpl;
        [rewrite (K2 eq_refl); simpl|];
        (destruct numbers as [|a [|b rest]]; simpl in L; try lia;
         unfold cache_lookup, fresh_scan;
         destruct (process_companies _ _ _ _ _); simpl; eauto).
    + intros ev Hev. destruct (is_cache_event ev) eqn:E; auto.
      destruct (handler_events req ev Hev) as [numbers' [R' [_ H]]].
      assert (numbers' = numbers) by congruence. subst.
      destruct (H E). lia.
Qed.

(** A cache read that raises is not a miss for the handler: the outer
    [except] turns it into a 500 response and nothing is processed. *)
Lemma cache_read_raising (req : scan_request) (x : string) (e : pyexn) :
  scan_mode req <> "filtered" -> company_numbers req = [x] ->
  use_github_cache req = true -> keys_present req ->
  check_company_exists (normalize x) (folder_of req) = Raised e ->
  scan_companies has_results filtered_search check_company_exists
                 get_company_data process_companies get_processing_summary
                 req
  = ([CheckCompanyExists (normalize x) (folder_of req)], ServerError e).
Proof.
  intros M N U [K1 K2] C. unfold scan_companies, resolve_numbers.
  rewrite K1. destruct (String.eqb_spec (scan_mode req) "filtered");
    [contradiction|].
  assert (A : (use_ai req && missing (xai_api_key req))%bool = false).
  { destruct (use_ai req); simpl; auto. }
  rewrite A, N. simpl. rewrite U, C. reflexivity.
Qed.

End AnyCollaborators.

(** C9.  Against a cache store whose reads never raise: in a
    single-company scan with cache use on and the keys present, when the
    existence check answers [false] or the read answers nothing, the scan
    goes on to process the company afresh and returns its summary.  The
    only cache events are the reads made before the processing. *)
Theorem cache_miss_degrades_to_fresh_scan
    (scan_data summary : Type) (has_results : scan_data -> bool)
    (filtered_search : scan_request -> result (list string))
    (store : cache_store scan_data)
    (proc : batch_processor scan_data summary)
    (req : scan_request) (x : string) :
  scan_mode req <> "filtered" -> company_numbers req = [x] ->
  use_github_cache req = true -> keys_present req ->
  cs_exists store (normalize x) (folder_of req) = false
  \/ cs_get store (normalize x) (folder_of req) = None ->
  let n := normalize x in
  let f := folder_of req in
  let results := run proc [n] (scan_network req) (network_depth req)
                     (active_directors_only req) (use_ai req) in
  exists reads,
    scan_companies has_results filtered_search
      (store_exists store) (store_get store)
      (processor_run proc) (processor_summary proc) req
    = ((reads ++ ProcessCompanies [n]
               :: post_events has_results [n] (Some f) results)%list,
       Scanned (summarise proc results) (Some (n, f)))
    /\ (forall ev, In ev reads -> is_cache_event ev = true)
    /\ In (CheckCompanyExists n f) reads.
Proof.
  intros M N U [K1 K2] Miss n f results.
  unfold scan_companies, resolve_numbers.
  rewrite K1. destruct (String.eqb_spec (scan_mode req) "filtered");
    [contradiction|].
  assert (A : (use_ai req && missing (xai_api_key req))%bool = false).
  { destruct (use_ai req); simpl; auto. }
  rewrite A, N. cbn [map cache_lookup]. rewrite U.
  unfold store_exists, store_get. fold n f.
  destruct (cs_exists store n f) eqn:E.
  - destruct Miss as [Miss|Miss]; [subst n f; congruence|].
    fold n f in Miss. rewrite Miss.
    exists [CheckCompanyExists n f; GetCompanyData n f].
    split; [reflexivity|]. split; [|simpl; auto].
    intros ev [<-|[<-|[]]]; reflexivity.
  - exists [CheckCompanyExists n f].
    split; [reflexivity|]. split; [|simpl; auto].
    intros ev [<-|[]]; reflexivity.
Qed.

Lemma cache_miss_degrades_to_fresh_scan_witness :
  exists reads,
    sample_scan (sample_request ["1234"])
    = ((reads ++ ProcessCompanies ["00001234"]
               :: post_events sample_has_results ["00001234"]
                    (Some "Only Active Directors") ["00001234"])%list,
       Scanned 1%nat (Some ("00001234", "Only Active Directors")))
    /\ (forall ev, In ev reads -> is_cache_event ev = true)
    /\ In (CheckCompanyExists "00001234" "Only Active Directors") reads.
Proof.
  apply (cache_miss_degrades_to_fresh_scan (list string) nat sample_has_results sample_search
           SAMPLE_STORE SAMPLE_PROCESSOR (sample_request ["1234"]) "1234").
  - discriminate.
  - reflexivity.
  - reflexivity.
  - split; [reflexivity|discriminate].
  - left. reflexivity.
Defined.

Lemma normalize_idempotent_and_applied_witness :
  exists x, In x ["1234"; "-77"] /\ "-0000077" = normalize x.
Proof.
  apply (proj2 (proj2 (proj2 (normalize_idempotent_and_applied
                         (list string) nat sample_has_results sample_search
                         (store_exists SAMPLE_STORE) (store_get SAMPLE_STORE)
                         (processor_run SAMPLE_PROCESSOR)
                         (processor_summary SAMPLE_PROCESSOR)
                         (sample_request ["1234"; "-77"]))))
           ltac:(discriminate)
           (ProcessCompanies ["00001234"; "-0000077"]) "-0000077").
  - left. reflexivity.
  - right. left. reflexivity.
Defined.

Lemma cache_only_for_single_company_witness :
  (exists rest,
     fst (sample_scan (sample_request ["1234"; "5678"]))
     = ProcessCompanies ["00001234"; "00005678"] :: rest)
  /\ forall ev, In ev (fst (sample_scan (sample_request ["1234"; "5678"]))) ->
                is_cache_event ev = false.
Proof.
  apply (proj2 (cache_only_for_single_company
                  (list string) nat sample_has_results sample_search
                  (store_exists SAMPLE_STORE) (store_get SAMPLE_STORE)
                  (processor_run SAMPLE_PROCESSOR)
                  (processor_summary SAMPLE_PROCESSOR)
                  (sample_request ["1234"; "5678"])
                  ["00001234"; "00005678"] eq_refl)).
  - simpl. lia.
  - split; [reflexivity|discriminate].
Defined.

(** C7 as stated fails on a number of more than eight characters: it is
    left as it is, and the cache is asked for it in that form. *)
Lemma long_number_reaches_cache_lookup :
  String.length (normalize "123456789") = 9%nat
  /\ sample_scan (sample_request ["123456789"])
     = ([CheckCompanyExists "123456789" "Only Active Directors";
         ProcessCompanies ["123456789"]; ExportMismatches "123456789";
         PushCompanyData "123456789" "Only Active Directors"; Cleanup],
        Scanned 1%nat (Some ("123456789", "Only Active Directors"))).
Proof. split; vm_compute; reflexivity. Qed.

(** The example scans, run. *)
Lemma sample_scans :
  sample_scan (sample_request ["1234"])
  = ([CheckCompanyExists "00001234" "Only Active Directors";
      ProcessCompanies ["00001234"]; ExportMismatches "00001234";
      PushCompanyData "00001234" "Only Active Directors"; Cleanup],
     Scanned 1%nat (Some ("00001234", "Only Active Directors")))
  /\ sample_scan (sample_request ["1234"; "5678"])
     = ([ProcessCompanies ["00001234"; "00005678"]; Cleanup],
        Scanned 2%nat None).
Proof. split; vm_compute; reflexivity. Qed.

End AppFacts.

(** ** More on dates: extraction, tolerances, reported differences *)

Module DateParserMore.
Import Py Spec DateParser PyFacts OrderFacts SortFacts SetFacts
       DateParserFacts ExtractFacts.

(** *** Sorting, then validating *)





(** *** Tolerances *)

(** X2.  Widening a positive tolerance never turns a match into a mismatch. *)
Theorem compare_dates_tolerance_monotone (a b : datetime) (t t' : Z) :
  0 < t -> t <= t' ->
  compare_dates a b t = Ok true -> compare_dates a b t' = Ok true.
Proof.
  intros Ht Hle. unfold compare_dates.
  destruct (Z.eqb_spec t 0); [lia|]. destruct (Z.eqb_spec t' 0); [lia|].
  destruct (sub a b) as [d|e]; simpl; [|discriminate].
  intros H. f_equal. apply Z.leb_le.
  assert (L : Z.abs (days d) <= t) by (apply Z.leb_le; congruence). lia.
Qed.

Lemma compare_dates_tolerance_monotone_witness :
  compare_dates (midnight 2020 1 1) (midnight 2020 1 2) 5 = Ok true.
Proof.
  apply (compare_dates_tolerance_monotone _ _ 1 5); try lia.
  vm_compute. reflexivity.
Defined.

(** *** What [find_date_mismatches] returns, from the loop itself *)

(** The two differences of a pair exist together and are opposite. *)
Lemma sub_opposite (a b : datetime) :
  (sub a b = Raised TypeError /\ sub b a = Raised TypeError)
  \/ exists x, sub a b = Ok (timedelta_of_us x)
               /\ sub b a = Ok (timedelta_of_us (- x)).
Proof.
  unfold sub. rewrite !base_of_us, (same_tzinfo_sym b a).
  destruct (same_tzinfo a b).
  - right. exists (local_us a - local_us b). split; auto.
    f_equal. f_equal. lia.
  - assert (Eo : offsets_equal (utcoffset b) (utcoffset a)
                 = offsets_equal (utcoffset a) (utcoffset b)).
    { destruct (utcoffset a), (utcoffset b); simpl; auto. apply Z.eqb_sym. }
    rewrite Eo. destruct (offsets_equal (utcoffset a) (utcoffset b)).
    + right. exists (local_us a - local_us b). split; auto.
      f_equal. f_equal. lia.
    + destruct (utcoffset a) as [oa|], (utcoffset b) as [ob|]; auto.
      right. rewrite !total_us_of_us.
      exists (local_us a - local_us b + ob - oa). split; auto.
      f_equal. f_equal. lia.
Qed.

Lemma sub_same_kind (a b : datetime) :
  is_aware a = is_aware b -> exists x, sub a b = Ok (timedelta_of_us x).
Proof.
  intros K. destruct (sub_opposite a b) as [[E _]|[x [E _]]]; eauto.
  exfalso. revert E. unfold sub, is_aware in *.
  destruct (same_tzinfo a b); [discriminate|].
  destruct (utcoffset a), (utcoffset b); simpl; try discriminate.
  destruct (_ =? _); discriminate.
Qed.

Lemma compare_dates_total (e f : datetime) (t : Z) :
  is_aware e = is_aware f -> exists r, compare_dates e f t = Ok r.
Proof.
  intros K. unfold compare_dates. destruct (t =? 0); eauto.
  destruct (sub_same_kind e f K) as [x ->]. unfold bind. eauto.
Qed.

Lemma mismatch_step_total (e : datetime) (t : Z) acc (f : datetime) :
  is_aware e = is_aware f -> exists acc', mismatch_step e t acc f = Ok acc'.
Proof.
  intros K. unfold mismatch_step.
  destruct (compare_dates_total e f t K) as [r ->]. unfold bind at 1.
  destruct r; simpl; eauto.
  destruct (sub_same_kind f e (eq_sym K)) as [x ->]. unfold bind. eauto.
Qed.

Lemma for_each_total (e : datetime) (t : Z) fs : forall acc,
  (forall f, In f fs -> is_aware e = is_aware f) ->
  exists ms, for_each (mismatch_step e t) acc fs = Ok ms.
Proof.
  induction fs as [|f fs IH]; intros acc H; simpl; eauto.
  destruct (mismatch_step_total e t acc f) as [acc' ->];
    [apply H; simpl; auto|].
  unfold bind. apply IH. intros; apply H; simpl; auto.
Qed.

(** What one round of the loop adds. *)
Lemma mismatch_step_adds (e : datetime) (t : Z) acc (f : datetime) acc' :
  mismatch_step e t acc f = Ok acc' ->
  (compare_dates e f t = Ok true /\ acc' = acc)
  \/ (compare_dates e f t = Ok false
      /\ exists d, sub f e = Ok d
                   /\ acc' = (acc ++ [Mismatch e f (days d) (format_date e)
                                               (format_date f)])%list).
Proof.
  unfold mismatch_step.
  destruct (compare_dates e f t) as [[|]|]; simpl; try discriminate.
  - intros E. inversion E. auto.
  - destruct (sub f e) as [d|]; simpl; try discriminate.
    intros E. inversion E. right. split; auto. exists d. auto.
Qed.

Lemma for_each_adds (e : datetime) (t : Z) fs : forall acc ms,
  for_each (mismatch_step e t) acc fs = Ok ms ->
  exists new,
    ms = (acc ++ new)%list
    /\ map found new = filter (rejected e t) fs
    /\ forall m, In m new ->
         expected m = e
         /\ compare_dates e (found m) t = Ok false
         /\ exists d, sub (found m) e = Ok d /\ difference_days m = days d.
Proof.
  induction fs as [|f fs IH]; simpl; intros acc ms E.
  - inversion E. exists []. rewrite app_nil_r.
    split; [reflexivity|]. split; [reflexivity|]. intros m [].
  - destruct (mismatch_step e t acc f) as [acc'|] eqn:S; simpl in E;
      try discriminate.
    destruct (IH _ _ E) as [new [-> [F P]]].
    unfold rejected at 1.
    destruct (mismatch_step_adds _ _ _ _ _ S) as [[C ->]|[C [d [D ->]]]];
      rewrite C.
    + exists new. auto.
    + exists (Mismatch e f (days d) (format_date e) (format_date f) :: new).
      rewrite <- app_assoc. split; [reflexivity|]. split.
      * simpl. f_equal. exact F.
      * intros m' [<-|Hm]; auto. simpl. split; auto. split; auto.
        exists d. auto.
Qed.

(** X3.  A negative tolerance accepts nothing, not even a date compared with
    itself: every found date is reported, in order. *)
Theorem negative_tolerance_rejects_all
    (expected_date : datetime) (found_dates : list datetime)
    (tolerance_days : Z) :
  tolerance_days < 0 ->
  (forall f, In f found_dates -> is_aware expected_date = is_aware f) ->
  compare_dates expected_date expected_date tolerance_days = Ok false
  /\ exists ms,
       find_date_mismatches expected_date found_dates tolerance_days = Ok ms
       /\ map found ms = found_dates.
Proof.
  intros Ht H.
  assert (C : forall f, is_aware expected_date = is_aware f ->
                compare_dates expected_date f tolerance_days = Ok false).
  { intros f Hf. unfold compare_dates.
    destruct (Z.eqb_spec tolerance_days 0); [lia|].
    destruct (sub_same_kind expected_date f Hf) as [x ->]. unfold bind.
    f_equal. apply Z.leb_gt. lia. }
  split; [apply C; reflexivity|].
  unfold find_date_mismatches.
  destruct (for_each_total expected_date tolerance_days found_dates [] H)
    as [ms E].
  exists ms. split; [exact E|].
  destruct (for_each_adds _ _ _ _ _ E) as [new [-> [F _]]]. simpl.
  rewrite F. clear E F.
  induction found_dates as [|f fs IH]; simpl; auto.
  unfold rejected at 1. rewrite C by (apply H; simpl; auto).
  f_equal. apply IH. intros; apply H; simpl; auto.
Qed.

Lemma negative_tolerance_rejects_all_witness :
  compare_dates (midnight 2020 1 1) (midnight 2020 1 1) (-1) = Ok false
  /\ exists ms,
       find_date_mismatches (midnight 2020 1 1) [midnight 2020 1 1] (-1)
       = Ok ms
       /\ map found ms = [midnight 2020 1 1].
Proof.
  apply (negative_tolerance_rejects_all (midnight 2020 1 1)
           [midnight 2020 1 1] (-1)).
  - lia.
  - intros f [<-|[]]. reflexivity.
Defined.

(** X4.  Nothing is reported exactly when [compare_dates] accepts every found
    date; and there are never more discrepancies than found dates. *)
Theorem no_mismatch_iff_all_match
    (expected_date : datetime) (found_dates : list datetime)
    (tolerance_days : Z) :
  (find_date_mismatches expected_date found_dates tolerance_days = Ok []
   <-> forall f, In f found_dates ->
         compare_dates expected_date f tolerance_days = Ok true)
  /\ forall ms,
       find_date_mismatches expected_date found_dates tolerance_days = Ok ms ->
       (List.length ms <= List.length found_dates)%nat.
Proof.
  unfold find_date_mismatches. split.
  - split.
    + assert (G : forall fs acc,
                 for_each (mismatch_step expected_date tolerance_days) acc fs
                 = Ok [] ->
                 forall f, In f fs ->
                   compare_dates expected_date f tolerance_days = Ok true).
      { induction fs as [|f0 fs IH]; simpl; intros acc E f Hf; [tauto|].
        destruct (mismatch_step expected_date tolerance_days acc f0)
          as [acc'|] eqn:S; simpl in E; try discriminate.
        destruct Hf as [<-|Hf]; [|eapply IH; eauto].
        destruct (mismatch_step_adds _ _ _ _ _ S) as [[C _]|[_ [d [_ ->]]]];
          auto.
        destruct (for_each_adds _ _ _ _ _ E) as [new [N _]].
        destruct acc; discriminate. }
      apply G.
    + intros A.
      assert (G : forall fs acc,
                 (forall f, In f fs ->
                    compare_dates expected_date f tolerance_days = Ok true) ->
                 for_each (mismatch_step expected_date tolerance_days) acc fs
                 = Ok acc).
      { induction fs as [|f0 fs IH]; simpl; intros acc H; auto.
        unfold mismatch_step at 1. rewrite (H f0) by auto. simpl.
        apply IH. auto. }
      apply G. exact A.
  - intros ms E. destruct (for_each_adds _ _ _ _ _ E) as [new [-> [F _]]].
    simpl. rewrite <- (length_map found), F. apply filter_length_le.
Qed.

(** *** What a reported difference can be *)

Lemma window_false_days (x t : Z) :
  0 < t ->
  (Z.abs (days (timedelta_of_us (- x))) <=? t) = false ->
  t <= days (timedelta_of_us x) \/ days (timedelta_of_us x) <= - (t + 1).
Proof.
  unfold timedelta_of_us. simpl. change US_PER_DAY with 86400000000.
  intros Ht H. apply Z.leb_gt in H. zdiv.
Qed.

(** X5.  Under a positive tolerance [t], the difference a discrepancy records
    is at least [t] or at most [-(t + 1)]: the test looks at expected minus
    found, the record holds found minus expected, and the two round
    differently. *)
Theorem reported_difference_bounds
    (expected_date : datetime) (found_dates : list datetime)
    (tolerance_days : Z) (ms : list mismatch) (m : mismatch) :
  0 < tolerance_days ->
  find_date_mismatches expected_date found_dates tolerance_days = Ok ms ->
  In m ms ->
  tolerance_days <= difference_days m
  \/ difference_days m <= - (tolerance_days + 1).
Proof.
  intros Ht E Hm. unfold find_date_mismatches in E.
  destruct (for_each_adds _ _ _ _ _ E) as [new [-> [_ P]]].
  simpl in Hm. destruct (P m Hm) as [_ [C [d [D ->]]]].
  unfold compare_dates in C.
  destruct (Z.eqb_spec tolerance_days 0); [lia|].
  destruct (sub_opposite (found m) expected_date) as [[R _]|[x [A B]]];
    [congruence|].
  rewrite B in C. unfold bind in C.
  rewrite A in D. inversion D; subst d.
  apply window_false_days; auto. congruence.
Qed.

Lemma reported_difference_bounds_witness :
  1 <= difference_days
         (Mismatch (midnight 2020 1 1) (naive 2020 1 2 12 0 0) 1
                   "01/01/2020" "02/01/2020")
  \/ difference_days
       (Mismatch (midnight 2020 1 1) (naive 2020 1 2 12 0 0) 1
                 "01/01/2020" "02/01/2020")
     <= - (1 + 1).
Proof.
  apply (reported_difference_bounds (midnight 2020 1 1)
           [naive 2020 1 2 12 0 0] 1
           [Mismatch (midnight 2020 1 1) (naive 2020 1 2 12 0 0) 1
                     "01/01/2020" "02/01/2020"]).
  - lia.
  - vm_compute. reflexivity.
  - left. reflexivity.
Defined.

(** *** Dates of one clock *)

(** X6.  Between two constructible values that show the same time of day in
    one time zone, as two dates without a time of day do, the test is the
    distance in calendar days and does not depend on the order of the
    two. *)
Theorem compare_dates_symmetric_on_dates (a b : datetime) (t : Z) :
  valid_datetime a = true -> valid_datetime b = true -> same_clock a b ->
  compare_dates a b t = Ok (days_apart a b <=? t)
  /\ compare_dates a b t = compare_dates b a t.
Proof.
  intros Va Vb C.
  assert (F : forall x y, valid_datetime x = true -> valid_datetime y = true ->
                same_clock x y ->
                compare_dates x y t = Ok (days_apart x y <=? t)).
  { intros x y Vx Vy Cxy. rewrite (compare_dates_same_clock x y t Vx Vy Cxy).
    f_equal. unfold outside_tolerance.
    destruct (Z.ltb_spec t (days_apart x y)), (Z.leb_spec (days_apart x y) t);
      simpl; auto; lia. }
  split; [apply F; auto|].
  rewrite (F a b), (F b a), (days_apart_sym a b);
    auto using same_clock_sym.
Qed.

Lemma compare_dates_symmetric_on_dates_witness :
  compare_dates (midnight 2020 3 1) (midnight 2020 2 28) 2
  = Ok (days_apart (midnight 2020 3 1) (midnight 2020 2 28) <=? 2)
  /\ compare_dates (midnight 2020 3 1) (midnight 2020 2 28) 2
     = compare_dates (midnight 2020 2 28) (midnight 2020 3 1) 2.
Proof.
  apply (compare_dates_symmetric_on_dates
           (midnight 2020 3 1) (midnight 2020 2 28) 2);
    try reflexivity.
  unfold same_clock. simpl. tauto.
Defined.

(** *** The first date of a context *)

Lemma context_none_same (p : string -> parsed) (text c : string) :
  _extract_with_context p text c = [] ->
  extract_dates p text (Some c) = extract_dates p text None.
Proof.
  intros E. unfold extract_dates, gathered.
  destruct (known_context (Some c)) as [c'|] eqn:K; [|reflexivity].
  assert (c' = c).
  { unfold known_context in K.
    destruct (negb (c =? ""))%string; [|discriminate].
    destruct (lookup c CONTEXT_PATTERNS); congruence. }
  subst c'. rewrite E. reflexivity.
Qed.

(** X7.  [extract_incorporation_date] and [extract_name_change_date] answer a
    date of a plausible year that [extract_dates] with the same context
    also holds (up to [==]) whenever it returns; when they answer [None],
    the context adds nothing to [extract_dates]. *)
Theorem first_context_date (p : string -> parsed) (text : string) :
  (forall d, extract_incorporation_date p text = Some d
             \/ extract_name_change_date p text = Some d -> plausible d)
  /\ (forall d r,
        extract_incorporation_date p text = Some d ->
        extract_dates p text (Some "incorporation") = Ok r ->
        exists d', In d' r /\ eqb d' d = true)
  /\ (forall d r,
        extract_name_change_date p text = Some d ->
        extract_dates p text (Some "name_change") = Ok r ->
        exists d', In d' r /\ eqb d' d = true)
  /\ (extract_incorporation_date p text = None ->
      extract_dates p text (Some "incorporation") = extract_dates p text None)
  /\ (extract_name_change_date p text = None ->
      extract_dates p text (Some "name_change") = extract_dates p text None).
Proof.
  assert (Hd : forall c d, hd_error (_extract_with_context p text c) = Some d ->
                 In d (_extract_with_context p text c)).
  { intros c d H. destruct (_extract_with_context p text c); simpl in H;
      [discriminate|]. inversion H; subst. simpl; auto. }
  assert (Hn : forall c, hd_error (_extract_with_context p text c) = None ->
                 _extract_with_context p text c = []).
  { intros c H. destruct (_extract_with_context p text c); simpl in H;
      [reflexivity|discriminate]. }
  assert (Hr : forall c d r,
             known_context (Some c) = Some c ->
             In d (_extract_with_context p text c) ->
             extract_dates p text (Some c) = Ok r ->
             exists d', In d' r /\ eqb d' d = true).
  { intros c d r K I E. unfold extract_dates in E.
    assert (G : In d (gathered p text (Some c))).
    { unfold gathered. rewrite K. apply in_or_app. left. exact I. }
    destruct (list_set_covers _ _ G) as [y [Hy Ey]].
    exists y. split; auto.
    eapply Permutation_in; [apply sorted_ok_perm; exact E|exact Hy]. }
  split; [|split; [|split; [|split]]].
  - intros d [H|H]; apply Hd in H;
      unfold _extract_with_context in H;
      eapply keep_parsed_plausible; exact H.
  - intros d r H. apply Hr; [reflexivity|apply Hd; exact H].
  - intros d r H. apply Hr; [reflexivity|apply Hd; exact H].
  - intros H. apply context_none_same, Hn, H.
  - intros H. apply context_none_same, Hn, H.
Qed.

Lemma first_context_date_witness :
  plausible (midnight 1998 3 4).
Proof.
  apply (proj1 (first_context_date (table_parser SAMPLE_ANSWERS)
                  "Date of incorporation: 04/03/1998")
           (midnight 1998 3 4)).
  left. vm_compute. reflexivity.
Defined.

End DateParserMore.

(** ** What the context patterns hand to the parser *)

Module CandidateFacts.
Import Re Text DateParser Spec ReFacts.

Lemma many_bounds (A : Type) (p : cclass) (k : mstate -> option A) (x : A)
    (rest : string) :
  forall lo hi prev pos caps,
    many p lo (Some hi) prev rest pos caps k = Some x ->
    exists st, k st = Some x
               /\ (pos + lo <= ms_pos st <= pos + Nat.max lo hi)%nat
               /\ ms_caps st = caps.
Proof.
  assert (Stop : forall lo hi prev rest pos caps,
             match lo with
             | O => k (MState prev rest pos caps)
             | S _ => None
             end = Some x ->
             exists st, k st = Some x
                        /\ (pos + lo <= ms_pos st <= pos + Nat.max lo hi)%nat
                        /\ ms_caps st = caps).
  { intros [|lo] hi prev rest0 pos caps H; [|discriminate].
    eexists. split; [exact H|]. simpl. split; [lia|reflexivity]. }
  induction rest as [|c rest IH]; intros lo hi prev pos caps H; simpl in H.
  - destruct hi as [|h]; eapply Stop; exact H.
  - destruct hi as [|h]; [eapply Stop; exact H|].
    destruct (in_class p c); [|eapply Stop; exact H].
    simpl in H.
    destruct (many p (pred lo) (Some h) (Some c) rest (S pos) caps k)
      as [y|] eqn:M; [|eapply Stop; exact H].
    assert (y = x) by congruence. subst y.
    destruct (IH _ _ _ _ _ M) as [st [Hk [Hp Hc]]].
    exists st. split; auto. split; auto. lia.
Qed.

Lemma tail_captures (A : Type) (st : mstate) (k : mstate -> option A) (x : A) :
  rmatch TAIL st k = Some x -> exists st', k st' = Some x /\ captured st'.
Proof.
  unfold TAIL, plus, between. cbn [rmatch]. intros H.
  destruct (many_progress _ _ _ _ _ _ _ _ _ _ H) as [st1 [H1 _]].
  cbn [rmatch] in H1.
  destruct (many_bounds _ _ _ _ _ _ _ _ _ _ H1) as [st2 [H2 [P2 C2]]].
  eexists. split; [exact H2|].
  unfold captured. cbn [ms_caps ms_pos].
  exists (ms_pos st1), (ms_caps st2). split; [reflexivity|]. simpl in P2. lia.
Qed.

Lemma tailed_captures (A : Type) (r : regex) :
  tailed r ->
  forall (st : mstate) (k : mstate -> option A) (x : A),
    rmatch r st k = Some x -> exists st', k st' = Some x /\ captured st'.
Proof.
  induction 1 as [|a r T IH|r T IH]; intros st k x H.
  - eapply tail_captures; eauto.
  - cbn [rmatch] in H.
    destruct (rmatch_progress _ _ _ _ _ H) as [st1 [H1 _]].
    eapply IH; eauto.
  - cbn [rmatch] in H. eapply IH; eauto.
Qed.

(** Every match of a scan is an answer of [match_at] at its start. *)
Lemma scan_matches (r : regex) (text : string) (m : rematch) (rest : string) :
  forall prev pos skip,
    In m (scan r text prev rest pos skip) ->
    m_text m = text
    /\ exists prev' rest',
         match_at r prev' rest' (m_start m) = Some (m_end m, m_caps m).
Proof.
  induction rest as [|c rest IH]; intros prev pos skip H; simpl in H.
  - destruct skip; [|contradiction].
    destruct (match_at r prev EmptyString pos) as [[e caps]|] eqn:E;
      [|contradiction].
    destruct H as [<-|[]]. simpl. eauto.
  - destruct skip; [|eapply IH; eauto].
    destruct (match_at r prev (String c rest) pos) as [[e caps]|] eqn:E.
    + destruct H as [<-|H]; [|eapply IH; eauto]. simpl. eauto.
    + eapply IH; eauto.
Qed.

Lemma substring_length (s : string) : forall n m,
  (String.length (substring n m s) <= m)%nat.
Proof.
  induction s as [|c s IH]; intros [|n] [|m]; simpl; try lia.
  - specialize (IH 0%nat m). lia.
  - apply IH.
  - apply IH.
Qed.

Lemma lstrip_length (s : string) :
  (String.length (lstrip s) <= String.length s)%nat.
Proof.
  induction s as [|c s IH]; simpl; auto.
  destruct (is_space c); simpl; lia.
Qed.

Lemma rstrip_length (s : string) :
  (String.length (rstrip s) <= String.length s)%nat.
Proof.
  induction s as [|c s IH]; simpl; auto.
  destruct (rstrip s); [destruct (is_space c)|]; simpl in *; lia.
Qed.

Lemma rstrip_cons (c a : ascii) (s t : string) :
  rstrip s = String a t -> rstrip (String c s) = String c (String a t).
Proof. intros E. simpl. rewrite E. reflexivity. Qed.

Lemma rstrip_idempotent (s : string) : rstrip (rstrip s) = rstrip s.
Proof.
  induction s as [|c s IH]; simpl; auto.
  destruct (rstrip s) as [|c' t] eqn:E.
  - destruct (is_space c) eqn:Sp; simpl; auto. rewrite Sp. reflexivity.
  - apply rstrip_cons. exact IH.
Qed.

Lemma lstrip_rstrip (t : string) : lstrip t = t -> lstrip (rstrip t) = rstrip t.
Proof.
  destruct t as [|c s]; simpl; auto.
  destruct (is_space c) eqn:Sp.
  - intros H. exfalso.
    pose proof (lstrip_length s) as L. rewrite H in L. simpl in L. lia.
  - intros _. destruct (rstrip s); simpl; rewrite Sp; reflexivity.
Qed.

Lemma lstrip_idempotent (s : string) : lstrip (lstrip s) = lstrip s.
Proof.
  induction s as [|c s IH]; simpl; auto.
  destruct (is_space c) eqn:Sp; auto. simpl. rewrite Sp. reflexivity.
Qed.

Lemma strip_idempotent (s : string) : strip (strip s) = strip s.
Proof.
  unfold strip.
  rewrite (lstrip_rstrip _ (lstrip_idempotent s)).
  apply rstrip_idempotent.
Qed.

Lemma all_tailed :
  Forall tailed (flat_map snd CONTEXT_PATTERNS).
Proof.
  repeat (apply Forall_cons || apply Forall_nil);
    unfold cat_all;
    repeat first [ apply tailed_here
                 | apply tailed_closed; apply tailed_here
                 | apply tailed_after ].
Qed.

Lemma lookup_in (c : string) (ps : list regex) (d : list (string * list regex)) :
  lookup c d = Some ps -> forall r, In r ps -> In r (flat_map snd d).
Proof.
  induction d as [|[k v] d IH]; simpl; [discriminate|].
  destruct (c =? k)%string.
  - intros E r H. inversion E; subst. apply in_or_app. auto.
  - intros E r H. apply in_or_app. right. eapply IH; eauto.
Qed.

(** X8.  Whatever the text, a string that [_extract_with_context] hands to the
    parser has at most 30 characters and neither begins nor ends with
    whitespace. *)
Theorem context_candidates_bounded
    (text c cand : string) (ps : list regex) :
  lookup c CONTEXT_PATTERNS = Some ps ->
  In cand (context_candidates text ps) ->
  (String.length cand <= 30)%nat /\ strip cand = cand.
Proof.
  intros L H. unfold context_candidates in H.
  apply in_flat_map in H. destruct H as [r [Hr H]].
  apply in_map_iff in H. destruct H as [m [<- Hm]].
  split; [|apply strip_idempotent].
  assert (T : tailed r).
  { pose proof all_tailed as F. rewrite Forall_forall in F.
    apply F. eapply lookup_in; eauto. }
  unfold finditer in Hm.
  destruct (scan_matches _ _ _ _ _ _ _ Hm) as [Ht [prev [rest M]]].
  unfold match_at in M.
  destruct (tailed_captures _ r T _ _ _ M) as [st [E [s [others [C P]]]]].
  inversion E as [[E1 E2]].
  unfold strip.
  eapply Nat.le_trans; [apply rstrip_length|].
  eapply Nat.le_trans; [apply lstrip_length|].
  unfold group. rewrite <- E2, C. simpl.
  eapply Nat.le_trans; [apply substring_length|]. lia.
Qed.

Lemma context_candidates_bounded_witness :
  (String.length "January 12, 2012 10:00 PM EST" <= 30)%nat
  /\ strip "January 12, 2012 10:00 PM EST" = "January 12, 2012 10:00 PM EST".
Proof.
  apply (context_candidates_bounded
           "Incorporated on: January 12, 2012 10:00 PM EST"
           "incorporation" _ INCORPORATION).
  - reflexivity.
  - rewrite (proj1 ExtractFacts.zoned_example_spans). left. reflexivity.
Defined.

End CandidateFacts.

(** ** More on the scan handler *)

Module HandlerFacts.
Import Text App Spec AppFacts.

Section AnyCollaborators.
Variables scan_data summary : Type.
Variable has_results : scan_data -> bool.
Variable filtered_search : scan_request -> result (list string).
Variable check_company_exists : string -> string -> result bool.
Variable get_company_data : string -> string -> result (option scan_data).
Variable process_companies :
  list string -> bool -> Z -> bool -> bool -> result scan_data.
Variable get_processing_summary : scan_data -> result summary.

Local Abbreviation scan :=
  (scan_companies has_results filtered_search check_company_exists
                  get_company_data process_companies get_processing_summary).

Local Abbreviation process req numbers :=
  (process_companies numbers (scan_network req) (network_depth req)
                     (active_directors_only req) (use_ai req)).

Lemma keys_present_dec (req : scan_request) :
  keys_present req
  <-> missing (ch_api_key req) = false
      /\ (use_ai req && missing (xai_api_key req))%bool = false.
Proof.
  unfold keys_present. split; intros [K1 K2]; split; auto.
  - destruct (use_ai req); simpl; auto.
  - intros U. rewrite U in K2. exact K2.
Qed.

(** The body of the handler once the request passed the key checks. *)
Lemma scan_with_keys (req : scan_request) :
  keys_present req ->
  scan req
  = match resolve_numbers filtered_search req with
    | Raised e => ([], ServerError e)
    | Ok [] => ([], BadRequest "No company numbers provided")
    | Ok numbers =>
        match cache_lookup check_company_exists get_company_data req numbers
        with
        | (tr, Raised e) => (tr, ServerError e)
        | (tr, Ok (Some cached, folder_suffix)) =>
            (tr, FromCache (hd "" numbers) (folder_of req) cached)
        | (tr, Ok (None, folder_suffix)) =>
            let '(tr', resp) :=
              fresh_scan has_results process_companies get_processing_summary
                         req numbers folder_suffix in
            ((tr ++ tr')%list, resp)
        end
    end.
Proof.
  intros K. apply keys_present_dec in K. destruct K as [K1 K2].
  unfold scan_companies. rewrite K1, K2. reflexivity.
Qed.

(** X9.  A request that fails a check of the handler makes no call at all:
    without the registry key, without the AI key when AI extraction is
    asked for, or with no company number to work on, the answer is a 400
    and the trace is empty. *)
Theorem rejected_request_makes_no_call (req : scan_request) :
  ~ keys_present req \/ resolve_numbers filtered_search req = Ok [] ->
  exists message, scan req = ([], BadRequest message).
Proof.
  intros [N|E].
  - unfold scan_companies.
    destruct (missing (ch_api_key req)) eqn:K1; [eauto|].
    destruct (use_ai req && missing (xai_api_key req))%bool eqn:K2; [eauto|].
    exfalso. apply N. apply keys_present_dec. auto.
  - unfold scan_companies.
    destruct (missing (ch_api_key req)); [eauto|].
    destruct (use_ai req && missing (xai_api_key req))%bool; [eauto|].
    rewrite E. eauto.
Qed.

(** X10.  With cache use switched off, a scan of exactly one company is
    processed and exported, is not pushed, and then answers 500: line 368
    reads [folder_suffix], which only the cache branch binds. *)
Theorem single_scan_without_cache_fails
    (req : scan_request) (n : string) (results : scan_data) (s : summary) :
  keys_present req ->
  resolve_numbers filtered_search req = Ok [n] ->
  use_github_cache req = false ->
  process req [n] = Ok results ->
  get_processing_summary results = Ok s ->
  scan req
  = ([ProcessCompanies [n]; ExportMismatches n; Cleanup],
     ServerError UnboundLocalError).
Proof.
  intros K R U P S. rewrite (scan_with_keys req K), R.
  unfold cache_lookup. rewrite U. unfold fresh_scan. rewrite P, S.
  reflexivity.
Qed.

(** X11.  A cache hit ends the scan: the stored data is answered and nothing is
    processed, exported, pushed or cleaned up. *)
Theorem cache_hit_short_circuits
    (req : scan_request) (n : string) (data : scan_data) :
  keys_present req ->
  resolve_numbers filtered_search req = Ok [n] ->
  use_github_cache req = true ->
  check_company_exists n (folder_of req) = Ok true ->
  get_company_data n (folder_of req) = Ok (Some data) ->
  scan req
  = ([CheckCompanyExists n (folder_of req); GetCompanyData n (folder_of req)],
     FromCache n (folder_of req) data).
Proof.
  intros K R U C G. rewrite (scan_with_keys req K), R.
  unfold cache_lookup. rewrite U, C, G. reflexivity.
Qed.

Lemma post_events_push numbers folder results n f :
  In (PushCompanyData n f) (post_events has_results numbers folder results) ->
  numbers = [n] /\ folder = Some f.
Proof.
  unfold post_events, single_of.
  destruct numbers as [|n0 [|n1 rest]]; simpl;
    try (intros [H|[]]; discriminate H).
  destruct folder as [f0|]; simpl.
  - destruct (has_results results); simpl.
    + intros [H|[H|[H|[]]]]; try discriminate H. inversion H; subst. auto.
    + intros [H|[H|[]]]; discriminate H.
  - intros [H|[H|[]]]; discriminate H.
Qed.

Lemma post_events_export numbers folder results n :
  In (ExportMismatches n) (post_events has_results numbers folder results) ->
  numbers = [n].
Proof.
  unfold post_events, single_of.
  destruct numbers as [|n0 [|n1 rest]]; simpl;
    try (intros [H|[]]; discriminate H).
  intros [H|H]; [inversion H; subst; reflexivity|].
  exfalso. destruct folder as [f0|]; simpl in H.
  - destruct (has_results results); simpl in H.
    + destruct H as [H|[H|[]]]; discriminate H.
    + destruct H as [H|[]]; discriminate H.
  - destruct H as [H|[]]; discriminate H.
Qed.

Lemma fresh_scan_trace req numbers folder ev :
  In ev (fst (fresh_scan has_results process_companies
                         get_processing_summary req numbers folder)) ->
  ev = ProcessCompanies numbers
  \/ exists results,
       process req numbers = Ok results
       /\ In ev (post_events has_results numbers folder results).
Proof.
  unfold fresh_scan.
  destruct (process_companies numbers _ _ _ _) as [results|e]; simpl.
  - intros [<-|H]; eauto.
  - intros [<-|[]]; auto.
Qed.

Lemma cache_lookup_folder req numbers tr cached f :
  cache_lookup check_company_exists get_company_data req numbers
  = (tr, Ok (cached, Some f)) ->
  use_github_cache req = true /\ f = folder_of req
  /\ exists n, numbers = [n] /\ In (CheckCompanyExists n f) tr.
Proof.
  unfold cache_lookup.
  destruct numbers as [|n [|n1 rest]]; try discriminate.
  destruct (use_github_cache req); [|discriminate].
  destruct (check_company_exists n (folder_of req)) as [[|]|];
    [destruct (get_company_data n (folder_of req))| |];
    intros H; inversion H; subst; simpl; eauto 10.
Qed.

(** X12.  Results are pushed only for a scan of exactly one company that went
    through the cache check, into the folder that check looked at; the
    CSV export too is for a single company only. *)
Theorem push_only_after_cache_check
    (req : scan_request) (n f : string) :
  (In (PushCompanyData n f) (fst (scan req)) ->
   resolve_numbers filtered_search req = Ok [n]
   /\ use_github_cache req = true /\ f = folder_of req
   /\ In (CheckCompanyExists n f) (fst (scan req)))
  /\ (In (ExportMismatches n) (fst (scan req)) ->
      resolve_numbers filtered_search req = Ok [n]).
Proof.
  unfold scan_companies.
  destruct (missing (ch_api_key req)); [simpl; tauto|].
  destruct (use_ai req && missing (xai_api_key req))%bool; [simpl; tauto|].
  destruct (resolve_numbers filtered_search req) as [numbers|e];
    [|simpl; tauto].
  destruct numbers as [|n0 rest]; [simpl; tauto|].
  set (numbers := n0 :: rest).
  pose proof (cache_lookup_events scan_data filtered_search
                check_company_exists get_company_data process_companies
                req numbers) as C.
  destruct (cache_lookup check_company_exists get_company_data req numbers)
    as [tr [[[cached|] folder]|e]] eqn:L; simpl in C |- *.
  - split; intros H; apply C in H; simpl in H; destruct H; discriminate.
  - pose proof (fresh_scan_trace req numbers folder) as F.
    destruct (fresh_scan has_results process_companies
                get_processing_summary req numbers folder) as [tr' resp].
    simpl in F |- *. split; intros H; apply in_app_or in H;
      destruct H as [H|H];
      try (apply C in H; simpl in H; destruct H; discriminate).
    + destruct (F _ H) as [E|[results [_ P]]]; [discriminate|].
      apply post_events_push in P. destruct P as [N Fo]. subst folder.
      destruct (cache_lookup_folder _ _ _ _ _ L) as [U [Ef [n' [N' I]]]].
      assert (n' = n) by congruence. subst n'.
      rewrite N. repeat split; auto. apply in_or_app. left. exact I.
    + destruct (F _ H) as [E|[results [_ P]]]; [discriminate|].
      apply post_events_export in P. rewrite P. reflexivity.
  - split; intros H; apply C in H; simpl in H; destruct H; discriminate.
Qed.

(** X13.  When the processing raises, the handler answers 500 with that
    exception, and no export, push or cleanup is attempted. *)
Theorem processing_failure_is_answered
    (req : scan_request) (numbers : list string) (e : pyexn) :
  In (ProcessCompanies numbers) (fst (scan req)) ->
  process req numbers = Raised e ->
  snd (scan req) = ServerError e
  /\ forall ev, In ev (fst (scan req)) ->
       is_cache_event ev = true \/ ev = ProcessCompanies numbers.
Proof.
  unfold scan_companies.
  destruct (missing (ch_api_key req)); [simpl; tauto|].
  destruct (use_ai req && missing (xai_api_key req))%bool; [simpl; tauto|].
  destruct (resolve_numbers filtered_search req) as [resolved|e'];
    [|simpl; tauto].
  destruct resolved as [|n0 rest]; [simpl; tauto|].
  set (resolved := n0 :: rest).
  pose proof (cache_lookup_events scan_data filtered_search
                check_company_exists get_company_data process_companies
                req resolved) as C.
  destruct (cache_lookup check_company_exists get_company_data req resolved)
    as [tr [[[cached|] folder]|e']]; simpl in C |- *.
  - intros H. apply C in H. simpl in H. destruct H; discriminate.
  - pose proof (fresh_scan_trace req resolved folder) as F.
    unfold fresh_scan in *.
    destruct (process_companies resolved _ _ _ _) as [r|e'] eqn:P;
      simpl in F |- *.
    + intros H Pn. exfalso. apply in_app_or in H. destruct H as [H|H].
      * apply C in H. simpl in H. destruct H; discriminate.
      * destruct H as [H|H]; [inversion H; subst; congruence|].
        unfold post_events in H.
        apply in_app_or in H. destruct H as [H|H].
        -- destruct (single_of resolved); simpl in H;
             [destruct H as [H|[]]; discriminate H|destruct H].
        -- apply in_app_or in H. destruct H as [H|[H|[]]];
             [|discriminate H].
           destruct (single_of resolved); [|destruct H].
           destruct folder; [|destruct H].
           destruct (has_results r); simpl in H;
             [destruct H as [H|[]]; discriminate H|destruct H].
    + intros H Pn. apply in_app_or in H. destruct H as [H|H].
      * apply C in H. simpl in H. destruct H; discriminate.
      * destruct H as [H|[]]. inversion H; subst.
        split; [congruence|].
        intros ev Hev. apply in_app_or in Hev. destruct Hev as [Hev|[<-|[]]].
        -- left. apply C in Hev. tauto.
        -- right. reflexivity.
  - intros H. apply C in H. simpl in H. destruct H; discriminate.
Qed.

End AnyCollaborators.

Lemma rejected_request_makes_no_call_witness :
  exists message,
    sample_scan (sample_request []) = ([], BadRequest message).
Proof.
  apply (rejected_request_makes_no_call (list string) nat).
  right. reflexivity.
Defined.

Lemma single_scan_without_cache_fails_witness :
  sample_scan (ScanRequest "specific" ["1234"] false 1 true false false
                           (Some "key") None)
  = ([ProcessCompanies ["00001234"]; ExportMismatches "00001234"; Cleanup],
     ServerError UnboundLocalError).
Proof.
  apply (single_scan_without_cache_fails (list string) nat
           sample_has_results sample_search
           (store_exists SAMPLE_STORE) (store_get SAMPLE_STORE)
           (processor_run SAMPLE_PROCESSOR) (processor_summary SAMPLE_PROCESSOR)
           _ "00001234" ["00001234"] 1%nat);
    try reflexivity.
  split; [reflexivity|discriminate].
Defined.

Lemma cache_hit_short_circuits_witness :
  scan_companies sample_has_results sample_search
    (fun _ _ => Ok true) (fun n _ => Ok (Some [n]))
    (processor_run SAMPLE_PROCESSOR) (processor_summary SAMPLE_PROCESSOR)
    (sample_request ["1234"])
  = ([CheckCompanyExists "00001234" "Only Active Directors";
      GetCompanyData "00001234" "Only Active Directors"],
     FromCache "00001234" "Only Active Directors" ["00001234"]).
Proof.
  apply (cache_hit_short_circuits (list string) nat
           sample_has_results sample_search
           (fun _ _ => Ok true) (fun n _ => Ok (Some [n]))
           (processor_run SAMPLE_PROCESSOR) (processor_summary SAMPLE_PROCESSOR)
           (sample_request ["1234"]) "00001234" ["00001234"]);
    try reflexivity.
  split; [reflexivity|discriminate].
Defined.

Lemma processing_failure_is_answered_witness :
  snd (scan_companies sample_has_results sample_search
         (store_exists SAMPLE_STORE) (store_get SAMPLE_STORE)
         (fun _ _ _ _ _ => Raised (OtherError "upstream"))
         (processor_summary SAMPLE_PROCESSOR)
         (sample_request ["1"; "2"]))
  = ServerError (OtherError "upstream")
  /\ forall ev,
       In ev (fst (scan_companies sample_has_results sample_search
                     (store_exists SAMPLE_STORE) (store_get SAMPLE_STORE)
                     (fun _ _ _ _ _ => Raised (OtherError "upstream"))
                     (processor_summary SAMPLE_PROCESSOR)
                     (sample_request ["1"; "2"]))) ->
       is_cache_event ev = true
       \/ ev = ProcessCompanies ["00000001"; "00000002"].
Proof.
  apply (processing_failure_is_answered (list string) nat
           sample_has_results sample_search
           (store_exists SAMPLE_STORE) (store_get SAMPLE_STORE)
           (fun _ _ _ _ _ => Raised (OtherError "upstream"))
           (processor_summary SAMPLE_PROCESSOR)
           (sample_request ["1"; "2"]) ["00000001"; "00000002"]
           (OtherError "upstream")).
  - left. reflexivity.
  - reflexivity.
Defined.

Lemma push_only_after_cache_check_witness :
  resolve_numbers sample_search (sample_request ["1234"]) = Ok ["00001234"]
  /\ use_github_cache (sample_request ["1234"]) = true
  /\ "Only Active Directors" = folder_of (sample_request ["1234"])
  /\ In (CheckCompanyExists "00001234" "Only Active Directors")
        (fst (sample_scan (sample_request ["1234"]))).
Proof.
  apply (proj1 (push_only_after_cache_check (list string) nat
                  sample_has_results sample_search
                  (store_exists SAMPLE_STORE) (store_get SAMPLE_STORE)
                  (processor_run SAMPLE_PROCESSOR)
                  (processor_summary SAMPLE_PROCESSOR)
                  (sample_request ["1234"]) "00001234"
                  "Only Active Directors")).
  right. right. right. left. reflexivity.
Defined.

End HandlerFacts.

(** ** The filtered search *)

Local Close Scope string_scope.

Module FilteredFacts.
Import Filtered.

Section Search.
Variable int_of_string : string -> result Z.
Variable strptime_date : string -> result (Z * Z * Z).
Variable search_companies :
  option string -> option string -> result (list company).

Local Abbreviation search := (search search_companies).
Local Abbreviation filtered_numbers :=
  (filtered_numbers int_of_string strptime_date search_companies).
Local Abbreviation apply_filters :=
  (apply_filters int_of_string strptime_date).

Local Abbreviation answered := (answered search_companies).

Lemma letter_query_shift (company_status : option string) (o k : nat) :
  map (letter_query company_status (S o)) (seq 0 k)
  = map (letter_query company_status o) (seq 1 k).
Proof.
  rewrite <- seq_shift, map_map. apply map_ext. intros i.
  unfold letter_query. rewrite Nat.add_succ_comm. reflexivity.
Qed.

Lemma alpha_loop_spec (company_status : option string) (lim : Z)
    (letters : nat) :
  forall letter_ord queries acc asked res,
    alpha_loop search_companies letters letter_ord company_status lim
               queries acc = (asked, res) ->
    exists k,
      (k <= letters)%nat
      /\ asked = (queries
                  ++ map (letter_query company_status letter_ord) (seq 0 k))%list
      /\ forall l, res = Ok l ->
           forall c, In c l -> In c acc \/ answered asked c.
Proof.
  induction letters as [|letters IH];
    intros letter_ord queries acc asked res H; simpl in H.
  - inversion H; subst. exists 0%nat. simpl. rewrite app_nil_r.
    split; [lia|]. split; [reflexivity|].
    intros l E c Hc. inversion E; subst. auto.
  - set (q := Query (Some (String (ascii_of_nat letter_ord) EmptyString))
                    company_status) in *.
    assert (Q : q = letter_query company_status letter_ord 0)
      by (unfold letter_query; rewrite Nat.add_0_r; reflexivity).
    destruct (search_companies
                (Some (String (ascii_of_nat letter_ord) EmptyString))
                company_status) as [results|e] eqn:Hs.
    + destruct (lim <=? Z.of_nat (List.length (acc ++ results))).
      * inversion H; subst. exists 1%nat. split; [lia|]. simpl.
        rewrite <- Q. split; [reflexivity|].
        intros l E c Hc. inversion E; subst.
        apply in_app_or in Hc. destruct Hc as [Hc|Hc]; auto.
        right. exists q, results. split; [|split; auto].
        apply in_or_app. right. left. reflexivity.
      * destruct (IH _ _ _ _ _ H) as [k [Hk [Ha Hl]]].
        exists (S k). split; [lia|]. split.
        -- rewrite Ha, <- app_assoc. f_equal. rewrite letter_query_shift.
           simpl. rewrite <- Q. reflexivity.
        -- intros l E c Hc. destruct (Hl l E c Hc) as [Hc'|Hc']; auto.
           apply in_app_or in Hc'. destruct Hc' as [Hc'|Hc']; auto.
           right. exists q, results. split; [|split; auto].
           rewrite Ha. apply in_or_app. left. apply in_or_app. right.
           left. reflexivity.
    + inversion H; subst. exists 1%nat. split; [lia|]. simpl.
      rewrite <- Q. split; [reflexivity|]. intros l E. discriminate.
Qed.

(** X14.  The search asks the registry at most five times.  In alphabetical
    mode the queries are for consecutive letters from the upper-cased
    start letter, and never go past the end letter. *)
Theorem search_asks_at_most_five (f : filters) (lim : Z) :
  (List.length (fst (search f lim)) <= 5)%nat
  /\ forall start_ord end_ord,
       nonempty (alpha_start f) = true -> nonempty (alpha_end f) = true ->
       ord (upper (alpha_start f)) = Ok start_ord ->
       ord (upper (alpha_end f)) = Ok end_ord ->
       exists k,
         (k <= 5)%nat /\ (start_ord + k <= end_ord + 1 \/ k = 0)%nat
         /\ fst (search f lim)
            = map (letter_query (status_of f) start_ord) (seq 0 k).
Proof.
  unfold Filtered.search.
  destruct (nonempty (alpha_start f) && nonempty (alpha_end f))%bool eqn:A.
  - destruct (ord (upper (alpha_start f))) as [s|e] eqn:Os;
      [|split; [simpl; lia|intros; discriminate]].
    destruct (ord (upper (alpha_end f))) as [e|e'] eqn:Oe;
      [|split; [simpl; lia|intros; discriminate]].
    destruct (alpha_loop search_companies (Nat.min (e + 1) (s + 5) - s) s
                (status_of f) lim [] []) as [asked res] eqn:L.
    destruct (alpha_loop_spec _ _ _ _ _ _ _ _ L) as [k [Hk [Ha _]]].
    simpl in Ha. simpl. split.
    + rewrite Ha, length_map, length_seq. lia.
    + intros s' e' _ _ Es Ee.
      assert (s' = s) by congruence. assert (e' = e) by congruence.
      subst s' e'.
      exists k. split; [lia|]. split; [lia|exact Ha].
  - split; [simpl; lia|].
    intros s e N1 N2. rewrite N1, N2 in A. discriminate.
Qed.

Lemma search_answered (f : filters) (lim : Z) asked l c :
  search f lim = (asked, Ok l) -> In c l -> answered asked c.
Proof.
  unfold Filtered.search.
  destruct (nonempty (alpha_start f) && nonempty (alpha_end f))%bool.
  - destruct (ord (upper (alpha_start f))) as [s|e]; [|discriminate].
    destruct (ord (upper (alpha_end f))) as [e|e']; [|discriminate].
    intros L Hc.
    destruct (alpha_loop_spec _ _ _ _ _ _ _ _ L) as [k [_ [_ Hl]]].
    destruct (Hl l eq_refl c Hc) as [[]|H]. exact H.
  - intros E Hc. inversion E; subst.
    exists (Query None (status_of f)), l. simpl. auto.
Qed.

Lemma when_in (active : bool) (test : company -> bool) l c :
  In c (when active test l) -> In c l /\ (active = true -> test c = true).
Proof.
  unfold when. destruct active.
  - intros H. apply filter_In in H. tauto.
  - intros H. split; auto. discriminate.
Qed.

Lemma firstn_in (n : nat) (l : list company) c :
  In c (firstn n l) -> In c l.
Proof.
  intros H. rewrite <- (firstn_skipn n l). apply in_or_app. auto.
Qed.

Lemma take_in (n : Z) l c : In c (take n l) -> In c l.
Proof.
  unfold take. destruct (0 <=? n); intros H; eapply firstn_in; eauto.
Qed.

Lemma take_length (n : Z) l :
  0 <= n -> (Z.of_nat (List.length (take n l)) <= n).
Proof.
  intros H. unfold take. destruct (Z.leb_spec 0 n); [|lia].
  rewrite length_firstn. lia.
Qed.

Lemma numbers_in_length l :
  (List.length (numbers_in l) <= List.length l)%nat.
Proof.
  induction l as [|c l IH]; simpl; auto.
  destruct (company_number c) as [n|]; [destruct (nonempty n)|]; simpl; lia.
Qed.

Lemma numbers_in_spec l n :
  In n (numbers_in l)
  <-> exists c, In c l /\ company_number c = Some n /\ n <> EmptyString.
Proof.
  induction l as [|c l IH]; simpl.
  - split; [intros []|intros [c [[] _]]].
  - destruct (company_number c) as [m|] eqn:E.
    + destruct (nonempty m) eqn:N; simpl; rewrite IH; split.
      * intros [<-|[c' [H1 H2]]]; [|eauto].
        exists c. split; auto. split; auto.
        unfold nonempty in N. intros ->. discriminate.
      * intros [c' [[<-|H1] [H2 H3]]]; [left; congruence|eauto].
      * intros [c' [H1 H2]]; eauto.
      * intros [c' [[<-|H1] [H2 H3]]]; [|eauto].
        exfalso. assert (m = n) by congruence. subst.
        unfold nonempty in N. destruct (String.eqb_spec n ""); auto.
        discriminate.
    + rewrite IH. split.
      * intros [c' [H1 H2]]; eauto.
      * intros [c' [[<-|H1] [H2 H3]]]; [congruence|eauto].
Qed.

Lemma filtered_numbers_provenance
    (f : filters) (asked : list query) (numbers : list string) (n : string) :
  filtered_numbers f = (asked, Ok numbers) -> In n numbers ->
  n <> EmptyString /\ exists c, company_number c = Some n /\ answered asked c.
Proof.
  intros H Hn. unfold Filtered.filtered_numbers in H.
  destruct (limit_of int_of_string f) as [lim|e]; [|discriminate].
  destruct (search f lim) as [asked' [l|e]] eqn:Hs; [|discriminate].
  inversion H; subst. clear H.
  apply numbers_in_spec in Hn.
  destruct Hn as [c [Hc [E N]]]. split; auto.
  exists c. split; auto.
  apply take_in in Hc. unfold Filtered.apply_filters in Hc.
  repeat (apply when_in in Hc; destruct Hc as [Hc _]).
  eapply search_answered; eauto.
Qed.

(** X15.  The numbers a filtered search returns are at most [limit] (for a
    limit that is not negative), none is empty, and each is the
    [company_number], as the registry gave it, of a company in the answer
    to one of the queries made. *)
Theorem filtered_numbers_within_limit
    (f : filters) (lim : Z) (asked : list query) (numbers : list string) :
  limit_of int_of_string f = Ok lim ->
  filtered_numbers f = (asked, Ok numbers) ->
  (0 <= lim -> Z.of_nat (List.length numbers) <= lim)
  /\ forall n, In n numbers ->
       n <> EmptyString
       /\ exists c, company_number c = Some n /\ answered asked c.
Proof.
  intros L H. unfold Filtered.filtered_numbers in H. rewrite L in H.
  destruct (search f lim) as [asked' [l|e]] eqn:Hs; [|discriminate].
  inversion H; subst. clear H. split.
  - intros P.
    pose proof (numbers_in_length (take lim (apply_filters f l))).
    pose proof (take_length lim (apply_filters f l) P). lia.
  - intros n Hn. apply numbers_in_spec in Hn.
    destruct Hn as [c [Hc [E N]]]. split; auto.
    exists c. split; auto.
    apply take_in in Hc. unfold Filtered.apply_filters in Hc.
    repeat (apply when_in in Hc; destruct Hc as [Hc _]).
    eapply search_answered; eauto.
Qed.

Section InTheHandler.
Variables scan_data summary : Type.
Variable has_results : scan_data -> bool.
Variable check_company_exists : string -> string -> result bool.
Variable get_company_data : string -> string -> result (option scan_data).
Variable process_companies :
  list string -> bool -> Z -> bool -> bool -> result scan_data.
Variable get_processing_summary : scan_data -> result summary.

(** X16.  In filtered mode the handler works on the numbers exactly as the
    registry returned them: every number that reaches a cache lookup, the
    processing or a later step is the non-empty [company_number] of a
    company in a search answer; no zero-padding is applied. *)
Theorem filtered_scan_uses_numbers_verbatim
    (f : filters) (req : App.scan_request) (ev : App.event) (n : string) :
  App.scan_mode req = "filtered"%string ->
  In ev (App.trace_of has_results
           (filtered_search int_of_string strptime_date search_companies f)
           check_company_exists get_company_data process_companies
           get_processing_summary req) ->
  In n (App.numbers_of ev) ->
  n <> EmptyString
  /\ exists c, company_number c = Some n
               /\ answered (fst (filtered_numbers f)) c.
Proof.
  intros M Hev Hn.
  destruct (AppFacts.handler_events scan_data summary has_results
              (filtered_search int_of_string strptime_date search_companies f)
              check_company_exists get_company_data process_companies
              get_processing_summary req ev Hev) as [numbers [R [I _]]].
  unfold App.resolve_numbers in R. rewrite M in R. simpl in R.
  unfold filtered_search in R.
  destruct (filtered_numbers f) as [asked res] eqn:F. simpl in R |- *.
  subst res. eapply filtered_numbers_provenance; eauto.
Qed.

End InTheHandler.

(** X17.  Every number returned belongs to a company that passed each filter
    that was set; for the year filter that means: its creation date is
    there, the part before the first ["-"] reads as a number, and that
    number lies between the bounds (0 and 9999 where a bound is not
    set). *)
Theorem returned_companies_pass_filters
    (f : filters) (asked : list query) (numbers : list string) (n : string) :
  filtered_numbers f = (asked, Ok numbers) ->
  In n numbers ->
  exists c,
    company_number c = Some n
    /\ (truthy (year_from f) || truthy (year_to f) = true ->
        exists year lo hi,
          date_of_creation c <> EmptyString
          /\ int_of_string (hd EmptyString (split "-" (date_of_creation c)))
             = Ok year
          /\ (if truthy (year_from f)
              then exists v, year_from f = Some v
                             /\ py_int int_of_string v = Ok lo
              else lo = 0)
          /\ (if truthy (year_to f)
              then exists v, year_to f = Some v
                             /\ py_int int_of_string v = Ok hi
              else hi = 9999)
          /\ lo <= year <= hi)
    /\ (nonempty (location_of f) = true -> location_ok f c = true)
    /\ (nonempty (Text.strip (sic_code f)) = true -> sic_ok f c = true)
    /\ (company_types f <> [] -> type_ok f c = true)
    /\ (nonempty (dissolved_from f) || nonempty (dissolved_to f) = true ->
        dissolved_ok strptime_date f c = true).
Proof.
  intros H Hn. unfold Filtered.filtered_numbers in H.
  destruct (limit_of int_of_string f) as [lim|e]; [|discriminate].
  destruct (search f lim) as [asked' [l|e]] eqn:Hs; [|discriminate].
  inversion H; subst. clear H.
  apply numbers_in_spec in Hn. destruct Hn as [c [Hc [E N]]].
  exists c. split; auto.
  apply take_in in Hc. unfold Filtered.apply_filters in Hc.
  apply when_in in Hc. destruct Hc as [Hc D].
  apply when_in in Hc. destruct Hc as [Hc T].
  apply when_in in Hc. destruct Hc as [Hc Si].
  apply when_in in Hc. destruct Hc as [Hc Lo].
  apply when_in in Hc. destruct Hc as [Hc Y].
  split; [|split; [|split; [|split]]]; auto.
  - intros A. specialize (Y A). unfold year_ok in Y.
    apply andb_prop in Y. destruct Y as [Y1 Y2].
    destruct (int_of_string (hd EmptyString (split "-" (date_of_creation c))))
      as [year|] eqn:Iy; simpl in Y2; [|discriminate].
    assert (F : exists lo,
               (if truthy (year_from f)
                then match year_from f with
                     | Some v => py_int int_of_string v
                     | None => Ok 0
                     end
                else Ok 0) = Ok lo
               /\ (if truthy (year_from f)
                   then exists v, year_from f = Some v
                                  /\ py_int int_of_string v = Ok lo
                   else lo = 0)).
    { destruct (truthy (year_from f)) eqn:Tf; [|eauto].
      destruct (year_from f) as [v|]; [|discriminate].
      destruct (py_int int_of_string v) as [lo|] eqn:P;
        [eauto|simpl in Y2; discriminate]. }
    destruct F as [lo [F1 F2]]. rewrite F1 in Y2. simpl in Y2.
    assert (G : exists hi,
               (if truthy (year_to f)
                then match year_to f with
                     | Some v => py_int int_of_string v
                     | None => Ok 9999
                     end
                else Ok 9999) = Ok hi
               /\ (if truthy (year_to f)
                   then exists v, year_to f = Some v
                                  /\ py_int int_of_string v = Ok hi
                   else hi = 9999)).
    { destruct (truthy (year_to f)) eqn:Tt; [|eauto].
      destruct (year_to f) as [v|]; [|discriminate].
      destruct (py_int int_of_string v) as [hi|] eqn:P;
        [eauto|simpl in Y2; discriminate]. }
    destruct G as [hi [G1 G2]]. rewrite G1 in Y2. simpl in Y2.
    exists year, lo, hi.
    apply andb_prop in Y2. destruct Y2 as [B1 B2].
    apply Z.leb_le in B1. apply Z.leb_le in B2.
    repeat split; auto; try lia.
    unfold nonempty in Y1. intros Em. rewrite Em in Y1. discriminate.
  - intros Ne. apply T. destruct (company_types f); [contradiction|auto].
Qed.

End Search.

Lemma sample_search_run :
  filtered_numbers sample_int sample_strptime sample_registry sample_filters
  = ([Query (Some "A"%string) None; Query (Some "B"%string) None],
     Ok ["5678"%string]).
Proof. vm_compute. reflexivity. Qed.

Lemma search_asks_at_most_five_witness :
  exists k,
    (k <= 5)%nat /\ (65 + k <= 66 + 1 \/ k = 0)%nat
    /\ fst (search sample_registry sample_filters 100)
       = map (letter_query (status_of sample_filters) 65) (seq 0 k).
Proof.
  apply (proj2 (search_asks_at_most_five sample_registry sample_filters 100));
    reflexivity.
Defined.

Lemma filtered_numbers_within_limit_witness :
  (0 <= 100 -> Z.of_nat (List.length ["5678"%string]) <= 100)
  /\ forall n, In n ["5678"%string] ->
       n <> EmptyString
       /\ exists c,
            company_number c = Some n
            /\ answered sample_registry
                 [Query (Some "A"%string) None; Query (Some "B"%string) None] c.
Proof.
  apply (filtered_numbers_within_limit sample_int sample_strptime
           sample_registry sample_filters 100).
  - reflexivity.
  - exact sample_search_run.
Defined.

Lemma returned_companies_pass_filters_witness :
  exists c,
    company_number c = Some "5678"%string
    /\ (truthy (year_from sample_filters) || truthy (year_to sample_filters)
        = true ->
        exists year lo hi,
          date_of_creation c <> EmptyString
          /\ sample_int (hd EmptyString (split "-" (date_of_creation c)))
             = Ok year
          /\ (if truthy (year_from sample_filters)
              then exists v, year_from sample_filters = Some v
                             /\ py_int sample_int v = Ok lo
              else lo = 0)
          /\ (if truthy (year_to sample_filters)
              then exists v, year_to sample_filters = Some v
                             /\ py_int sample_int v = Ok hi
              else hi = 9999)
          /\ lo <= year <= hi)
    /\ (nonempty (location_of sample_filters) = true ->
        location_ok sample_filters c = true)
    /\ (nonempty (Text.strip (sic_code sample_filters)) = true ->
        sic_ok sample_filters c = true)
    /\ (company_types sample_filters <> [] -> type_ok sample_filters c = true)
    /\ (nonempty (dissolved_from sample_filters)
        || nonempty (dissolved_to sample_filters) = true ->
        dissolved_ok sample_strptime sample_filters c = true).
Proof.
  apply (returned_companies_pass_filters sample_int sample_strptime
           sample_registry sample_filters _ _ "5678"%string
           sample_search_run).
  left. reflexivity.
Defined.

Lemma filtered_scan_uses_numbers_verbatim_witness :
  "5678"%string <> EmptyString
  /\ exists c,
       company_number c = Some "5678"%string
       /\ answered sample_registry
            (fst (filtered_numbers sample_int sample_strptime sample_registry
                                   sample_filters)) c.
Proof.
  apply (filtered_scan_uses_numbers_verbatim sample_int sample_strptime
           sample_registry (list string) nat Spec.sample_has_results
           (App.store_exists Spec.SAMPLE_STORE)
           (App.store_get Spec.SAMPLE_STORE)
           (App.processor_run Spec.SAMPLE_PROCESSOR)
           (App.processor_summary Spec.SAMPLE_PROCESSOR)
           sample_filters
           (App.ScanRequest "filtered" [] false 1 true false true
                            (Some "key"%string) None)
           (App.CheckCompanyExists "5678" "Only Active Directors")
           "5678"%string).
  - reflexivity.
  - vm_compute. left. reflexivity.
  - left. reflexivity.
Defined.

End FilteredFacts.

Local Open Scope string_scope.
Local Open Scope Z_scope.
Local Open Scope py_scope.

(** ** Cleaning up old exports *)

Module CleanupFacts.
Import Cleanup.

Lemma sweep_exports_spec (cutoff_time : Z) (listing : list entry) :
  sweep_exports cutoff_time listing
  = (filter (fun e => negb (swept cutoff_time e)) listing,
     Z.of_nat (List.length listing
               - List.length (filter (fun e => negb (swept cutoff_time e))
                                     listing))).
Proof.
  induction listing as [|e rest IH]; [reflexivity|].
  cbn [sweep_exports filter]. rewrite IH.
  pose proof (filter_length_le (fun e => negb (swept cutoff_time e)) rest).
  assert (Es : swept cutoff_time e
               = is_file e && (mtime e <? cutoff_time) && negb (locked e))
    by reflexivity.
  rewrite Es.
  destruct (is_file e), (mtime e <? cutoff_time), (locked e);
    cbn [andb negb]; f_equal; cbn [List.length]; lia.
Qed.

Lemma filter_twice (A : Type) (f : A -> bool) (l : list A) :
  filter f (filter f l) = filter f l.
Proof.
  induction l as [|x l IH]; simpl; auto.
  destruct (f x) eqn:E; simpl; [rewrite E|]; congruence.
Qed.

(** X18.  [cleanup_exports] removes nothing but files older than the cut-off:
    a folder, a file modified at or after the cut-off and a file whose
    removal fails all stay; every other entry goes, and the number
    returned is the number of entries gone. *)
Theorem cleanup_exports_removes_only_old_files
    (listing : list entry) (now max_age_hours : Z) :
  exists kept,
    cleanup_exports (Some listing) now max_age_hours
    = (Some kept,
       Some (Z.of_nat (List.length listing - List.length kept)))
    /\ forall e, In e listing ->
         (In e kept
          <-> is_file e = false
              \/ now - max_age_hours * US_PER_HOUR <= mtime e
              \/ locked e = true).
Proof.
  unfold cleanup_exports.
  rewrite sweep_exports_spec. eexists. split; [reflexivity|].
  intros e He. rewrite filter_In. unfold swept.
  destruct (is_file e), (locked e),
    (Z.ltb_spec (mtime e) (now - max_age_hours * US_PER_HOUR)) as [Lt|Ge];
    cbn [andb negb]; split; intros K; auto; try tauto;
    try (destruct K as [_ K]; discriminate);
    destruct K as [K|[K|K]]; try discriminate; lia.
Qed.

(** X19.  A second [cleanup_exports] at the same time removes nothing more. *)
Theorem cleanup_exports_idempotent
    (exports_dir after : directory) (now max_age_hours : Z)
    (removed : option Z) :
  cleanup_exports exports_dir now max_age_hours = (after, removed) ->
  cleanup_exports after now max_age_hours
  = (after, match removed with Some _ => Some 0 | None => None end).
Proof.
  unfold cleanup_exports. destruct exports_dir as [listing|].
  - rewrite sweep_exports_spec. intros E. inversion E; subst.
    rewrite sweep_exports_spec, filter_twice. f_equal. f_equal.
    rewrite Nat.sub_diag. reflexivity.
  - intros E. inversion E; subst. reflexivity.
Qed.

Lemma cleanup_exports_idempotent_witness :
  cleanup_exports
    (Some [Entry "exports/new.csv" true 9000000000 false;
           Entry "exports/busy.pdf" true 1000000000 true;
           Entry "exports/2020" false 1000000000 false])
    10000000000 1
  = (Some [Entry "exports/new.csv" true 9000000000 false;
           Entry "exports/busy.pdf" true 1000000000 true;
           Entry "exports/2020" false 1000000000 false],
     Some 0).
Proof.
  apply (cleanup_exports_idempotent (Some SAMPLE_DIR) _ 10000000000 1
           (Some 1)).
  vm_compute. reflexivity.
Defined.

End CleanupFacts.
